(** * cloneWebsite.js: the crawl-and-rewrite engine

    A shallow embedding of [src/cloneWebsite.js] (robots policy, path
    mappers, document rewriter, crawl loop, asset fetcher) together with
    the properties the specification states about it.

    JavaScript strings are modelled as [string] (sequences of 8-bit code
    units; every URL serialisation is ASCII).  The platform pieces that
    the file calls but does not define -- the WHATWG [URL] constructor,
    [decodeURIComponent], [cheerio], [fetch] and the file system -- are
    parameters of the development. *)

From Stdlib Require Import String Ascii List Bool Arith ZArith Lia.
Import ListNotations.
Local Open Scope list_scope.
Local Open Scope string_scope.

(* ================================================================== *)
(** ** JavaScript string primitives *)

Module JS.

(** [s.startsWith(p)] *)
Definition startsWith (s p : string) : bool := String.prefix p s.

(** [s.endsWith(p)]: [p] is [s] itself or a suffix of its tail. *)
Fixpoint endsWith (s p : string) : bool :=
  String.eqb s p ||
  match s with
  | EmptyString => false
  | String _ s' => endsWith s' p
  end.

(** [s.slice(0, -1)] *)
Fixpoint dropLast (s : string) : string :=
  match s with
  | EmptyString => EmptyString
  | String c s' =>
      match s' with
      | EmptyString => EmptyString
      | String _ _ => String c (dropLast s')
      end
  end.

(** [s.slice(0, n)] *)
Fixpoint take (n : nat) (s : string) : string :=
  match n, s with
  | S k, String c s' => String c (take k s')
  | _, _ => EmptyString
  end.

(** [s.slice(n)] *)
Fixpoint drop (n : nat) (s : string) : string :=
  match n, s with
  | S k, String _ s' => drop k s'
  | _, _ => s
  end.

(** [s.includes(p)] *)
Fixpoint includes (s p : string) : bool :=
  String.prefix p s ||
  match s with
  | EmptyString => false
  | String _ s' => includes s' p
  end.

(** [s.split(c)] for a one-character separator: the pieces between the
    occurrences of [c]; always at least one piece. *)
Fixpoint splitChar (c : ascii) (s : string) : list string :=
  match s with
  | EmptyString => [EmptyString]
  | String a s' =>
      if Ascii.eqb a c then EmptyString :: splitChar c s'
      else match splitChar c s' with
           | [] => [String a EmptyString]
           | p :: ps => String a p :: ps
           end
  end.

(** [s.split(sep)] for a non-empty separator string.  [skip] counts the
    characters of a separator occurrence still to be passed over and
    [cur] is the piece being read, last character first. *)
Fixpoint revApp (r s : string) : string :=
  match r with
  | EmptyString => s
  | String c r' => revApp r' (String c s)
  end.

Fixpoint splitAux (sep : string) (skip : nat) (cur : string) (s : string)
  : list string :=
  match s with
  | EmptyString => [revApp cur EmptyString]
  | String a s' =>
      match skip with
      | S k => splitAux sep k cur s'
      | O =>
          if String.prefix sep s
          then revApp cur EmptyString
                 :: splitAux sep (String.length sep - 1) EmptyString s'
          else splitAux sep O (String a cur) s'
      end
  end.

Definition split (sep s : string) : list string := splitAux sep 0 EmptyString s.

(** [xs.join(sep)] *)
Fixpoint join (sep : string) (xs : list string) : string :=
  match xs with
  | [] => EmptyString
  | [x] => x
  | x :: rest => x ++ sep ++ join sep rest
  end.

(** Truthiness of a string: [Boolean(s)], [!!s]. *)
Definition truthy (s : string) : bool :=
  match s with EmptyString => false | _ => true end.

(** White space as [trim] and [\s] see it, restricted to the code units
    below 128: TAB, LF, VT, FF, CR and SPACE. *)
Definition isSpace (c : ascii) : bool :=
  let n := nat_of_ascii c in
  ((9 <=? n)%nat && (n <=? 13)%nat) || (n =? 32)%nat.

Fixpoint trimStart (s : string) : string :=
  match s with
  | String c s' => if isSpace c then trimStart s' else s
  | EmptyString => EmptyString
  end.

(** Drops trailing white space: a character is kept when it is not white
    space or when something is kept after it. *)
Fixpoint trimEnd (s : string) : string :=
  match s with
  | EmptyString => EmptyString
  | String c s' =>
      match trimEnd s' with
      | EmptyString => if isSpace c then EmptyString else String c EmptyString
      | t => String c t
      end
  end.

Definition trim (s : string) : string := trimEnd (trimStart s).

(** [s.split(/\s+/)] on a trimmed string: its maximal runs of characters
    that are not white space; the empty string gives one empty piece. *)
Fixpoint wordsAux (cur : string) (s : string) : list string :=
  match s with
  | EmptyString =>
      match cur with EmptyString => [] | _ => [revApp cur EmptyString] end
  | String c s' =>
      if isSpace c then
        match cur with
        | EmptyString => wordsAux EmptyString s'
        | _ => revApp cur EmptyString :: wordsAux EmptyString s'
        end
      else wordsAux (String c cur) s'
  end.

Definition splitSpaces (s : string) : list string :=
  match wordsAux EmptyString s with
  | [] => [EmptyString]
  | ws => ws
  end.

End JS.

(* ================================================================== *)
(** ** Node's [path] module, POSIX flavour *)

Module Path.

(** The non-empty components of a path. *)
Definition components (p : string) : list string :=
  filter JS.truthy (JS.splitChar "/" p).

(** [path.basename(p)]: the last component, trailing slashes ignored. *)
Definition basename (p : string) : string := last (components p) EmptyString.

(** Index of the last ["."] of [s], if any. *)
Fixpoint lastDot (s : string) : option nat :=
  match s with
  | EmptyString => None
  | String c s' =>
      match lastDot s' with
      | Some i => Some (S i)
      | None => if Ascii.eqb c "." then Some 0 else None
      end
  end.

(** [path.extname(p)]: the part of the last component from its last dot
    on; empty when the component has no dot, when its only dot is its
    first character, and for the component [".."]. *)
Definition extname (p : string) : string :=
  let c := basename p in
  match lastDot c with
  | None => EmptyString
  | Some O => EmptyString
  | Some i => if String.eqb c ".." then EmptyString else JS.drop i c
  end.

(** [normalizeString]: walks the components, dropping empty ones and
    ["."], and resolving [".."] against the component before it.  [acc]
    holds the result so far, last component first; above the start of a
    relative path [".."] is kept, above the root it is dropped. *)
Fixpoint normalizeSegs (allowAboveRoot : bool) (acc : list string)
         (segs : list string) : list string :=
  match segs with
  | [] => rev acc
  | s :: rest =>
      if String.eqb s "" || String.eqb s "." then
        normalizeSegs allowAboveRoot acc rest
      else if String.eqb s ".." then
        match acc with
        | top :: acc' =>
            if String.eqb top ".."
            then normalizeSegs allowAboveRoot (s :: acc) rest
            else normalizeSegs allowAboveRoot acc' rest
        | [] =>
            if allowAboveRoot
            then normalizeSegs allowAboveRoot [s] rest
            else normalizeSegs allowAboveRoot [] rest
        end
      else normalizeSegs allowAboveRoot (s :: acc) rest
  end.

Definition isAbsolute (p : string) : bool := JS.startsWith p "/".

(** The components of the normal form of [p]. *)
Definition segments (p : string) : list string :=
  normalizeSegs (negb (isAbsolute p)) [] (JS.splitChar "/" p).

(** [path.normalize(p)] *)
Definition normalize (p : string) : string :=
  match p with
  | EmptyString => "."
  | _ =>
      let body := JS.join "/" (segments p) in
      let trailing := JS.endsWith p "/" in
      match body with
      | EmptyString =>
          if isAbsolute p then "/" else if trailing then "./" else "."
      | _ =>
          let body' := if trailing then body ++ "/" else body in
          if isAbsolute p then "/" ++ body' else body'
      end
  end.

(** [path.join(a, b)]: the non-empty arguments joined by ["/"], then
    normalised. *)
Definition join (a b : string) : string :=
  match a, b with
  | EmptyString, EmptyString => "."
  | EmptyString, _ => normalize b
  | _, EmptyString => normalize a
  | _, _ => normalize (a ++ "/" ++ b)
  end.

End Path.

(* ================================================================== *)
(** ** [crypto.createHash("md5").update(s).digest("hex")]

    MD5 (RFC 1321) over the code units of the string, on 32-bit words
    held in [Z] with the wrap-around written out. *)

Module MD5.

Local Open Scope Z_scope.

Definition mask32 : Z := 4294967295.
Definition add32 (x y : Z) : Z := Z.land (x + y) mask32.
Definition not32 (x : Z) : Z := Z.lxor x mask32.
Definition rotl32 (x c : Z) : Z :=
  Z.land (Z.lor (Z.shiftl x c) (Z.shiftr x (32 - c))) mask32.

(** Per-step left rotations and additive constants
    [floor(2^32 * |sin(i + 1)|)]. *)
Definition shifts : list Z :=
  [ 7; 12; 17; 22; 7; 12; 17; 22; 7; 12; 17; 22; 7; 12; 17; 22;
    5; 9; 14; 20; 5; 9; 14; 20; 5; 9; 14; 20; 5; 9; 14; 20;
    4; 11; 16; 23; 4; 11; 16; 23; 4; 11; 16; 23; 4; 11; 16; 23;
    6; 10; 15; 21; 6; 10; 15; 21; 6; 10; 15; 21; 6; 10; 15; 21 ].

Definition sines : list Z :=
  [ 3614090360; 3905402710; 606105819; 3250441966;
    4118548399; 1200080426; 2821735955; 4249261313;
    1770035416; 2336552879; 4294925233; 2304563134;
    1804603682; 4254626195; 2792965006; 1236535329;
    4129170786; 3225465664; 643717713; 3921069994;
    3593408605; 38016083; 3634488961; 3889429448;
    568446438; 3275163606; 4107603335; 1163531501;
    2850285829; 4243563512; 1735328473; 2368359562;
    4294588738; 2272392833; 1839030562; 4259657740;
    2763975236; 1272893353; 4139469664; 3200236656;
    681279174; 3936430074; 3572445317; 76029189;
    3654602809; 3873151461; 530742520; 3299628645;
    4096336452; 1126891415; 2878612391; 4237533241;
    1700485571; 2399980690; 4293915773; 2240044497;
    1873313359; 4264355552; 2734768916; 1309151649;
    4149444226; 3174756917; 718787259; 3951481745 ].

Record regs : Type := mkRegs { rA : Z; rB : Z; rC : Z; rD : Z }.

Definition init : regs :=
  mkRegs 1732584193 4023233417 2562383102 271733878.

(** One of the 64 steps on the 16 message words [m]. *)
Definition step (m : list Z) (r : regs) (i : nat) : regs :=
  let '(mkRegs a b c d) := r in
  let iz := Z.of_nat i in
  let '(f, g) :=
    if (i <? 16)%nat then
      (Z.lor (Z.land b c) (Z.land (not32 b) d), iz)
    else if (i <? 32)%nat then
      (Z.lor (Z.land d b) (Z.land (not32 d) c), (5 * iz + 1) mod 16)
    else if (i <? 48)%nat then
      (Z.lxor b (Z.lxor c d), (3 * iz + 5) mod 16)
    else
      (Z.lxor c (Z.lor b (not32 d)), (7 * iz) mod 16) in
  let f' := add32 (add32 (add32 f a) (nth i sines 0)) (nth (Z.to_nat g) m 0) in
  mkRegs d (add32 b (rotl32 f' (nth i shifts 0))) b c.

(** Little-endian words of a block of bytes. *)
Fixpoint wordsLE (bytes : list Z) : list Z :=
  match bytes with
  | b0 :: b1 :: b2 :: b3 :: rest =>
      (b0 + Z.shiftl b1 8 + Z.shiftl b2 16 + Z.shiftl b3 24) :: wordsLE rest
  | _ => []
  end.

Definition block (r : regs) (bytes : list Z) : regs :=
  let r' := fold_left (step (wordsLE bytes)) (seq 0 64) r in
  mkRegs (add32 (rA r) (rA r')) (add32 (rB r) (rB r'))
         (add32 (rC r) (rC r')) (add32 (rD r) (rD r')).

Fixpoint blocks (fuel : nat) (r : regs) (bytes : list Z) : regs :=
  match fuel, bytes with
  | S k, _ :: _ => blocks k (block r (firstn 64 bytes)) (skipn 64 bytes)
  | _, _ => r
  end.

(** The little-endian bytes of the low [8 * n] bits of [x]. *)
Fixpoint bytesLE (n : nat) (x : Z) : list Z :=
  match n with
  | O => []
  | S k => Z.land x 255 :: bytesLE k (Z.shiftr x 8)
  end.

(** Padding: a 1 bit, zeros up to 56 modulo 64, the bit length on 64
    bits. *)
Definition pad (bytes : list Z) : list Z :=
  let len := Z.of_nat (List.length bytes) in
  let zeros := Z.to_nat ((55 - len) mod 64) in
  (bytes ++ 128 :: repeat 0 zeros ++ bytesLE 8 (Z.land (8 * len) (2 ^ 64 - 1)))%list.

Definition bytesOfString (s : string) : list Z :=
  map (fun c => Z.of_nat (nat_of_ascii c)) (list_ascii_of_string s).

Definition digest (s : string) : list Z :=
  let p := pad (bytesOfString s) in
  let r := blocks (List.length p) init p in
  (bytesLE 4 (rA r) ++ bytesLE 4 (rB r) ++ bytesLE 4 (rC r) ++ bytesLE 4 (rD r))%list.

Definition hexDigit (n : Z) : ascii :=
  match String.get (Z.to_nat (n mod 16)) "0123456789abcdef" with
  | Some c => c
  | None => "0"%char
  end.

Fixpoint hexOfBytes (bytes : list Z) : string :=
  match bytes with
  | [] => EmptyString
  | b :: rest =>
      String (hexDigit (Z.shiftr b 4)) (String (hexDigit b) (hexOfBytes rest))
  end.

Definition hex (s : string) : string := hexOfBytes (digest s).

End MD5.

(* ================================================================== *)
(** ** Data model *)

(** A parsed [URL] object.  [site] is the part of the serialisation that
    precedes the path (scheme, ["//"], credentials, host, port), so that
    [href] is [site + pathname + search + hash]; assigning [""] to
    [search] or [hash] clears the field. *)
Record URL : Type := mkURL {
  protocol : string;
  origin : string;
  site : string;
  pathname : string;
  search : string;
  hash : string
}.

Definition href (u : URL) : string := site u ++ pathname u ++ search u ++ hash u.

Definition clearSearch (u : URL) : URL :=
  mkURL (protocol u) (origin u) (site u) (pathname u) "" (hash u).

Definition clearHash (u : URL) : URL :=
  mkURL (protocol u) (origin u) (site u) (pathname u) (search u) "".

(** An element of a parsed document: its tag and its attributes. *)
Record Element : Type := mkElement {
  tag : string;
  attrs : list (string * string)
}.

Definition Document : Type := list Element.

(** [$el.attr(name)] *)
Fixpoint getAttr (name : string) (l : list (string * string)) : option string :=
  match l with
  | [] => None
  | (k, v) :: rest => if String.eqb k name then Some v else getAttr name rest
  end.

Definition attr (name : string) (e : Element) : option string :=
  getAttr name (attrs e).

(** [$el.attr(name, value)] *)
Fixpoint putAttr (name value : string) (l : list (string * string))
  : list (string * string) :=
  match l with
  | [] => [(name, value)]
  | (k, v) :: rest =>
      if String.eqb k name then (k, value) :: rest
      else (k, v) :: putAttr name value rest
  end.

Definition setAttr (name value : string) (e : Element) : Element :=
  mkElement (tag e) (putAttr name value (attrs e)).

(** [$el.removeAttr("a b c")] *)
Definition removeAttr (names : list string) (e : Element) : Element :=
  mkElement (tag e)
    (filter (fun kv => negb (existsb (String.eqb (fst kv)) names)) (attrs e)).

(** A response: [ok] is a status in the range 200-299; the headers may
    lack a content type; reading the body may be rejected. *)
Record Response : Type := mkResponse {
  status : nat;
  contentType : option string;
  body : option string
}.

Definition ok (r : Response) : bool :=
  (200 <=? status r)%nat && (status r <=? 299)%nat.

(** What [await fetch(url)] does: rejects (network failure, timeout) or
    resolves to a response. *)
Inductive FetchResult : Type :=
| Rejected
| Responded (r : Response).

(** The environment of one run: the network, the file system's
    willingness to prepare a directory and to create a file (with its
    parent directories), the working directory, the files a directory
    holds when the run starts, and whether [import("./cloneWebsite.js")]
    resolves. *)
Record World : Type := mkWorld {
  fetch : string -> FetchResult;
  canEmptyDir : string -> bool;
  canWriteFile : string -> bool;
  cwd : string;
  priorFiles : string -> list (string * string);
  clonerLoads : bool
}.

(** Robots policy. *)
Record RobotsRules : Type := mkRobotsRules {
  disallowedPaths : list string;
  crawlDelay : Z
}.

Definition emptyRules : RobotsRules := mkRobotsRules [] 0%Z.

(** The options of [cloneWebsite], defaults filled in by [defaultOptions]. *)
Record Options : Type := mkOptions {
  outDir : string;
  maxPages : Z;
  mirrorExternalAssets : bool;
  concurrency : Z;
  respectRobots : bool
}.

Definition defaultOptions : Options :=
  mkOptions "cloned-websites" 10 true 10 true.

Record Statistics : Type := mkStatistics {
  pagesCloned : nat;
  assetsDownloaded : nat;
  maxPagesReached : bool;
  robotsRespected : bool
}.

Record CloneResult : Type := mkCloneResult {
  success : bool;
  message : string;
  outputPath : string;
  statistics : Statistics
}.

(** Thrown values, by what threw them. *)
Inductive Exn : Type :=
| InvalidURL (input : string)      (* [new URL(input, base)] *)
| MalformedURI (input : string)    (* [decodeURIComponent(input)] *)
| FetchFailed (url : string)       (* [fetch(url)] rejected *)
| BodyFailed (url : string)        (* [response.text()], [arrayBuffer()] *)
| HttpStatus (code : nat)          (* [throw new Error(`HTTP ${status}`)] *)
| FsFailed (path : string)         (* [emptyDir], [ensureDir], [writeFile] *)
| InvalidConcurrency (n : Z).      (* [pLimit(n)] for [n] below 1 *)

(** Lines written to the console that report something left out. *)
Inductive LogLine : Type :=
| SkippedDisallowed (url : string)
| PageFetchError (url : string)
| SkippedNonHtml (url : string)
| NextImageFailed (value : string)
| AssetFailed (url : string)
| SavedPage (path : string)
| DownloadedAsset (path : string).

(** The mutable state of one run.  The first four fields are the code's
    [visitedPages], [pageQueue], [assetSet] and the output tree; a [Set]
    is the list of its members in insertion order.  The remaining fields
    are history the code does not keep: the page URLs handed to [fetch],
    the URLs pushed on the queue, the pair (visited, queue) after each
    change of either, and the console. *)
Record CrawlState : Type := mkCrawlState {
  visitedPages : list string;
  pageQueue : list string;
  assetSet : list string;
  files : list (string * string);
  pageFetches : list string;
  pushes : list string;
  snapshots : list (list string * list string);
  console : list LogLine
}.

(** [set.has(x)], [array.includes(x)] *)
Definition has (x : string) (l : list string) : bool := existsb (String.eqb x) l.

(** [set.add(x)] *)
Definition setAdd (x : string) (l : list string) : list string :=
  if has x l then l else (l ++ [x])%list.

(** Completion of a computation: a value or a thrown exception. *)
Inductive Completion (A : Type) : Type :=
| Normal (a : A)
| Throw (e : Exn).
Arguments Normal {A} a.
Arguments Throw {A} e.

(** Computations over the crawl state.  The state is returned in both
    cases: what was done before a throw stays done. *)
Definition M (A : Type) : Type := CrawlState -> Completion A * CrawlState.

Definition ret {A} (a : A) : M A := fun s => (Normal a, s).

Definition throw {A} (e : Exn) : M A := fun s => (Throw e, s).

Definition bind {A B} (m : M A) (k : A -> M B) : M B :=
  fun s =>
    match m s with
    | (Normal a, s') => k a s'
    | (Throw e, s') => (Throw e, s')
    end.

(** [try { m } catch (e) { h e }] *)
Definition tryCatch {A} (m : M A) (h : Exn -> M A) : M A :=
  fun s =>
    match m s with
    | (Normal a, s') => (Normal a, s')
    | (Throw e, s') => h e s'
    end.

Declare Scope crawl_scope.
Delimit Scope crawl_scope with crawl.
Notation "x <- m ;; k" := (bind m (fun x => k))
  (at level 61, m at next level, right associativity) : crawl_scope.
Notation "m ;; k" := (bind m (fun _ => k))
  (at level 61, right associativity) : crawl_scope.

Local Open Scope crawl_scope.

Definition get : M CrawlState := fun s => (Normal s, s).

(** A value that may be missing because its producer threw. *)
Definition orThrow {A} (o : option A) (e : Exn) : M A :=
  match o with
  | Some a => ret a
  | None => throw e
  end.

Fixpoint mapM {A B} (f : A -> M B) (l : list A) : M (list B) :=
  match l with
  | [] => ret []
  | a :: rest => b <- f a ;; bs <- mapM f rest ;; ret (b :: bs)
  end.

Fixpoint forEachM {A} (f : A -> M unit) (l : list A) : M unit :=
  match l with
  | [] => ret tt
  | a :: rest => f a ;; forEachM f rest
  end.

(** State changes.  Those that touch [visitedPages] or [pageQueue]
    record the new pair in [snapshots]. *)
Definition logLine (l : LogLine) : M unit := fun s =>
  (Normal tt,
   mkCrawlState (visitedPages s) (pageQueue s) (assetSet s) (files s)
     (pageFetches s) (pushes s) (snapshots s) (l :: console s)).

Definition addAsset (u : string) : M unit := fun s =>
  (Normal tt,
   mkCrawlState (visitedPages s) (pageQueue s) (setAdd u (assetSet s)) (files s)
     (pageFetches s) (pushes s) (snapshots s) (console s)).

Definition setQueue (q : list string) : M unit := fun s =>
  (Normal tt,
   mkCrawlState (visitedPages s) q (assetSet s) (files s)
     (pageFetches s) (pushes s) ((visitedPages s, q) :: snapshots s) (console s)).

Definition addVisited (u : string) : M unit := fun s =>
  let v := setAdd u (visitedPages s) in
  (Normal tt,
   mkCrawlState v (pageQueue s) (assetSet s) (files s)
     (pageFetches s) (pushes s) ((v, pageQueue s) :: snapshots s) (console s)).

Definition pushQueue (u : string) : M unit := fun s =>
  let q := (pageQueue s ++ [u])%list in
  (Normal tt,
   mkCrawlState (visitedPages s) q (assetSet s) (files s)
     (pageFetches s) (u :: pushes s) ((visitedPages s, q) :: snapshots s)
     (console s)).

Definition notePageFetch (u : string) : M unit := fun s =>
  (Normal tt,
   mkCrawlState (visitedPages s) (pageQueue s) (assetSet s) (files s)
     (u :: pageFetches s) (pushes s) (snapshots s) (console s)).

Definition putFile (path content : string) : M unit := fun s =>
  (Normal tt,
   mkCrawlState (visitedPages s) (pageQueue s) (assetSet s)
     ((path, content) :: filter (fun f => negb (String.eqb (fst f) path)) (files s))
     (pageFetches s) (pushes s) (snapshots s) (console s)).

Definition clearFiles : M unit := fun s =>
  (Normal tt,
   mkCrawlState (visitedPages s) (pageQueue s) (assetSet s) []
     (pageFetches s) (pushes s) (snapshots s) (console s)).

(* ================================================================== *)
(** ** [parseInt] and the robots parser *)

(** Value of a digit in a radix of at most 36. *)
Definition digitValue (c : ascii) : option Z :=
  let n := Z.of_nat (nat_of_ascii c) in
  if ((48 <=? n) && (n <=? 57))%Z then Some (n - 48)%Z
  else if ((97 <=? n) && (n <=? 122))%Z then Some (n - 87)%Z
  else if ((65 <=? n) && (n <=? 90))%Z then Some (n - 55)%Z
  else None.

(** The longest prefix of digits of [s] in [radix], as a number; [None]
    when [s] does not start with a digit. *)
Fixpoint digitsFrom (radix : Z) (acc : option Z) (s : string) : option Z :=
  match s with
  | EmptyString => acc
  | String c s' =>
      match digitValue c with
      | Some d =>
          if (d <? radix)%Z
          then digitsFrom radix
                 (Some (match acc with Some a => a * radix + d | None => d end)%Z) s'
          else acc
      | None => acc
      end
  end.

(** [parseInt(s)]: leading white space, an optional sign, an optional
    [0x] prefix that selects radix 16, then digits.  [None] is [NaN]. *)
Definition parseInt (s : string) : option Z :=
  let t := JS.trimStart s in
  let '(neg, t1) :=
    match t with
    | String "-" r => (true, r)
    | String "+" r => (false, r)
    | _ => (false, t)
    end in
  let '(radix, t2) :=
    match t1 with
    | String "0" (String "x" r) => (16%Z, r)
    | String "0" (String "X" r) => (16%Z, r)
    | _ => (10%Z, t1)
    end in
  match digitsFrom radix None t2 with
  | Some v => Some (if neg then (- v)%Z else v)
  | None => None
  end.

(** [line.split(':')[1].trim()] for a line that contains a colon. *)
Definition directiveValue (line : string) : string :=
  JS.trim (nth 1 (JS.splitChar ":" line) EmptyString).

(** One turn of the loop of [parseRobotsForUserAgent]; the state is
    [currentUserAgent], [disallowedPaths] and [crawlDelay]. *)
Definition robotsLine (userAgent : string)
           (st : option string * list string * Z) (line : string)
  : option string * list string * Z :=
  let '(currentUserAgent, disallowed, delay) := st in
  if JS.startsWith line "User-agent:" then
    let agent := directiveValue line in
    ((if String.eqb agent "*" || String.eqb agent userAgent
      then Some agent else None), disallowed, delay)
  else if match currentUserAgent with Some _ => true | None => false end
          && JS.startsWith line "Disallow:" then
    let path := directiveValue line in
    (currentUserAgent,
     (if JS.truthy path then (disallowed ++ [path])%list else disallowed), delay)
  else if match currentUserAgent with Some _ => true | None => false end
          && JS.startsWith line "Crawl-delay:" then
    (currentUserAgent, disallowed,
     match parseInt (directiveValue line) with
     | Some v => v
     | None => 0%Z
     end)
  else st.

Definition parseRobotsForUserAgent (robotsText userAgent : string) : RobotsRules :=
  let lines := map JS.trim (JS.splitChar "010"%char robotsText) in
  let '(_, disallowed, delay) :=
    fold_left (robotsLine userAgent) lines (None, [], 0%Z) in
  mkRobotsRules disallowed delay.

(** Whether one disallow pattern covers a path: the callback of [some]
    in [isUrlAllowed]. *)
Definition patternCovers (pathname path : string) : bool :=
  if JS.endsWith path "*" then JS.startsWith pathname (JS.dropLast path)
  else String.eqb pathname path || JS.startsWith pathname (path ++ "/").

(** [pathname.replace(/^\/+/, "")] *)
Fixpoint stripLeadingSlashes (s : string) : string :=
  match s with
  | String "/" s' => stripLeadingSlashes s'
  | _ => s
  end.

(** The longest prefix of [s] without ["&"]. *)
Fixpoint untilAmp (s : string) : string :=
  match s with
  | EmptyString => EmptyString
  | String c s' => if Ascii.eqb c "&" then EmptyString else String c (untilAmp s')
  end.

(** [url.match(/\/_next\/image\?url=([^&]+)/)?.[1]]: the capture of the
    leftmost match. *)
Fixpoint nextImageCapture (s : string) : option string :=
  match s with
  | EmptyString => None
  | String _ s' =>
      if String.prefix "/_next/image?url=" s then
        match untilAmp (JS.drop (String.length "/_next/image?url=") s) with
        | EmptyString => nextImageCapture s'
        | cap => Some cap
        end
      else nextImageCapture s'
  end.

Definition SKIPPABLE_HREF_PREFIXES : list string :=
  ["#"; "mailto:"; "tel:"; "javascript:"].

Definition isSkippableHref (h : string) : bool :=
  negb (JS.truthy h) || existsb (fun prefix => JS.startsWith h prefix)
                                SKIPPABLE_HREF_PREFIXES.

Definition USER_AGENT_NAME : string := "WebsiteCloner".

(* ================================================================== *)
(** ** The clone manager: [cloneManager.js]

    The bookkeeping around a clone: the sanitised directory name, the
    metadata file, the look-up of an earlier clone and the listing of
    all clones.  The part of the disk these functions see is a record
    of what each [fs-extra] call answers; [None] is a rejected
    promise.  [pathExists] never rejects.  A JSON file is held as the
    object it parses to. *)

Module CloneManager.

(** The characters [sanitizeDomain] keeps: [a-zA-Z0-9.-]. *)
Definition isDomainChar (c : ascii) : bool :=
  let n := nat_of_ascii c in
  ((48 <=? n)%nat && (n <=? 57)%nat)
  || ((65 <=? n)%nat && (n <=? 90)%nat)
  || ((97 <=? n)%nat && (n <=? 122)%nat)
  || (n =? 46)%nat || (n =? 45)%nat.

(** [domain.replace(/[^a-zA-Z0-9.-]/g, '_')], on the code units of the
    string. *)
Fixpoint sanitizeDomain (domain : string) : string :=
  match domain with
  | EmptyString => EmptyString
  | String c rest =>
      String (if isDomainChar c then c else "_"%char) (sanitizeDomain rest)
  end.

(** The object in [.clone-metadata.json]; a field that is absent (or
    was [undefined] when written) is [None], and [statistics] is [None]
    for the empty object. *)
Record Metadata : Type := mkMetadata {
  mdSourceUrl : option string;
  mdDomain : option string;
  mdClonedAt : option string;
  mdStatistics : option Statistics;
  mdVersion : option string
}.

(** The result object that [getMirrorWebsite] returns and hands to
    [saveCloneMetadata]. *)
Record MirrorResult : Type := mkMirrorResult {
  mrSuccess : bool;
  mrMessage : string;
  mrOutputPath : string;
  mrSourceUrl : option string;
  mrClonedAt : option string;
  mrIsExisting : bool;
  mrDomain : option string;
  mrStatistics : option Statistics
}.

(** What [checkExistingClone] returns for a usable earlier clone. *)
Record ExistingClone : Type := mkExistingClone {
  ecPath : string;
  ecClonedAt : option string;
  ecSourceUrl : string;
  ecStatistics : option Statistics;
  ecIsLegacy : bool
}.

(** An entry of [listAllClones], [{directory, path, ...metadata}], as
    its three ingredients: the two computed properties and the object
    that is spread over them. *)
Record CloneEntry : Type := mkCloneEntry {
  ceDirectory : string;
  cePath : string;
  ceMetadata : Metadata
}.

Record Disk : Type := mkDisk {
  pathExists : string -> bool;
  readJson : string -> option Metadata;
  readdir : string -> option (list string);
  isDirectory : string -> option bool;      (* [(await fs.stat(p)).isDirectory()] *)
  canEnsureDir : string -> bool;
  canWriteJson : string -> bool
}.

Definition METADATA_FILE : string := ".clone-metadata.json".

(** [metadata.sourceUrl === sourceUrl] *)
Definition sameSource (recorded : option string) (sourceUrl : string) : bool :=
  match recorded with
  | Some u => String.eqb u sourceUrl
  | None => false
  end.

(** [checkExistingClone(outDir, sourceUrl)]; [None] is [null].  The
    only call that can reject is [readJson], and the [catch] turns that
    into [null]. *)
Definition checkExistingClone (D : Disk) (outDir sourceUrl : string)
  : option ExistingClone :=
  let metadataPath := Path.join outDir METADATA_FILE in
  if negb (pathExists D outDir) then None
  else if negb (pathExists D metadataPath) then
    let indexPath := Path.join outDir "index.html" in
    if pathExists D indexPath then
      Some (mkExistingClone outDir (Some "Unknown (legacy clone)") sourceUrl None true)
    else None
  else
    match readJson D metadataPath with
    | None => None
    | Some metadata =>
        if sameSource (mdSourceUrl metadata) sourceUrl then
          Some (mkExistingClone outDir (mdClonedAt metadata) sourceUrl
                                (mdStatistics metadata) false)
        else None
    end.

(** The disk once [ensureDir(p)] has made [p] a directory, and once
    [writeJson(p, m)] has made [p] a JSON file that holds [m].  Only the
    answers for [p] itself are changed. *)
Definition withPath (p : string) (D : Disk) : Disk :=
  mkDisk (fun q => String.eqb q p || pathExists D q)
         (readJson D) (readdir D)
         (fun q => if String.eqb q p then Some true else isDirectory D q)
         (canEnsureDir D) (canWriteJson D).

Definition withJson (p : string) (m : Metadata) (D : Disk) : Disk :=
  mkDisk (fun q => String.eqb q p || pathExists D q)
         (fun q => if String.eqb q p then Some m else readJson D q)
         (readdir D) (isDirectory D) (canEnsureDir D) (canWriteJson D).

(** The metadata object that [saveCloneMetadata] builds. *)
Definition metadataOf (cloneResult : MirrorResult) : Metadata :=
  mkMetadata (mrSourceUrl cloneResult) (mrDomain cloneResult)
             (mrClonedAt cloneResult) (mrStatistics cloneResult) (Some "1.0").

(** [saveCloneMetadata(outDir, cloneResult)]: the disk afterwards.  A
    rejected [ensureDir] or [writeJson] is caught and leaves what was
    done before it. *)
Definition saveCloneMetadata (D : Disk) (outDir : string) (cloneResult : MirrorResult)
  : Disk :=
  let metadataPath := Path.join outDir METADATA_FILE in
  if canEnsureDir D outDir then
    let D1 := withPath outDir D in
    if canWriteJson D metadataPath then withJson metadataPath (metadataOf cloneResult) D1
    else D1
  else D.

(** The [for] loop of [listAllClones]; [None] when [fs.stat] rejects,
    which leaves the loop for the outer [catch]. *)
Fixpoint scanClones (D : Disk) (baseDir : string) (directories : list string)
         (clones : list CloneEntry) : option (list CloneEntry) :=
  match directories with
  | [] => Some clones
  | dir :: rest =>
      let dirPath := Path.join baseDir dir in
      match isDirectory D dirPath with
      | None => None
      | Some false => scanClones D baseDir rest clones
      | Some true =>
          let metadataPath := Path.join dirPath METADATA_FILE in
          if pathExists D metadataPath then
            match readJson D metadataPath with
            | Some metadata =>
                scanClones D baseDir rest
                  (clones ++ [mkCloneEntry dir dirPath metadata])%list
            | None => scanClones D baseDir rest clones
            end
          else scanClones D baseDir rest clones
      end
  end.

(** [listAllClones(baseDir)] *)
Definition listAllClones (D : Disk) (baseDir : string) : list CloneEntry :=
  if negb (pathExists D baseDir) then []
  else
    match readdir D baseDir with
    | None => []
    | Some directories =>
        match scanClones D baseDir directories [] with
        | Some clones => clones
        | None => []
        end
    end.

(** The entry of one directory, when it has one: a directory with a
    metadata file that can be read. *)
Definition cloneEntryOf (D : Disk) (baseDir dir : string) : option CloneEntry :=
  let dirPath := Path.join baseDir dir in
  match isDirectory D dirPath with
  | Some true =>
      if pathExists D (Path.join dirPath METADATA_FILE) then
        match readJson D (Path.join dirPath METADATA_FILE) with
        | Some metadata => Some (mkCloneEntry dir dirPath metadata)
        | None => None
        end
      else None
  | _ => None
  end.

End CloneManager.

(* ================================================================== *)
(** ** The mirror tool of the agent: [index.js] *)

(** [s.replace(pat, '')] for a string pattern: the first occurrence of
    [pat] is removed. *)
Fixpoint removeFirst (pat s : string) : string :=
  match s with
  | EmptyString => EmptyString
  | String c s' =>
      if String.prefix pat s then JS.drop (String.length pat) s
      else String c (removeFirst pat s')
  end.

(** [domain] and [baseOutDir] of [getMirrorWebsite], from the host name
    of the validated URL. *)
Definition mirrorDomain (hostname : string) : string := removeFirst "www." hostname.

Definition mirrorOutDir (hostname : string) : string :=
  "./cloned-websites/" ++ CloneManager.sanitizeDomain (mirrorDomain hostname).

(** The options [getMirrorWebsite] passes on; [respectRobots] is left to
    its default. *)
Definition mirrorConfig (baseOutDir : string) : Options :=
  mkOptions baseOutDir 10 true 8 true.

(** What [getMirrorWebsite] throws. *)
Inductive MirrorError : Type :=
| InvalidUrlProvided                 (* [Invalid URL provided: ...] *)
| ModuleLoadFailed                   (* [Failed to load cloning module: ...] *)
| CloningFailed (e : Exn).           (* [Website cloning failed: ...] *)

(** The agent loop of [startAgent]: the messages of the conversation
    and what a reply of the model parses to, as far as the loop reads
    it. *)
Module Agent.

Inductive Role : Type := RoleSystem | RoleUser | RoleAssistant | RoleDeveloper.

(** The value of [input] in a reply: absent, a string, or another JSON
    value, held as its string conversion. *)
Inductive Arg : Type :=
| ArgUndefined
| ArgString (s : string)
| ArgOther (text : string).

(** [String(input)], which is what [new URL(input)] sees. *)
Definition argText (a : Arg) : string :=
  match a with
  | ArgUndefined => "undefined"
  | ArgString s => s
  | ArgOther text => text
  end.

(** A parsed reply that is not [null].  [replyStep] is the value of
    [step] when it is a string; [replyToolName] is [tool_name] as a
    property key (["undefined"] when it is absent); [replyJson] is
    [JSON.stringify] of the reply. *)
Record Reply : Type := mkReply {
  replyStep : option string;
  replyToolName : string;
  replyInput : Arg;
  replyJson : string
}.

Inductive Parsed : Type :=
| ParsedNull
| ParsedValue (r : Reply).

(** What a tool call resolved to, or was rejected with. *)
Inductive ToolValue : Type :=
| CommandOutput (data : string)
| MirrorValue (result : CloneManager.MirrorResult)
| InheritedValue (text : string).

Inductive ToolFailure : Type :=
| CommandFailure (message : string)
| MirrorFailure (e : MirrorError)
| InheritedFailure (text : string).

(** The content of an [OBSERVE] message. *)
Inductive Observation : Type :=
| ToolUnavailable (name : string)
| ToolReturned (v : ToolValue)
| ToolFailed (f : ToolFailure).

(** The content of a message; [ReplyText None] is the [undefined] that
    [JSON.stringify(undefined)] gives. *)
Inductive Content : Type :=
| SystemPrompt
| UserQuery (websiteUrl : string)
| ReplyText (json : option string)
| Observe (o : Observation).

Record Message : Type := mkMessage {
  role : Role;
  content : Content
}.

(** A tool call: it settles with an observation, or the promise it
    awaits never settles. *)
Inductive Called : Type :=
| Settled (o : Observation) (D : CloneManager.Disk)
| Unsettled (D : CloneManager.Disk).

(** How one turn of the [while (true)] loop ends: with [continue] (or by
    reaching the end of the body), with [break], or with an exception
    that nothing catches; or it does not end, the turn waiting for a
    tool call that never settles. *)
Inductive Turn : Type :=
| Continue (h : list Message) (D : CloneManager.Disk)
| Done (h : list Message) (D : CloneManager.Disk)
| Crashed (h : list Message) (D : CloneManager.Disk)
| Pending (h : list Message) (D : CloneManager.Disk).

Definition turnHistory (t : Turn) : list Message :=
  match t with Continue h _ | Done h _ | Crashed h _ | Pending h _ => h end.

Definition turnDisk (t : Turn) : CloneManager.Disk :=
  match t with Continue _ D | Done _ D | Crashed _ D | Pending _ D => D end.

Definition initialHistory (websiteUrl : string) : list Message :=
  [mkMessage RoleSystem SystemPrompt; mkMessage RoleUser (UserQuery websiteUrl)].

(** A conversation after the two opening messages: replies of the
    assistant, each followed by at most one observation. *)
Inductive exchanges : list Message -> Prop :=
| exchanges_nil : exchanges []
| exchanges_reply (j : option string) (rest : list Message) :
    exchanges rest -> exchanges (mkMessage RoleAssistant (ReplyText j) :: rest)
| exchanges_observed (j : option string) (o : Observation) (rest : list Message) :
    exchanges rest ->
    exchanges (mkMessage RoleAssistant (ReplyText j)
               :: mkMessage RoleDeveloper (Observe o) :: rest).

End Agent.

(* ================================================================== *)
(** ** A small platform to run the model on

    Stand-ins for the platform parameters, enough to evaluate the model
    on concrete sites: a parser for hierarchical URLs without
    credentials, percent-decoding of ASCII, and documents given by a
    table from markup to elements. *)

Module Demo.

(** [s] cut before the first [c]. *)
Fixpoint cut (c : ascii) (s : string) : string * string :=
  match s with
  | EmptyString => (EmptyString, EmptyString)
  | String a s' =>
      if Ascii.eqb a c then (EmptyString, s)
      else let '(x, y) := cut c s' in (String a x, y)
  end.

(** Dot segments removed; a trailing slash is kept. *)
Definition cleanPath (p : string) : string :=
  let body := JS.join "/" (Path.normalizeSegs false [] (JS.splitChar "/" p)) in
  match body with
  | EmptyString => "/"
  | _ => "/" ++ body ++ (if JS.endsWith p "/" then "/" else "")
  end.

(** [scheme://host/path?query#fragment] *)
Definition parseAbsolute (s : string) : option URL :=
  match JS.split "://" s with
  | scheme :: _ :: _ =>
      let rest := JS.drop (String.length scheme + 3) s in
      let '(beforeHash, fragment) := cut "#" rest in
      let '(beforeQuery, query) := cut "?" beforeHash in
      let '(host, path) := cut "/" beforeQuery in
      if JS.truthy scheme && JS.truthy host
         && (negb (JS.includes host "[") || JS.endsWith host "]") then
        Some (mkURL (scheme ++ ":") (scheme ++ "://" ++ host)
                    (scheme ++ "://" ++ host) (cleanPath path) query fragment)
      else None
  | _ => None
  end.

(** The directory part of a path, with its final slash. *)
Fixpoint dirOf (p : string) : string :=
  match p with
  | EmptyString => EmptyString
  | String c p' =>
      if JS.includes p' "/" || Ascii.eqb c "/" then String c (dirOf p')
      else EmptyString
  end.

Definition relativeTo (b : URL) (input : string) : URL :=
  let '(beforeHash, fragment) := cut "#" input in
  let '(path, query) := cut "?" beforeHash in
  match path with
  | EmptyString =>
      mkURL (protocol b) (origin b) (site b) (pathname b)
            (match query with EmptyString => search b | _ => query end) fragment
  | String "/" _ =>
      mkURL (protocol b) (origin b) (site b) (cleanPath path) query fragment
  | _ =>
      mkURL (protocol b) (origin b) (site b)
            (cleanPath (dirOf (pathname b) ++ path)) query fragment
  end.

Definition URL_new (input : string) (base : option string) : option URL :=
  if JS.includes input "://" && negb (JS.startsWith input "/") then parseAbsolute input
  else
    let '(scheme, rest) := cut ":" input in
    if JS.truthy rest && negb (JS.includes scheme "/") && JS.truthy scheme then
      Some (mkURL (scheme ++ ":") "null" (scheme ++ ":") (JS.drop 1 rest) "" "")
    else
      match base with
      | Some b =>
          match parseAbsolute b with
          | Some bu => Some (relativeTo bu input)
          | None => None
          end
      | None => None
      end.

Definition hexValue (c : ascii) : option nat :=
  match digitValue c with
  | Some d => if (d <? 16)%Z then Some (Z.to_nat d) else None
  | None => None
  end.

(** [%XX] escapes below 128 decoded; a broken escape throws. *)
Fixpoint decodeURIComponent (s : string) : option string :=
  match s with
  | EmptyString => Some EmptyString
  | String "%" (String h (String l rest as tail2) as tail1) =>
      match hexValue h, hexValue l with
      | Some a, Some b =>
          if (a <? 8)%nat then
            match decodeURIComponent rest with
            | Some r => Some (String (ascii_of_nat (16 * a + b)) r)
            | None => None
            end
          else None
      | _, _ => None
      end
  | String "%" _ => None
  | String c rest =>
      match decodeURIComponent rest with
      | Some r => Some (String c r)
      | None => None
      end
  end.

(** Markup of the example pages and the elements it parses to. *)
Definition el (t : string) (a : list (string * string)) : Element := mkElement t a.

Definition homeHtml : string :=
  "<a href='/about/'>About</a><img src='https://cdn.test/logo.png'>".
Definition homeDoc : Document :=
  [el "a" [("href", "/about/")]; el "img" [("src", "https://cdn.test/logo.png")]].

Definition aboutHtml : string := "<a href='/'>Home</a><a href='/about/#team'>Team</a>".
Definition aboutDoc : Document :=
  [el "a" [("href", "/")]; el "a" [("href", "/about/#team")]].

Definition selfHtml : string := "<a href=''>here</a>".
Definition selfDoc : Document := [el "a" [("href", "")]].

Definition privateHtml : string := "<a href='/private/x'>x</a><a href='/open'>o</a>".
Definition privateDoc : Document :=
  [el "a" [("href", "/private/x")]; el "a" [("href", "/open")]].

Definition badImgHtml : string := "<img src='http://['>".
Definition badImgDoc : Document := [el "img" [("src", "http://[")]].

Definition linksHtml : string := "<a href='/data.json'>data</a><a href='/gone/'>gone</a>".
Definition linksDoc : Document :=
  [el "a" [("href", "/data.json")]; el "a" [("href", "/gone/")]].

Definition twinsHtml : string :=
  "<img src='https://cdn.test/a.png?v=3450'><img src='https://cdn.test/a.png?v=3458'>".
Definition twinsDoc : Document :=
  [el "img" [("src", "https://cdn.test/a.png?v=3450")];
   el "img" [("src", "https://cdn.test/a.png?v=3458")]].

Definition table : list (string * Document) :=
  [(homeHtml, homeDoc); (aboutHtml, aboutDoc); (selfHtml, selfDoc);
   (privateHtml, privateDoc); (badImgHtml, badImgDoc); (linksHtml, linksDoc);
   (twinsHtml, twinsDoc)].

Fixpoint lookup {A} (k : string) (l : list (string * A)) : option A :=
  match l with
  | [] => None
  | (k', v) :: rest => if String.eqb k k' then Some v else lookup k rest
  end.

Definition cheerio_load (html : string) : Document :=
  match lookup html table with
  | Some d => d
  | None => []
  end.

Definition showElement (e : Element) : string :=
  "<" ++ tag e
  ++ JS.join "" (map (fun kv => " " ++ fst kv ++ "='" ++ snd kv ++ "'") (attrs e))
  ++ ">".

Definition cheerio_html (d : Document) : string := JS.join "" (map showElement d).

(** A network given by a table of responses; anything else is refused. *)
Definition htmlPage (b : string) : FetchResult :=
  Responded (mkResponse 200 (Some "text/html; charset=utf-8") (Some b)).

Definition netOf (t : list (string * FetchResult)) (url : string) : FetchResult :=
  match lookup url t with
  | Some r => r
  | None => Rejected
  end.

Definition worldOf (t : list (string * FetchResult)) : World :=
  mkWorld (netOf t) (fun _ => true) (fun _ => true) "/work" (fun _ => []) true.

(** The site of the specification's scenario: a start page that links to
    [/about/] and shows an image from another origin. *)
Definition exampleSite : list (string * FetchResult) :=
  [("https://example.test/", htmlPage homeHtml);
   ("https://example.test/about/", htmlPage aboutHtml);
   ("https://cdn.test/logo.png",
    Responded (mkResponse 200 (Some "image/png") (Some "PNG")))].

(** The same site with the image missing. *)
Definition siteMissingImage : list (string * FetchResult) :=
  [("https://example.test/", htmlPage homeHtml);
   ("https://example.test/about/", htmlPage aboutHtml);
   ("https://cdn.test/logo.png",
    Responded (mkResponse 404 (Some "text/plain") (Some "not found")))].

(** Two images whose URLs share the first six digits of their digest and
    their base name; the first is missing. *)
Definition siteWithTwins : list (string * FetchResult) :=
  [("https://example.test/", htmlPage twinsHtml);
   ("https://cdn.test/a.png?v=3450",
    Responded (mkResponse 404 (Some "text/plain") (Some "not found")));
   ("https://cdn.test/a.png?v=3458",
    Responded (mkResponse 200 (Some "image/png") (Some "PNG")))].

(** A start page that links to a JSON document and to a page that does
    not answer. *)
Definition siteWithDeadLinks : list (string * FetchResult) :=
  [("https://example.test/", htmlPage linksHtml);
   ("https://example.test/data.json",
    Responded (mkResponse 200 (Some "application/json") (Some "{}")))].

Definition newline : string := String "010"%char EmptyString.

Definition robotsTxt : string :=
  "User-agent: *" ++ newline ++ "Disallow: /private" ++ newline
  ++ "Crawl-delay: 0" ++ newline.

(** A site whose robots policy excludes [/private]. *)
Definition siteWithRobots : list (string * FetchResult) :=
  [("https://example.test/robots.txt",
    Responded (mkResponse 200 (Some "text/plain") (Some robotsTxt)));
   ("https://example.test/", htmlPage privateHtml);
   ("https://example.test/private/x", htmlPage aboutHtml);
   ("https://example.test/open", htmlPage aboutHtml)].

(** A start page whose body cannot be read, and one with an image whose
    address is not a URL. *)
Definition siteUnreadable : list (string * FetchResult) :=
  [("https://example.test/",
    Responded (mkResponse 200 (Some "text/html") None))].

Definition siteBadImage : list (string * FetchResult) :=
  [("https://example.test/", htmlPage badImgHtml)].


(** A file system that refuses every file. *)
Definition readOnlyWorld (t : list (string * FetchResult)) : World :=
  mkWorld (netOf t) (fun _ => true) (fun _ => false) "/work" (fun _ => []) true.

(** The same network on a machine whose output directory holds a file
    of an earlier run. *)
Definition usedWorld (t : list (string * FetchResult)) : World :=
  mkWorld (netOf t) (fun _ => true) (fun _ => true) "/work"
          (fun dir => [(dir ++ "/old/index.html", "<p>old</p>")]) true.

(** [url.hostname] for the URLs of [parseAbsolute]: what follows the
    scheme and [//] in [site]. *)
Definition hostname (u : URL) : string :=
  JS.drop (String.length (protocol u) + 2) (site u).

(** A lazily loaded image: a placeholder in [src], the address in
    [data-src]. *)
Definition lazyImage : Element :=
  el "img" [("src", "data:image/gif;base64,R0lGOD");
            ("data-src", "/img/photo.png"); ("loading", "lazy"); ("alt", "A photo")].

(** A document with one element of each kind the rewriter looks at, and
    one it does not. *)
Definition mixedDoc : Document :=
  [el "p" [("class", "intro")]; lazyImage;
   el "link" [("rel", "stylesheet"); ("href", "/site.css")];
   el "script" [("src", "/app.js"); ("defer", "")];
   el "a" [("href", "/about"); ("title", "About")]].

(** Disks.  One that holds nothing and accepts every write; one with a
    directory that only holds an [index.html]; one with three clones, of
    which the second has metadata that cannot be read, next to a plain
    file; and the same where [stat] rejects the plain file. *)
Definition emptyDisk : CloneManager.Disk :=
  CloneManager.mkDisk (fun _ => false) (fun _ => None) (fun _ => None)
                      (fun _ => None) (fun _ => true) (fun _ => true).

Definition legacyDisk : CloneManager.Disk :=
  CloneManager.mkDisk
    (fun p => String.eqb p "./cloned-websites/example.test"
              || String.eqb p "cloned-websites/example.test/index.html")
    (fun _ => None) (fun _ => None) (fun _ => None) (fun _ => true) (fun _ => true).

Definition firstMetadata : CloneManager.Metadata :=
  CloneManager.mkMetadata (Some "https://a.test/") (Some "a.test")
    (Some "2025-01-01T00:00:00.000Z") (Some (mkStatistics 3 7 false true)) (Some "1.0").

Definition thirdMetadata : CloneManager.Metadata :=
  CloneManager.mkMetadata (Some "https://c.test/") (Some "c.test")
    (Some "2025-02-02T00:00:00.000Z") None (Some "1.0").

Definition clonesDiskWith (statOfFile : option bool) : CloneManager.Disk :=
  CloneManager.mkDisk
    (fun p => existsb (String.eqb p)
                ["./cloned-websites"; "cloned-websites/a.test";
                 "cloned-websites/a.test/.clone-metadata.json";
                 "cloned-websites/b.test";
                 "cloned-websites/b.test/.clone-metadata.json";
                 "cloned-websites/notes.txt"; "cloned-websites/c.test";
                 "cloned-websites/c.test/.clone-metadata.json";
                 "cloned-websites/d.test"])
    (fun p => if String.eqb p "cloned-websites/a.test/.clone-metadata.json"
              then Some firstMetadata
              else if String.eqb p "cloned-websites/c.test/.clone-metadata.json"
              then Some thirdMetadata
              else None)
    (fun p => if String.eqb p "./cloned-websites"
              then Some ["a.test"; "b.test"; "notes.txt"; "c.test"; "d.test"]
              else None)
    (fun p => if String.eqb p "cloned-websites/notes.txt" then statOfFile
              else Some true)
    (fun _ => true) (fun _ => true).

Definition clonesDisk : CloneManager.Disk := clonesDiskWith (Some false).
Definition brokenDisk : CloneManager.Disk := clonesDiskWith None.

(** A model that answers from a script, one reply per turn: a start, a
    thought wrapped in prose, a call of the mirror tool, a call of a
    tool that does not exist, and the output. *)
Definition replyTexts : list string :=
  ["{'step':'START'}";
   "Let me think." ++ newline ++ "  {'step':'THINK'}  ";
   "{'step':'TOOL','tool_name':'getMirrorWebsite','input':'https://example.test/'}";
   "{'step':'TOOL','tool_name':'format'}";
   "{'step':'OUTPUT'}"].

Definition isAssistant (m : Agent.Message) : bool :=
  match Agent.role m with Agent.RoleAssistant => true | _ => false end.

Definition llm (h : list Agent.Message) : option string :=
  nth_error replyTexts (List.length (filter isAssistant h)).

Definition JSON_parse (text : string) : option Agent.Parsed :=
  lookup text
    [("{'step':'START'}",
      Agent.ParsedValue (Agent.mkReply (Some "START") "undefined" Agent.ArgUndefined
                                       "{'step':'START'}"));
     ("{'step':'THINK'}",
      Agent.ParsedValue (Agent.mkReply (Some "THINK") "undefined" Agent.ArgUndefined
                                       "{'step':'THINK'}"));
     ("{'step':'TOOL','tool_name':'getMirrorWebsite','input':'https://example.test/'}",
      Agent.ParsedValue
        (Agent.mkReply (Some "TOOL") "getMirrorWebsite"
                       (Agent.ArgString "https://example.test/") "{'step':'TOOL'}"));
     ("{'step':'TOOL','tool_name':'format'}",
      Agent.ParsedValue (Agent.mkReply (Some "TOOL") "format" Agent.ArgUndefined
                                       "{'step':'TOOL'}"));
     ("{'step':'OUTPUT'}",
      Agent.ParsedValue (Agent.mkReply (Some "OUTPUT") "undefined" Agent.ArgUndefined
                                       "{'step':'OUTPUT'}"))].

(** A machine without a shell, one whose commands never exit, and the
    one inherited property that matters here. *)
Definition exec (D : CloneManager.Disk) (cmd : Agent.Arg)
  : option (string + string) * CloneManager.Disk :=
  (Some (inr "spawn /bin/sh ENOENT"), D).

Definition execForever (D : CloneManager.Disk) (cmd : Agent.Arg)
  : option (string + string) * CloneManager.Disk :=
  (None, D).

Definition inherited (name : string) : option (Agent.Arg -> string + string) :=
  if String.eqb name "toString" then Some (fun _ => inl "[object Object]") else None.

End Demo.

(* ================================================================== *)
(** ** The cloner *)

Section Cloner.

(** [new URL(input, base)]; [None] when the constructor throws. *)
Variable URL_new : string -> option string -> option URL.
(** [decodeURIComponent(s)]; [None] when it throws. *)
Variable decodeURIComponent : string -> option string.
(** [cheerio.load(html)] and [$.html()]. *)
Variable cheerio_load : string -> Document.
Variable cheerio_html : Document -> string.

Variable W : World.

Definition newURL (input : string) (base : option string) : M URL :=
  orThrow (URL_new input base) (InvalidURL input).

(** [await fetch(url)] *)
Definition doFetch (url : string) : M Response :=
  match fetch W url with
  | Rejected => throw (FetchFailed url)
  | Responded r => ret r
  end.

(** [await response.text()], [await response.arrayBuffer()] *)
Definition readBody (url : string) (r : Response) : M string :=
  orThrow (body r) (BodyFailed url).

(** [await fs.ensureDir(path.dirname(p)); await fs.writeFile(p, data)] *)
Definition writeFile (p data : string) : M unit :=
  if canWriteFile W p then putFile p data else throw (FsFailed p).

(** [await fs.emptyDir(dir)] *)
Definition emptyDir (dir : string) : M unit :=
  if canEmptyDir W dir then clearFiles else throw (FsFailed dir).

(** *** Robots policy *)

Definition parseRobots (baseUrl : URL) : M RobotsRules :=
  tryCatch
    (robotsUrl <- newURL "/robots.txt" (Some (href baseUrl)) ;;
     response <- doFetch (href robotsUrl) ;;
     if negb (ok response) then ret emptyRules
     else
       robotsText <- readBody (href robotsUrl) response ;;
       ret (parseRobotsForUserAgent robotsText USER_AGENT_NAME))
    (fun _ => ret emptyRules).

(** [isUrlAllowed(url, disallowedPaths)]; [None] when [new URL(url)]
    throws. *)
Definition isUrlAllowed (url : string) (disallowed : list string) : option bool :=
  match URL_new url None with
  | Some u => Some (negb (existsb (patternCovers (pathname u)) disallowed))
  | None => None
  end.

Definition checkUrlAllowed (url : string) (disallowed : list string) : M bool :=
  orThrow (isUrlAllowed url disallowed) (InvalidURL url).

(** *** The closures of [cloneWebsite] *)

Section Run.

Variable opts : Options.
Variable rootOrigin : string.
Variable outputDir : string.
Variable robotsRules : RobotsRules.

Definition localizeAssetPath (url : URL) : string :=
  let urlPath := JS.join "_" (filter JS.truthy (JS.splitChar "/" (pathname url))) in
  let base := Path.basename (if JS.truthy urlPath then urlPath else "asset") in
  let hash := JS.take 6 (MD5.hex (href url)) in
  "assets/" ++ hash ++ "-" ++ base.

Definition mapTargetUrlToFilePath (url : URL) : string :=
  let pathname0 := pathname url in
  let pathname1 :=
    if JS.endsWith pathname0 "/" then pathname0 ++ "index.html"
    else if negb (JS.truthy (Path.extname pathname0)) then pathname0 ++ "/index.html"
    else pathname0 in
  Path.join outputDir (stripLeadingSlashes pathname1).

(** *** Document rewriter *)

(** The body of [["src", "data-src"].forEach] for one attribute. *)
Definition imgAttrRule (currentUrl attrName : string) (e : Element) : M Element :=
  match attr attrName e with
  | None => ret e
  | Some value =>
      if negb (JS.truthy value) then ret e
      else if JS.includes value "/_next/image" && JS.includes value "url=" then
        tryCatch
          (let encoded :=
             nth 0 (JS.splitChar "&" (nth 1 (JS.split "url=" value) "")) "" in
           decodeURL <- orThrow (decodeURIComponent encoded) (MalformedURI encoded) ;;
           absoluteUrl <- newURL decodeURL (Some currentUrl) ;;
           addAsset (href absoluteUrl) ;;
           ret (setAttr "src" (localizeAssetPath absoluteUrl) e))
          (fun _ => logLine (NextImageFailed value) ;; ret e)
      else if negb (JS.startsWith value "data:") then
        absoluteUrl <- newURL value (Some currentUrl) ;;
        addAsset (href absoluteUrl) ;;
        ret (setAttr "src" (localizeAssetPath absoluteUrl) e)
      else ret e
  end.

(** The callback of [srcset.split(",").map]. *)
Definition srcsetEntry (currentUrl entry : string) : M string :=
  let pieces := JS.splitSpaces (JS.trim entry) in
  let url := nth 0 pieces "" in
  let descriptor := nth_error pieces 1 in
  if negb (JS.truthy url) then ret entry
  else
    fixedUrl <-
      (if JS.includes url "/_next/image?url=" then
         match nextImageCapture url with
         | Some m => orThrow (decodeURIComponent m) (MalformedURI m)
         | None => ret url
         end
       else ret url) ;;
    absoluteUrl <- newURL fixedUrl (Some currentUrl) ;;
    addAsset (href absoluteUrl) ;;
    ret (localizeAssetPath absoluteUrl
         ++ match descriptor with Some d => " " ++ d | None => "" end).

Definition imgRule (currentUrl : string) (e : Element) : M Element :=
  e1 <- imgAttrRule currentUrl "src" e ;;
  e2 <- imgAttrRule currentUrl "data-src" e1 ;;
  e3 <-
    match attr "srcset" e2 with
    | Some srcset =>
        if JS.truthy srcset then
          parts <- mapM (srcsetEntry currentUrl) (JS.splitChar "," srcset) ;;
          ret (setAttr "srcset" (JS.join ", " parts) e2)
        else ret e2
    | None => ret e2
    end ;;
  ret (removeAttr ["data-src"; "data-nimg"; "decoding"; "loading"] e3).

(** The callback shared by [link[href]] and [script[src]]. *)
Definition resourceRule (currentUrl attrName : string) (e : Element) : M Element :=
  match attr attrName e with
  | None => ret e
  | Some value =>
      if negb (JS.truthy value) || JS.startsWith value "data:" then ret e
      else
        absoluteUrl <- newURL value (Some currentUrl) ;;
        addAsset (href absoluteUrl) ;;
        ret (setAttr attrName (localizeAssetPath absoluteUrl) e)
  end.

(** [prettyPath] of the anchor rule. *)
Definition prettyPath (u : URL) : string :=
  if negb (JS.truthy (Path.extname (pathname u))) && negb (JS.endsWith (pathname u) "/")
  then pathname u ++ "/" else pathname u.

(** [shouldAdd], with the short-circuit evaluation of [&&] and [||]. *)
Definition shouldAdd (target : string) : M bool :=
  s <- get ;;
  if has target (visitedPages s) then ret false
  else if has target (pageQueue s) then ret false
  else if negb (respectRobots opts) then ret true
  else checkUrlAllowed target (disallowedPaths robotsRules).

(** The callback of [$("a[href]").each]. *)
Definition anchorRule (currentUrl : string) (e : Element) : M Element :=
  match attr "href" e with
  | None => ret e
  | Some h =>
      if isSkippableHref h then ret e
      else
        resolved <- newURL h (Some currentUrl) ;;
        if String.eqb (origin resolved) rootOrigin then
          let absoluteUrl := clearHash (clearSearch resolved) in
          let e' := setAttr "href" (prettyPath absoluteUrl) e in
          add <- shouldAdd (href absoluteUrl) ;;
          (if add then pushQueue (href absoluteUrl) else ret tt) ;;
          ret e'
        else ret e
  end.

(** [$(selector).each(rule)]: the rule applied, in document order, to
    the elements with the tag (and the attribute, when one is required). *)
Definition each (tagName : string) (required : option string)
           (rule : Element -> M Element) (doc : Document) : M Document :=
  mapM (fun e =>
          if String.eqb (tag e) tagName
             && match required with
                | Some a => match attr a e with Some _ => true | None => false end
                | None => true
                end
          then rule e else ret e) doc.

Definition rewriteDocument (currentUrl : string) (doc : Document) : M Document :=
  d1 <- each "img" None (imgRule currentUrl) doc ;;
  d2 <- each "link" (Some "href") (resourceRule currentUrl "href") d1 ;;
  d3 <- each "script" (Some "src") (resourceRule currentUrl "src") d2 ;;
  each "a" (Some "href") (anchorRule currentUrl) d3.

(** *** Crawl loop *)

Definition loopCondition (s : CrawlState) : bool :=
  match pageQueue s with [] => false | _ => true end
  && (Z.of_nat (List.length (visitedPages s)) <? maxPages opts)%Z.

(** The part of the loop body after a successful [fetch]. *)
Definition processResponse (currentUrl : string) (response : Response) : M unit :=
  let type := match contentType response with Some t => t | None => "" end in
  if negb (JS.includes type "text/html") then logLine (SkippedNonHtml currentUrl)
  else
    html <- readBody currentUrl response ;;
    doc <- rewriteDocument currentUrl (cheerio_load html) ;;
    pageUrl <- newURL currentUrl None ;;
    let filePath := mapTargetUrlToFilePath pageUrl in
    writeFile filePath (cheerio_html doc) ;;
    logLine (SavedPage filePath).

(** [try { response = await fetch(currentUrl) } catch { continue }] *)
Definition fetchPage (currentUrl : string) : M (option Response) :=
  tryCatch (r <- doFetch currentUrl ;; ret (Some r))
           (fun _ => logLine (PageFetchError currentUrl) ;; ret None).

(** The loop body once [currentUrl] has passed the two [continue] tests.
    The crawl delay is a pause and changes nothing here. *)
Definition visitPage (currentUrl : string) : M unit :=
  addVisited currentUrl ;;
  notePageFetch currentUrl ;;
  fetched <- fetchPage currentUrl ;;
  match fetched with
  | None => ret tt
  | Some response => processResponse currentUrl response
  end.

(** One turn of the [while] loop. *)
Definition crawlIteration : M unit :=
  s <- get ;;
  match pageQueue s with
  | [] => ret tt
  | currentUrl :: rest =>
      setQueue rest ;;
      if has currentUrl (visitedPages s) then ret tt
      else
        blocked <-
          (if respectRobots opts
           then allowed <- checkUrlAllowed currentUrl (disallowedPaths robotsRules) ;;
                ret (negb allowed)
           else ret false) ;;
        if blocked then logLine (SkippedDisallowed currentUrl)
        else visitPage currentUrl
  end.

(** The [while] loop; [None] when [fuel] turns do not reach its end. *)
Fixpoint crawlLoop (fuel : nat) (s : CrawlState)
  : option (Completion unit * CrawlState) :=
  match fuel with
  | O => None
  | S k =>
      if loopCondition s then
        match crawlIteration s with
        | (Normal _, s') => crawlLoop k s'
        | (Throw e, s') => Some (Throw e, s')
        end
      else Some (Normal tt, s)
  end.

(** *** Asset fetcher *)

(** The task [limit(async () => ...)] of one asset. *)
Definition downloadAsset (assetUrl : string) : M unit :=
  tryCatch
    (url <- newURL assetUrl None ;;
     if negb (String.eqb (protocol url) "http:")
        && negb (String.eqb (protocol url) "https:") then ret tt
     else if negb (String.eqb (origin url) rootOrigin)
             && negb (mirrorExternalAssets opts) then ret tt
     else
       response <- doFetch assetUrl ;;
       (if negb (ok response) then throw (HttpStatus (status response)) else ret tt) ;;
       buffer <- readBody assetUrl response ;;
       let localPath := localizeAssetPath url in
       let filePath := Path.join outputDir localPath in
       writeFile filePath buffer ;;
       logLine (DownloadedAsset localPath))
    (fun _ => logLine (AssetFailed assetUrl)).

(** [Promise.all([...assetSet].map(...))]: the tasks share nothing but
    the output tree, and are run here in the order of the set. *)
Definition downloadAssets : M unit :=
  s <- get ;;
  forEachM downloadAsset (assetSet s).

Definition buildResult (s : CrawlState) : CloneResult :=
  mkCloneResult true "✅ Website cloned successfully" outputDir
    (mkStatistics
       (List.length (visitedPages s))
       (List.length (assetSet s))
       (Z.of_nat (List.length (visitedPages s)) >=? maxPages opts)%Z
       (respectRobots opts)).

End Run.

(** *** The entry point *)

Definition initialState (rootHref : string) : CrawlState :=
  mkCrawlState [] [rootHref] [] [] [] [] [([], [rootHref])] [].

Definition emptyState : CrawlState := mkCrawlState [] [] [] [] [] [] [] [].

(** A state on top of the files that the output directory holds when
    the run starts. *)
Definition onPriorFiles (outputDir : string) (s : CrawlState) : CrawlState :=
  mkCrawlState (visitedPages s) (pageQueue s) (assetSet s) (priorFiles W outputDir)
    (pageFetches s) (pushes s) (snapshots s) (console s).

(** Turns of the loop granted to a run: the page budget, one turn for a
    start page that robots excludes, and the final test. *)
Definition crawlFuel (opts : Options) : nat := Z.to_nat (maxPages opts) + 2.

(** [cloneWebsite(targetUrl, options)]: the completion and the final
    state.  [None] would mean that the loop outlives [crawlFuel].
    [pLimit] refuses a concurrency below 1; the queue and the sets, which
    the code creates after the robots policy is resolved, are in the
    state from the start.  The output tree starts as the files that the
    output directory holds; [emptyDir] is the first thing to touch it. *)
Definition cloneWebsite (targetUrl : string) (opts : Options)
  : option (Completion CloneResult * CrawlState) :=
  let outputDir := Path.join (cwd W) (outDir opts) in
  match URL_new targetUrl None with
  | None => Some (Throw (InvalidURL targetUrl), onPriorFiles outputDir emptyState)
  | Some root =>
      let rootOrigin := origin root in
      if (concurrency opts <? 1)%Z then
        Some (Throw (InvalidConcurrency (concurrency opts)),
              onPriorFiles outputDir (initialState (href root)))
      else
      match (if respectRobots opts then parseRobots root else ret emptyRules)
              (onPriorFiles outputDir (initialState (href root))) with
      | (Throw e, s1) => Some (Throw e, s1)
      | (Normal robotsRules, s1) =>
          match emptyDir outputDir s1 with
          | (Throw e, s2) => Some (Throw e, s2)
          | (Normal _, s2) =>
              match crawlLoop opts rootOrigin outputDir robotsRules
                      (crawlFuel opts) s2 with
              | None => None
              | Some (Throw e, s3) => Some (Throw e, s3)
              | Some (Normal _, s3) =>
                  match downloadAssets opts rootOrigin outputDir s3 with
                  | (Throw e, s4) => Some (Throw e, s4)
                  | (Normal _, s4) =>
                      Some (Normal (buildResult opts outputDir s4), s4)
                  end
              end
          end
      end
  end.

(** *** The mirror tool *)

Section Mirror.

(** [url.hostname] *)
Variable hostname : URL -> string.
(** [new Date().toISOString()] at the end of the clone. *)
Variable now : string.
(** The disk as a clone that ended in a given state leaves it. *)
Variable diskAfterClone : CrawlState -> CloneManager.Disk.

(** [getMirrorWebsite(targetUrl)] on the disk [D]: what it returns or
    throws, and the disk afterwards.  [None] as for [cloneWebsite]. *)
Definition getMirrorWebsite (D : CloneManager.Disk) (targetUrl : string)
  : option ((MirrorError + CloneManager.MirrorResult) * CloneManager.Disk) :=
  match URL_new targetUrl None with
  | None => Some (inl InvalidUrlProvided, D)
  | Some validatedUrl =>
      if negb (String.eqb (protocol validatedUrl) "http:"
               || String.eqb (protocol validatedUrl) "https:")
      then Some (inl InvalidUrlProvided, D)
      else
        let domain := mirrorDomain (hostname validatedUrl) in
        let baseOutDir := mirrorOutDir (hostname validatedUrl) in
        match CloneManager.checkExistingClone D baseOutDir (href validatedUrl) with
        | Some existingClone =>
            Some (inr (CloneManager.mkMirrorResult
                         true "✅ Website already exists locally"
                         (CloneManager.ecPath existingClone)
                         (Some (href validatedUrl))
                         (CloneManager.ecClonedAt existingClone)
                         true None None), D)
        | None =>
            if negb (clonerLoads W) then Some (inl ModuleLoadFailed, D)
            else
            match cloneWebsite (href validatedUrl) (mirrorConfig baseOutDir) with
            | None => None
            | Some (Throw cloneError, s) =>
                Some (inl (CloningFailed cloneError), diskAfterClone s)
            | Some (Normal result, s) =>
                let result' :=
                  CloneManager.mkMirrorResult
                    (success result) (message result) (outputPath result)
                    (Some (href validatedUrl)) (Some now) false (Some domain)
                    (Some (statistics result)) in
                Some (inr result',
                      CloneManager.saveCloneMetadata (diskAfterClone s) baseOutDir result')
            end
        end
  end.

End Mirror.

(** *** The agent loop *)

Section AgentLoop.

Variable hostname : URL -> string.
Variable now : string.
Variable diskAfterClone : CrawlState -> CloneManager.Disk.

(** [client.chat.completions.create(...)] and the text of its first
    choice; [None] when the call rejects or the choice has no text. *)
Variable llm : list Agent.Message -> option string.
(** [JSON.parse(text)]; [None] when it throws. *)
Variable JSON_parse : string -> option Agent.Parsed.
(** [child_process.exec] as [runSystemCommand] wraps it, without a
    timeout: the output, or the message it rejects with, or nothing when
    the command never exits and the callback is never called; and the
    disk as the command leaves it. *)
Variable exec :
  CloneManager.Disk -> Agent.Arg -> option (string + string) * CloneManager.Disk.
(** A property that [AVAILABLE_TOOLS] inherits under a name, called as
    a tool: what it returns or throws. *)
Variable inherited : string -> option (Agent.Arg -> string + string).

Definition isJsonLine (line : string) : bool :=
  JS.startsWith line "{" && JS.endsWith line "}".

(** The two attempts at parsing a response; [None] leaves
    [parsedResponse] undefined. *)
Definition parseResponse (responseText : string) : option Agent.Parsed :=
  match JSON_parse responseText with
  | Some parsed => Some parsed
  | None =>
      match find isJsonLine (map JS.trim (JS.splitChar "010"%char responseText)) with
      | Some jsonLine => JSON_parse jsonLine
      | None => None
      end
  end.

(** [parsedResponse.step === name] *)
Definition stepIs (r : Agent.Reply) (name : string) : bool :=
  match Agent.replyStep r with
  | Some s => String.eqb s name
  | None => false
  end.

(** [cmd = ''] *)
Definition commandOf (input : Agent.Arg) : Agent.Arg :=
  match input with
  | Agent.ArgUndefined => Agent.ArgString ""
  | a => a
  end.

(** The [TOOL] branch inside its [try]: what is pushed as observation,
    and the disk afterwards.  [None] as for [cloneWebsite]. *)
Definition callTool (D : CloneManager.Disk) (r : Agent.Reply) : option Agent.Called :=
  let selectedTool := Agent.replyToolName r in
  if String.eqb selectedTool "runSystemCommand" then
    match exec D (commandOf (Agent.replyInput r)) with
    | (Some (inl data), D') =>
        Some (Agent.Settled (Agent.ToolReturned (Agent.CommandOutput data)) D')
    | (Some (inr message), D') =>
        Some (Agent.Settled (Agent.ToolFailed (Agent.CommandFailure message)) D')
    | (None, D') => Some (Agent.Unsettled D')
    end
  else if String.eqb selectedTool "getMirrorWebsite" then
    match getMirrorWebsite hostname now diskAfterClone D
            (Agent.argText (Agent.replyInput r)) with
    | None => None
    | Some (inr result, D') =>
        Some (Agent.Settled (Agent.ToolReturned (Agent.MirrorValue result)) D')
    | Some (inl e, D') =>
        Some (Agent.Settled (Agent.ToolFailed (Agent.MirrorFailure e)) D')
    end
  else
    match inherited selectedTool with
    | None => Some (Agent.Settled (Agent.ToolUnavailable selectedTool) D)
    | Some tool =>
        match tool (Agent.replyInput r) with
        | inl text =>
            Some (Agent.Settled (Agent.ToolReturned (Agent.InheritedValue text)) D)
        | inr text =>
            Some (Agent.Settled (Agent.ToolFailed (Agent.InheritedFailure text)) D)
        end
    end.

(** One turn of the loop of [startAgent]. *)
Definition agentTurn (h : list Agent.Message) (D : CloneManager.Disk)
  : option Agent.Turn :=
  match llm h with
  | None => Some (Agent.Crashed h D)
  | Some text =>
      let responseText := JS.trim text in
      let parsedResponse := parseResponse responseText in
      let h1 :=
        (h ++ [Agent.mkMessage Agent.RoleAssistant
                 (Agent.ReplyText
                    match parsedResponse with
                    | Some (Agent.ParsedValue r) => Some (Agent.replyJson r)
                    | Some Agent.ParsedNull => Some "null"
                    | None => None
                    end)])%list in
      match parsedResponse with
      | None | Some Agent.ParsedNull => Some (Agent.Crashed h1 D)
      | Some (Agent.ParsedValue r) =>
          if stepIs r "START" then Some (Agent.Continue h1 D)
          else if stepIs r "THINK" then Some (Agent.Continue h1 D)
          else if stepIs r "TOOL" then
            match callTool D r with
            | None => None
            | Some (Agent.Settled o D') =>
                Some (Agent.Continue
                        (h1 ++ [Agent.mkMessage Agent.RoleDeveloper (Agent.Observe o)])
                        D')
            | Some (Agent.Unsettled D') => Some (Agent.Pending h1 D')
            end
          else if stepIs r "OUTPUT" then Some (Agent.Done h1 D)
          else Some (Agent.Continue h1 D)
      end
  end.

(** At most [n] turns of the loop. *)
Fixpoint agentRun (n : nat) (h : list Agent.Message) (D : CloneManager.Disk)
  : option Agent.Turn :=
  match n with
  | O => Some (Agent.Continue h D)
  | S k =>
      match agentTurn h D with
      | Some (Agent.Continue h' D') => agentRun k h' D'
      | other => other
      end
  end.

End AgentLoop.

(* ================================================================== *)
(** ** Predicates of the specification *)

(** What the specification calls a disallowed path, for one pattern. *)
Definition coveredBy (pathname path : string) : Prop :=
  pathname = path
  \/ (exists r, pathname = (path ++ "/") ++ r)
  \/ (exists q r, path = q ++ "*" /\ pathname = q ++ r).

(** Every character of [s] passes [test]. *)
Fixpoint allChars (test : ascii -> bool) (s : string) : bool :=
  match s with
  | EmptyString => true
  | String c s' => test c && allChars test s'
  end.

Definition isHexDigit (c : ascii) : bool :=
  existsb (Ascii.eqb c) (list_ascii_of_string "0123456789abcdef").

(** The flattened base name of the specification: the non-empty segments
    of the path joined by underscores, or [asset] when there is none. *)
Definition flatName (path : string) : string :=
  match filter JS.truthy (JS.splitChar "/" path) with
  | [] => "asset"
  | segs => JS.join "_" segs
  end.

(** The text after the last slash of a path. *)
Definition finalSegment (p : string) : string := last (JS.splitChar "/" p) "".

(** A segment has an extension when a dot follows its first character,
    the segment [..] apart. *)
Definition hasExtension (seg : string) : bool :=
  match seg with
  | EmptyString => false
  | String _ rest => JS.includes rest "." && negb (String.eqb seg "..")
  end.


(** A path component that names an entry: not empty, not [.] or [..]. *)
Definition ordinaryName (x : string) : bool :=
  negb (String.eqb x "" || String.eqb x ".") && negb (String.eqb x "..").

(** The path with the given components. *)
Definition pathOf (absolute : bool) (names : list string) : string :=
  (if absolute then "/" else "") ++ JS.join "/" names.



(** A fetch that did not deliver: rejected (network failure, timeout) or
    answered with a status outside 200-299. *)
Definition fetchFailed (r : FetchResult) : Prop :=
  match r with
  | Rejected => True
  | Responded resp => ok resp = false
  end.

(** The policy [parseRobots] resolves for a start URL. *)
Definition robotsPolicy (root : URL) : RobotsRules :=
  match URL_new "/robots.txt" (Some (href root)) with
  | None => emptyRules
  | Some robotsUrl =>
      match fetch W (href robotsUrl) with
      | Rejected => emptyRules
      | Responded r =>
          if ok r then
            match body r with
            | Some robotsText => parseRobotsForUserAgent robotsText USER_AGENT_NAME
            | None => emptyRules
            end
          else emptyRules
      end
  end.

(** The policy in force during a run. *)
Definition policyInForce (opts : Options) (root : URL) : RobotsRules :=
  if respectRobots opts then robotsPolicy root else emptyRules.

(** The directory-style path of the specification: a slash is appended
    when the path has no extension and does not already end in one. *)
Definition directoryStyle (p : string) : string :=
  if JS.endsWith p "/" then p
  else if hasExtension (finalSegment p) then p
  else p ++ "/".

(** The anchor rule as the specification words it, for same-origin
    targets: every [href] that is not fragment-only, [mailto:], [tel:]
    or [javascript:] is rewritten to the directory-style path of its
    target. *)
Definition anchorsRewrittenAsWritten : Prop :=
  forall (opts : Options) (rootOrigin : string) (rules : RobotsRules)
         (currentUrl : string) (e : Element) (h : string) (resolved : URL)
         (s : CrawlState),
    attr "href" e = Some h ->
    (forall p, In p SKIPPABLE_HREF_PREFIXES -> JS.startsWith h p = false) ->
    URL_new h (Some currentUrl) = Some resolved ->
    origin resolved = rootOrigin ->
    (exists u, URL_new (site resolved ++ pathname resolved) None = Some u) ->
    fst (anchorRule opts rootOrigin rules currentUrl e s)
    = Normal (setAttr "href" (directoryStyle (pathname resolved)) e).

(** The enqueuing as the specification words it, the normalized URL
    being the target with the directory-style path that is written to
    the [href]: when that URL is not visited, not queued and not
    robots-disallowed, it is in the queue after the rule. *)
Definition normalizedUrlEnqueuedAsWritten : Prop :=
  forall (opts : Options) (rootOrigin : string) (rules : RobotsRules)
         (currentUrl : string) (e : Element) (h : string) (resolved : URL)
         (s : CrawlState),
    attr "href" e = Some h ->
    h <> "" ->
    (forall p, In p SKIPPABLE_HREF_PREFIXES -> JS.startsWith h p = false) ->
    URL_new h (Some currentUrl) = Some resolved ->
    origin resolved = rootOrigin ->
    has (site resolved ++ directoryStyle (pathname resolved)) (visitedPages s) = false ->
    has (site resolved ++ directoryStyle (pathname resolved)) (pageQueue s) = false ->
    isUrlAllowed (site resolved ++ directoryStyle (pathname resolved))
                 (disallowedPaths rules) = Some true ->
    In (site resolved ++ directoryStyle (pathname resolved))
       (pageQueue (snd (anchorRule opts rootOrigin rules currentUrl e s))).

(** What the task of one asset writes, if anything: the file and its
    content. *)
Definition assetWrite (opts : Options) (rootOrigin outputDir assetUrl : string)
  : option (string * string) :=
  match URL_new assetUrl None with
  | None => None
  | Some url =>
      if negb (String.eqb (protocol url) "http:")
         && negb (String.eqb (protocol url) "https:") then None
      else if negb (String.eqb (origin url) rootOrigin)
              && negb (mirrorExternalAssets opts) then None
      else
        match fetch W assetUrl with
        | Rejected => None
        | Responded r =>
            if ok r then
              match body r with
              | Some buffer =>
                  let filePath := Path.join outputDir (localizeAssetPath url) in
                  if canWriteFile W filePath then Some (filePath, buffer) else None
              | None => None
              end
            else None
        end
  end.

(** The output tree after a write. *)
Definition applyWrite (tree : list (string * string)) (w : option (string * string))
  : list (string * string) :=
  match w with
  | Some (p, c) => (p, c) :: filter (fun f => negb (String.eqb (fst f) p)) tree
  | None => tree
  end.

(** The absence as the specification words it: after a run, no file is
    at the mapped local path of an asset whose fetch was answered with a
    non-success status. *)
Definition failedAssetPathEmptyAsWritten : Prop :=
  forall (targetUrl : string) (opts : Options) (r : CloneResult) (s : CrawlState)
         (a : string) (resp : Response) (u : URL),
    cloneWebsite targetUrl opts = Some (Normal r, s) ->
    In a (assetSet s) ->
    fetch W a = Responded resp -> ok resp = false ->
    URL_new a None = Some u ->
    ~ In (Path.join (outputPath r) (localizeAssetPath u)) (map fst (files s)).

(** The statistic as the specification words it: [assetsDownloaded] is
    the number of assets whose download succeeded. *)
Definition assetsCountedAsWritten : Prop :=
  forall (targetUrl : string) (opts : Options) (r : CloneResult) (s : CrawlState),
    cloneWebsite targetUrl opts = Some (Normal r, s) ->
    assetsDownloaded (statistics r)
    = List.length
        (filter (fun l => match l with DownloadedAsset _ => true | _ => false end)
                (console s)).

(** A value read from a directive line of [robots.txt]: not empty,
    without a colon, and without white space around it. *)
Definition directiveField (p : string) : Prop :=
  p <> ""
  /\ allChars (fun a => negb (Ascii.eqb a ":")) p = true
  /\ JS.trim p = p.

(** The lines of a [robots.txt] as the parser walks them. *)
Definition robotsLines (robotsText : string) : list string :=
  map JS.trim (JS.splitChar "010"%char robotsText).

(** A line that opens a group for the crawler: a [User-agent] line that
    names [*] or the crawler itself. *)
Definition opensGroupFor (userAgent line : string) : bool :=
  JS.startsWith line "User-agent:"
  && (String.eqb (directiveValue line) "*"
      || String.eqb (directiveValue line) userAgent).

(** The attributes the rewriter sets or removes, the elements it looks
    at, and the attributes it removes from an image. *)
Definition REWRITTEN_ATTRS : list string :=
  ["src"; "srcset"; "href"; "data-src"; "data-nimg"; "decoding"; "loading"].

Definition REWRITTEN_TAGS : list string := ["img"; "link"; "script"; "a"].

Definition LAZY_ATTRS : list string := ["data-src"; "data-nimg"; "decoding"; "loading"].

(** An element after a rule: the same tag, and the same value for every
    attribute the rewriter does not deal with. *)
Definition sameElsewhere (e e' : Element) : Prop :=
  tag e' = tag e
  /\ forall a, ~ In a REWRITTEN_ATTRS -> attr a e' = attr a e.

(** The asset set has lost nothing. *)
Definition assetsKept (s s' : CrawlState) : Prop :=
  incl (assetSet s) (assetSet s').

(** [l1] is [l2] with some of its members left out, the order kept. *)
Inductive subseq {A : Type} : list A -> list A -> Prop :=
| subseq_nil : subseq [] []
| subseq_skip (x : A) (l1 l2 : list A) : subseq l1 l2 -> subseq l1 (x :: l2)
| subseq_keep (x : A) (l1 l2 : list A) : subseq l1 l2 -> subseq (x :: l1) (x :: l2).

(** The URLs that entered the queue, in the order in which they did:
    the start URL, then the pushed ones. *)
Definition discovered (r0 : string) (s : CrawlState) : list string :=
  r0 :: rev (pushes s).

(** The queue is the end of the discovery sequence, and the visited
    pages are among what precedes it, in the same order. *)
Definition queueOrder (r0 : string) (s : CrawlState) : Prop :=
  exists done : list string,
    discovered r0 s = (done ++ pageQueue s)%list
    /\ subseq (visitedPages s) done.

(** A link target as the anchor rule enqueues it: what the parser makes
    of a link on a visited page, when its origin is the start origin,
    serialised without query and fragment. *)
Definition linkTarget (rootOrigin : string) (s : CrawlState) (t : string) : Prop :=
  exists (page link : string) (resolved : URL),
    In page (visitedPages s)
    /\ URL_new link (Some page) = Some resolved
    /\ origin resolved = rootOrigin
    /\ t = href (clearHash (clearSearch resolved)).

(** The file of a visited page, and the file of a discovered asset that
    the asset phase does not pass over. *)
Definition pageFileOf (outputDir : string) (s : CrawlState) (p : string) : Prop :=
  exists (u : string) (pu : URL),
    In u (visitedPages s)
    /\ URL_new u None = Some pu
    /\ p = mapTargetUrlToFilePath outputDir pu.

Definition assetFileOf (opts : Options) (rootOrigin outputDir : string)
           (s : CrawlState) (p : string) : Prop :=
  exists (a : string) (ua : URL),
    In a (assetSet s)
    /\ URL_new a None = Some ua
    /\ (protocol ua = "http:" \/ protocol ua = "https:")
    /\ (origin ua = rootOrigin \/ mirrorExternalAssets opts = true)
    /\ p = Path.join outputDir (localizeAssetPath ua).

(** Every file of the output tree is one or the other. *)
Definition treeAccounted (opts : Options) (rootOrigin outputDir : string)
           (s : CrawlState) : Prop :=
  forall p, In p (map fst (files s)) ->
            pageFileOf outputDir s p \/ assetFileOf opts rootOrigin outputDir s p.

(** The response is taken for an HTML page. *)
Definition isHtml (r : Response) : bool :=
  JS.includes (match contentType r with Some t => t | None => "" end) "text/html".

(** The page [v] has its file, if it is an HTML page at all. *)
Definition pageSaved (outputDir : string) (s : CrawlState) (v : string) : Prop :=
  forall r, fetch W v = Responded r -> isHtml r = true ->
    exists pu, URL_new v None = Some pu
               /\ In (mapTargetUrlToFilePath outputDir pu) (map fst (files s)).

Definition pagesSaved (outputDir : string) (s : CrawlState) : Prop :=
  forall v, In v (visitedPages s) -> pageSaved outputDir s v.

(** The same while the page [u] is processed. *)
Definition othersSaved (outputDir u : string) (s : CrawlState) : Prop :=
  forall v, In v (visitedPages s) -> v <> u -> pageSaved outputDir s v.

(** Failures of the machine the cloner runs on and of its input, as
    opposed to failures of the network. *)
Definition localFailure (e : Exn) : bool :=
  match e with
  | FetchFailed _ | HttpStatus _ => false
  | _ => true
  end.

(** A computation that throws nothing but local failures. *)
Definition throwsLocal {A} (m : M A) : Prop :=
  forall s, match fst (m s) with
            | Throw e => localFailure e = true
            | Normal _ => True
            end.





(* ================================================================== *)
(** ** Program logic and invariants *)

(** From a state that satisfies [P], the computation ends in a state
    that satisfies [Q] of its value, or [E] of what it threw. *)
Definition triple {A} (P : CrawlState -> Prop) (m : M A)
           (Q : A -> CrawlState -> Prop) (E : Exn -> CrawlState -> Prop) : Prop :=
  forall s, P s ->
    match m s with
    | (Normal a, s') => Q a s'
    | (Throw e, s') => E e s'
    end.

(** The final state is related to the initial one, however the
    computation ends. *)
Definition stable {A} (R : CrawlState -> CrawlState -> Prop) (m : M A) : Prop :=
  forall s, R s (snd (m s)).

(** Nothing of the crawl proper has changed: the visited set, the queue
    and their history. *)
Definition sameCrawl (s s' : CrawlState) : Prop :=
  visitedPages s' = visitedPages s
  /\ pageQueue s' = pageQueue s
  /\ pushes s' = pushes s
  /\ snapshots s' = snapshots s
  /\ pageFetches s' = pageFetches s.

(** The crawl may have advanced, the asset set is the same. *)
Definition sameAssets (s s' : CrawlState) : Prop := assetSet s' = assetSet s.

(** The visited set and the log of page fetches are the same. *)
Definition sameVisits (s s' : CrawlState) : Prop :=
  visitedPages s' = visitedPages s /\ pageFetches s' = pageFetches s.

(** A URL the crawl may visit under the policy in force. *)
Definition permitted (opts : Options) (rules : RobotsRules) (u : string) : bool :=
  negb (respectRobots opts)
  || match isUrlAllowed u (disallowedPaths rules) with
     | Some allowed => allowed
     | None => false
     end.

(** What the specification asks of the visited set [v] and the queue
    [q] at any moment: the page budget is kept and no URL is in both. *)
Definition snapshotOK (opts : Options) (snap : list string * list string) : Prop :=
  (Z.of_nat (List.length (fst snap)) <= Z.max 0 (maxPages opts))%Z
  /\ NoDup (fst snap)
  /\ (forall u, In u (fst snap) -> ~ In u (snd snap)).

(** The invariant of the crawl; [r0] is the start URL, the URLs that
    entered the queue are [r0] and the pushed ones. *)
Record CrawlInv (opts : Options) (rules : RobotsRules) (r0 : string)
       (s : CrawlState) : Prop := mkCrawlInv {
  inv_queue_nodup : NoDup (pageQueue s);
  inv_entered_nodup : NoDup (pushes s ++ [r0]);
  inv_entered_where :
    forall u, In u (pushes s ++ [r0]) ->
              In u (pageQueue s) \/ In u (visitedPages s)
              \/ permitted opts rules u = false;
  inv_pushes_permitted :
    forall u, In u (pushes s) -> permitted opts rules u = true;
  inv_fetches : visitedPages s = rev (pageFetches s);
  inv_fetches_permitted :
    forall u, In u (pageFetches s) -> permitted opts rules u = true;
  inv_snapshots : Forall (snapshotOK opts) (snapshots s);
  inv_current :
    exists older, snapshots s = (visitedPages s, pageQueue s) :: older
}.

(** The queued URLs that robots excludes. *)
Definition blockedCount (opts : Options) (rules : RobotsRules) (q : list string) : nat :=
  List.length (filter (fun u => negb (permitted opts rules u)) q).

(** Turns the loop can still take: the pages left in the budget and the
    queued URLs that robots excludes. *)
Definition turnsLeft (opts : Options) (rules : RobotsRules) (s : CrawlState) : nat :=
  Z.to_nat (maxPages opts - Z.of_nat (List.length (visitedPages s)))
  + blockedCount opts rules (pageQueue s).

(** The invariant while one page is processed: the visited set is [v]
    and [n] queued URLs are excluded by robots. *)
Definition PhaseInv (opts : Options) (rules : RobotsRules) (r0 : string)
           (v : list string) (n : nat) (s : CrawlState) : Prop :=
  CrawlInv opts rules r0 s
  /\ visitedPages s = v
  /\ blockedCount opts rules (pageQueue s) = n.

(* ================================================================== *)
(** ** Facts about the string primitives *)

#[local] Set Default Proof Using "Type".

Lemma append_nil_r (s : string) : s ++ "" = s.
Proof. induction s as [|c s IH]; simpl; [reflexivity | now rewrite IH]. Qed.

Lemma append_assoc (a b c : string) : (a ++ b) ++ c = a ++ (b ++ c).
Proof. induction a as [|x a IH]; simpl; [reflexivity | now rewrite IH]. Qed.

(** [startsWith] holds exactly when the string is the prefix followed by
    something. *)
Lemma startsWith_iff (s p : string) :
  JS.startsWith s p = true <-> exists r, s = p ++ r.
Proof.
  unfold JS.startsWith. revert s.
  induction p as [|c p IH]; intros s.
  - split; [intros _; now exists s | destruct s; reflexivity].
  - destruct s as [|d s].
    + split; [discriminate | intros [r Hr]; discriminate].
    + cbn [String.prefix]. destruct (Ascii.ascii_dec c d) as [->|Hne].
      * rewrite IH. split; intros [r Hr]; exists r; [now rewrite Hr | now injection Hr].
      * split; [discriminate | intros [r Hr]; injection Hr; intros _ E; congruence].
Qed.

Lemma startsWith_app (p r : string) : JS.startsWith (p ++ r) p = true.
Proof. apply startsWith_iff. now exists r. Qed.

(** [endsWith] holds exactly when the string is something followed by
    the suffix. *)
Lemma endsWith_iff (s p : string) :
  JS.endsWith s p = true <-> exists q, s = q ++ p.
Proof.
  induction s as [|c s IH]; cbn [JS.endsWith].
  - rewrite orb_false_r, String.eqb_eq. split.
    + intros <-. now exists "".
    + intros [q Hq]. destruct q; simpl in Hq; [exact Hq | discriminate].
  - rewrite orb_true_iff, IH, String.eqb_eq. split.
    + intros [<- | [q ->]]; [now exists "" | now exists (String c q)].
    + intros [q Hq]. destruct q as [|d q]; simpl in Hq.
      * left. exact Hq.
      * right. injection Hq as _ Hq. now exists q.
Qed.

Lemma endsWith_app (q p : string) : JS.endsWith (q ++ p) p = true.
Proof. apply endsWith_iff. now exists q. Qed.

Lemma dropLast_snoc (q : string) (c : ascii) :
  JS.dropLast (q ++ String c "") = q.
Proof.
  induction q as [|d q IH]; [reflexivity|].
  simpl. rewrite IH. destruct q; reflexivity.
Qed.

Lemma existsb_has (x : string) (l : list string) : has x l = true <-> In x l.
Proof.
  unfold has. rewrite existsb_exists. split.
  - intros [y [Hy E]]. apply String.eqb_eq in E. now subst.
  - intros H. exists x. split; [exact H | apply String.eqb_refl].
Qed.

Lemma has_false (x : string) (l : list string) : has x l = false <-> ~ In x l.
Proof.
  rewrite <- existsb_has. destruct (has x l); split; congruence.
Qed.

(* ================================================================== *)
(** ** The path-allowed predicate *)

Lemma patternCovers_iff (pathname path : string) :
  patternCovers pathname path = true <-> coveredBy pathname path.
Proof.
  unfold patternCovers, coveredBy.
  destruct (JS.endsWith path "*") eqn:E.
  - apply endsWith_iff in E. destruct E as [q ->].
    rewrite dropLast_snoc, startsWith_iff. split.
    + intros [r ->]. right. right. now exists q, r.
    + intros [-> | [[r ->] | [q' [r [Hq ->]]]]].
      * now exists "*".
      * exists ("*" ++ "/" ++ r). now rewrite !append_assoc.
      * assert (q' = q) as ->.
        { rewrite <- (dropLast_snoc q "*"%char), <- (dropLast_snoc q' "*"%char).
          now rewrite Hq. }
        now exists r.
  - rewrite orb_true_iff, String.eqb_eq, startsWith_iff. split.
    + intros [H | H]; [now left | now right; left].
    + intros [H | [H | [q [r [Hq _]]]]]; [now left | now right |].
      subst path. now rewrite endsWith_app in E.
Qed.

(** C5: the path-allowed predicate.  For a candidate URL that parses,
    [isUrlAllowed] answers [false] (not crawlable) exactly when some
    pattern of the list equals the URL's path, or the path starts with
    the pattern followed by a slash, or the pattern ends in a star and
    the path starts with what precedes the star; it answers [true]
    (crawlable) otherwise. *)
Theorem isUrlAllowed_disallowed_iff :
  forall (url : string) (u : URL) (disallowed : list string),
    URL_new url None = Some u ->
    exists allowed : bool,
      isUrlAllowed url disallowed = Some allowed
      /\ (allowed = false <->
          exists path, In path disallowed /\ coveredBy (pathname u) path).
Proof.
  intros url u disallowed Hu.
  exists (negb (existsb (patternCovers (pathname u)) disallowed)). split.
  - unfold isUrlAllowed. now rewrite Hu.
  - rewrite negb_false_iff, existsb_exists.
    split; intros [path [Hin Hc]]; exists path; split; auto;
      now apply patternCovers_iff.
Qed.

(* ================================================================== *)
(** ** The asset path mapper *)

Lemma allChars_app (test : ascii -> bool) (a b : string) :
  allChars test (a ++ b) = allChars test a && allChars test b.
Proof.
  induction a as [|c a IH]; simpl; [reflexivity|].
  now rewrite IH, andb_assoc.
Qed.

Lemma allChars_take (test : ascii -> bool) (n : nat) (s : string) :
  allChars test s = true -> allChars test (JS.take n s) = true.
Proof.
  revert s. induction n as [|n IH]; intros [|c s]; simpl; auto.
  rewrite !andb_true_iff. intros [Hc Hs]. auto.
Qed.

Lemma length_take (n : nat) (s : string) :
  n <= String.length s -> String.length (JS.take n s) = n.
Proof.
  revert s. induction n as [|n IH]; intros [|c s]; simpl; intros H;
    try reflexivity; try lia.
  rewrite IH; [reflexivity | lia].
Qed.

(** The pieces of a split do not contain the separator. *)
Lemma splitChar_pieces (c : ascii) (s x : string) :
  In x (JS.splitChar c s) -> allChars (fun a => negb (Ascii.eqb a c)) x = true.
Proof.
  revert x. induction s as [|a s IH]; simpl; intros x Hx.
  - destruct Hx as [<- | []]. reflexivity.
  - destruct (Ascii.eqb a c) eqn:E.
    + destruct Hx as [<- | Hx]; [reflexivity | auto].
    + destruct (JS.splitChar c s) as [|p ps] eqn:Es.
      * destruct Hx as [<- | []]. simpl. now rewrite E.
      * destruct Hx as [<- | Hx].
        -- simpl. rewrite E. simpl. apply IH. now left.
        -- apply IH. now right.
Qed.

(** A string without the separator is a single piece. *)
Lemma splitChar_single (c : ascii) (s : string) :
  allChars (fun a => negb (Ascii.eqb a c)) s = true -> JS.splitChar c s = [s].
Proof.
  induction s as [|a s IH]; simpl; [reflexivity|].
  rewrite andb_true_iff, negb_true_iff. intros [E Hs].
  now rewrite E, (IH Hs).
Qed.

Lemma allChars_join (test : ascii -> bool) (sep : string) (xs : list string) :
  allChars test sep = true ->
  (forall x, In x xs -> allChars test x = true) ->
  allChars test (JS.join sep xs) = true.
Proof.
  intros Hsep. induction xs as [|x xs IH]; intros Hall; [reflexivity|].
  destruct xs as [|y ys].
  - apply Hall. now left.
  - change (JS.join sep (x :: y :: ys)) with (x ++ sep ++ JS.join sep (y :: ys)).
    rewrite !allChars_app, Hsep, (Hall x (or_introl eq_refl)). simpl.
    apply IH. intros z Hz. apply Hall. now right.
Qed.

(** Joining non-empty strings gives the empty string only for no string
    at all. *)
Lemma join_truthy (sep : string) (xs : list string) :
  (forall x, In x xs -> JS.truthy x = true) ->
  xs <> [] -> JS.truthy (JS.join sep xs) = true.
Proof.
  intros Hall Hne. destruct xs as [|x xs]; [congruence|].
  assert (Hx : JS.truthy x = true) by (apply Hall; now left).
  destruct x as [|c x]; [discriminate|].
  destruct xs; reflexivity.
Qed.

(** [basename] is the identity on a non-empty name without a slash. *)
Lemma basename_plain (x : string) :
  JS.truthy x = true ->
  allChars (fun a => negb (Ascii.eqb a "/")) x = true ->
  Path.basename x = x.
Proof.
  intros Hx Hs. unfold Path.basename, Path.components.
  rewrite (splitChar_single _ _ Hs). simpl. now rewrite Hx.
Qed.

Lemma length_hexOfBytes (l : list Z) :
  String.length (MD5.hexOfBytes l) = 2 * List.length l.
Proof. induction l as [|b l IH]; simpl; [reflexivity | rewrite IH; lia]. Qed.

Lemma length_bytesLE (n : nat) (x : Z) : List.length (MD5.bytesLE n x) = n.
Proof. revert x. induction n as [|n IH]; intros x; simpl; [reflexivity | now rewrite IH]. Qed.

(** The digest has 16 bytes, whatever the message. *)
Lemma length_digest (s : string) : List.length (MD5.digest s) = 16.
Proof.
  unfold MD5.digest. rewrite !length_app, !length_bytesLE. reflexivity.
Qed.

Lemma hexDigit_isHex (n : Z) : isHexDigit (MD5.hexDigit n) = true.
Proof.
  unfold MD5.hexDigit.
  assert (H : (Z.to_nat (n mod 16) < 16)%nat).
  { pose proof (Z.mod_pos_bound n 16 ltac:(lia)). lia. }
  revert H. generalize (Z.to_nat (n mod 16)). intros k H.
  do 16 (destruct k as [|k]; [reflexivity|]).
  lia.
Qed.

Lemma hexOfBytes_isHex (l : list Z) : allChars isHexDigit (MD5.hexOfBytes l) = true.
Proof.
  induction l as [|b l IH]; [reflexivity|].
  cbn [MD5.hexOfBytes allChars]. now rewrite !hexDigit_isHex, IH.
Qed.

(** The hexadecimal digest: 32 characters among [0-9a-f]. *)
Lemma md5_hex_shape (s : string) :
  String.length (MD5.hex s) = 32 /\ allChars isHexDigit (MD5.hex s) = true.
Proof.
  unfold MD5.hex. split.
  - now rewrite length_hexOfBytes, length_digest.
  - apply hexOfBytes_isHex.
Qed.

(** C7: the asset path mapper.  The local path of an asset is
    [assets/<hash>-<basename>] where the hash is the first six
    characters, all hexadecimal digits, of the MD5 digest of the full URL
    and the basename is the URL's non-empty path segments joined by
    underscores, or [asset] when the path has none; the path depends on
    nothing but the URL (its serialisation and its path), so equal URLs
    get identical local paths. *)
Theorem localizeAssetPath_shape :
  forall u : URL,
    let h := JS.take 6 (MD5.hex (href u)) in
    localizeAssetPath u = "assets/" ++ h ++ "-" ++ flatName (pathname u)
    /\ String.length h = 6
    /\ allChars isHexDigit h = true
    /\ (forall u' : URL,
          href u' = href u -> pathname u' = pathname u ->
          localizeAssetPath u' = localizeAssetPath u).
Proof.
  intros u h. destruct (md5_hex_shape (href u)) as [Hlen Hhex].
  split; [|split; [|split]].
  - unfold localizeAssetPath, flatName. fold h. do 3 f_equal.
    set (segs := filter JS.truthy (JS.splitChar "/" (pathname u))).
    assert (Htruthy : forall x, In x segs -> JS.truthy x = true).
    { intros x Hx. apply filter_In in Hx. apply Hx. }
    assert (Hslash : forall x, In x segs ->
                allChars (fun a => negb (Ascii.eqb a "/")) x = true).
    { intros x Hx. apply filter_In in Hx. apply (splitChar_pieces _ (pathname u)).
      apply Hx. }
    destruct segs as [|x xs] eqn:E; [reflexivity|].
    rewrite <- E in *.
    assert (Hj : JS.truthy (JS.join "_" segs) = true).
    { apply join_truthy; [exact Htruthy | rewrite E; discriminate]. }
    rewrite Hj. apply basename_plain; [exact Hj|].
    apply allChars_join; [reflexivity | exact Hslash].
  - unfold h. apply length_take. lia.
  - unfold h. now apply allChars_take.
  - intros u' Hh Hp. unfold localizeAssetPath. now rewrite Hh, Hp.
Qed.

(* ================================================================== *)
(** ** The page path mapper *)

Lemma splitChar_nonempty (c : ascii) (s : string) : JS.splitChar c s <> [].
Proof.
  destruct s as [|a s]; simpl; [discriminate|].
  destruct (Ascii.eqb a c); [discriminate|].
  destruct (JS.splitChar c s); discriminate.
Qed.

(** Splitting distributes over a separator in the middle. *)
Lemma splitChar_app (c : ascii) (a b : string) :
  JS.splitChar c (a ++ String c b) = (JS.splitChar c a ++ JS.splitChar c b)%list.
Proof.
  induction a as [|x a IH]; simpl.
  - now rewrite Ascii.eqb_refl.
  - destruct (Ascii.eqb x c); [now rewrite IH|].
    rewrite IH. destruct (JS.splitChar c a) eqn:E; [|reflexivity].
    now destruct (splitChar_nonempty c a).
Qed.



(** Without [..] among the components, normalisation keeps what it has
    and appends the ordinary names. *)
Lemma normalizeSegs_clean (allow : bool) (acc segs : list string) :
  (forall x, In x segs -> x <> "..") ->
  Path.normalizeSegs allow acc segs = (rev acc ++ filter ordinaryName segs)%list.
Proof.
  revert acc. induction segs as [|x segs IH]; intros acc Hno; simpl.
  - now rewrite app_nil_r.
  - assert (Hx : String.eqb x ".." = false).
    { apply String.eqb_neq. apply Hno. now left. }
    assert (Hrest : forall y, In y segs -> y <> "..") by (intros y Hy; apply Hno; now right).
    unfold ordinaryName. rewrite Hx.
    destruct (String.eqb x "" || String.eqb x "."); simpl.
    + now apply IH.
    + rewrite IH by assumption. simpl. now rewrite <- app_assoc.
Qed.

(** Normalising a concatenation resumes from the normal form of its
    first part. *)
Lemma normalizeSegs_app (allow : bool) (acc a b : list string) :
  Path.normalizeSegs allow acc (a ++ b)
  = Path.normalizeSegs allow (rev (Path.normalizeSegs allow acc a)) b.
Proof.
  revert acc. induction a as [|x a IH]; intros acc; simpl.
  - now rewrite rev_involutive.
  - destruct (String.eqb x "" || String.eqb x "."); [apply IH|].
    destruct (String.eqb x "..").
    + destruct acc as [|top acc']; [destruct allow; apply IH|].
      destruct (String.eqb top ".."); apply IH.
    + apply IH.
Qed.

Lemma normalizeSegs_append_clean (allow : bool) (a b : list string) :
  (forall x, In x b -> x <> "..") ->
  Path.normalizeSegs allow [] (a ++ b)
  = (Path.normalizeSegs allow [] a ++ filter ordinaryName b)%list.
Proof.
  intros Hb. rewrite normalizeSegs_app, normalizeSegs_clean by assumption.
  now rewrite rev_involutive.
Qed.

(** Normal forms have no empty component. *)
Lemma normalizeSegs_truthy (allow : bool) (acc segs : list string) :
  (forall x, In x acc -> JS.truthy x = true) ->
  forall x, In x (Path.normalizeSegs allow acc segs) -> JS.truthy x = true.
Proof.
  revert acc. induction segs as [|y segs IH]; intros acc Hacc x; simpl.
  - rewrite <- in_rev. apply Hacc.
  - destruct (String.eqb y "" || String.eqb y ".") eqn:E1; [now apply IH|].
    assert (Hy : JS.truthy y = true).
    { destruct y; [discriminate | reflexivity]. }
    assert (Hcons : forall z, In z (y :: acc) -> JS.truthy z = true).
    { intros z [<- | Hz]; auto. }
    destruct (String.eqb y "..").
    + destruct acc as [|top acc'].
      * destruct allow; apply IH; [exact Hcons | intros z []].
      * destruct (String.eqb top ".."); apply IH; [exact Hcons|].
        intros z Hz. apply Hacc. now right.
    + now apply IH.
Qed.

Lemma segments_truthy (p x : string) : In x (Path.segments p) -> JS.truthy x = true.
Proof. apply normalizeSegs_truthy. intros z []. Qed.

(** What [normalize] returns on a path without a trailing slash whose
    normal form has a component. *)
Lemma normalize_pathOf (p : string) :
  JS.endsWith p "/" = false ->
  Path.segments p <> [] ->
  Path.normalize p = pathOf (Path.isAbsolute p) (Path.segments p).
Proof.
  intros Hend Hne. unfold Path.normalize, pathOf.
  destruct p as [|c p]; [now destruct Hne|].
  rewrite Hend.
  pose proof (join_truthy "/" _ (segments_truthy (String c p)) Hne) as Hj.
  destruct (JS.join "/" (Path.segments (String c p))); [discriminate|].
  now destruct (Path.isAbsolute (String c p)).
Qed.

Lemma prefix_nil (s : string) : String.prefix "" s = true.
Proof. now destruct s. Qed.

Lemma lastDot_none (s : string) :
  Path.lastDot s = None <-> JS.includes s "." = false.
Proof.
  induction s as [|c s IH]; [simpl; split; reflexivity|].
  cbn [Path.lastDot JS.includes String.prefix].
  destruct (Path.lastDot s) as [i|].
  - split; [discriminate|]. intros H. apply orb_false_iff in H.
    destruct H as [_ H]. apply IH in H. discriminate.
  - rewrite (proj1 IH eq_refl), orb_false_r.
    destruct (Ascii.ascii_dec "." c) as [<- | Hne].
    + rewrite prefix_nil. simpl. split; discriminate.
    + assert (E : Ascii.eqb c "." = false) by (apply Ascii.eqb_neq; congruence).
      rewrite E. split; reflexivity.
Qed.

Lemma lastDot_drop (s : string) (i : nat) :
  Path.lastDot s = Some i -> JS.truthy (JS.drop i s) = true.
Proof.
  revert i. induction s as [|c s IH]; intros i; [discriminate|].
  cbn [Path.lastDot]. destruct (Path.lastDot s) as [j|].
  - intros E. injection E as <-. simpl. now apply IH.
  - destruct (Ascii.eqb c "."); [|discriminate].
    intros E. injection E as <-. reflexivity.
Qed.

(** [extname] is non-empty exactly for a last component with an
    extension. *)
Lemma extname_truthy_basename (p : string) :
  JS.truthy (Path.extname p) = hasExtension (Path.basename p).
Proof.
  unfold Path.extname, hasExtension.
  destruct (Path.basename p) as [|a rest]; [reflexivity|].
  cbn [Path.lastDot].
  destruct (Path.lastDot rest) as [i|] eqn:E.
  - assert (Hinc : JS.includes rest "." = true).
    { destruct (JS.includes rest ".") eqn:Hi; [reflexivity|].
      apply lastDot_none in Hi. congruence. }
    rewrite Hinc, andb_true_l.
    destruct (String.eqb (String a rest) ".."); [reflexivity|].
    cbn [negb JS.drop]. now apply lastDot_drop.
  - rewrite (proj1 (lastDot_none rest) E), andb_false_l.
    now destruct (Ascii.eqb a ".").
Qed.

Lemma last_filter {A} (f : A -> bool) (l : list A) (d : A) :
  l <> [] -> f (last l d) = true -> last (filter f l) d = last l d.
Proof.
  intros Hne Hf.
  rewrite (app_removelast_last d Hne) at 1.
  rewrite filter_app. simpl. rewrite Hf. apply last_last.
Qed.

(** A non-empty path that does not end in a slash has a non-empty last
    piece. *)
Lemma last_piece_truthy (p : string) :
  JS.endsWith p "/" = false -> p <> "" ->
  JS.truthy (last (JS.splitChar "/" p) "") = true.
Proof.
  induction p as [|a s IH]; [congruence|]. intros Hend _.
  cbn [JS.endsWith] in Hend. apply orb_false_iff in Hend. destruct Hend as [Hone Hs].
  destruct (string_dec s "") as [-> | Hne].
  - simpl. destruct (Ascii.eqb a "/") eqn:E; [|reflexivity].
    apply Ascii.eqb_eq in E. subst a. discriminate.
  - specialize (IH Hs Hne).
    cbn [JS.splitChar].
    destruct (JS.splitChar "/" s) as [|p0 ps] eqn:El;
      [now destruct (splitChar_nonempty "/" s)|].
    destruct (Ascii.eqb a "/"); [exact IH|].
    destruct ps; [reflexivity | exact IH].
Qed.

Lemma basename_finalSegment (p : string) :
  JS.endsWith p "/" = false -> Path.basename p = finalSegment p.
Proof.
  intros Hend. destruct p as [|a s]; [reflexivity|].
  unfold Path.basename, Path.components, finalSegment.
  apply last_filter; [apply splitChar_nonempty|].
  apply last_piece_truthy; [exact Hend | discriminate].
Qed.








(** A suffix that is not empty decides whether the whole ends in [c]. *)
Lemma endsWith_app_inv (a b : string) (c : ascii) :
  b <> "" -> JS.endsWith (a ++ b) (String c "") = JS.endsWith b (String c "").
Proof.
  intros Hb. induction a as [|x a IH]; [reflexivity|].
  simpl append. cbn [JS.endsWith]. rewrite IH.
  destruct (String.eqb (String x (a ++ b)) (String c "")) eqn:E; [|reflexivity].
  apply String.eqb_eq in E. injection E as _ E.
  destruct a; simpl in E; [congruence | discriminate].
Qed.

(** Joining a root and a relative path that has no [..] and names a
    file: the components of the root followed by the names of the
    relative path. *)
Lemma join_inside (root rel : string) :
  (forall x, In x (JS.splitChar "/" rel) -> x <> "..") ->
  Path.isAbsolute rel = false ->
  JS.endsWith rel "/" = false ->
  filter ordinaryName (JS.splitChar "/" rel) <> [] ->
  Path.join root rel
  = pathOf (Path.isAbsolute root)
      (Path.segments root ++ filter ordinaryName (JS.splitChar "/" rel)).
Proof.
  intros Hno Hrel Hend Hnames.
  assert (Hne : rel <> "") by (intros ->; now apply Hnames).
  destruct root as [|c o].
  - assert (Hseg : Path.segments rel = filter ordinaryName (JS.splitChar "/" rel)).
    { unfold Path.segments. now rewrite normalizeSegs_clean. }
    unfold Path.join. destruct rel as [|r0 rel']; [congruence|].
    rewrite normalize_pathOf; [| exact Hend | now rewrite Hseg].
    now rewrite Hrel, Hseg.
  - set (root := String c o).
    assert (Habs : Path.isAbsolute (root ++ String "/" rel) = Path.isAbsolute root).
    { unfold Path.isAbsolute, JS.startsWith, root. simpl append.
      cbn [String.prefix]. destruct (Ascii.ascii_dec "/" c); [|reflexivity].
      now rewrite !prefix_nil. }
    assert (Hseg : Path.segments (root ++ String "/" rel)
                   = (Path.segments root
                      ++ filter ordinaryName (JS.splitChar "/" rel))%list).
    { unfold Path.segments. rewrite Habs, splitChar_app.
      now apply normalizeSegs_append_clean. }
    assert (Hend' : JS.endsWith (root ++ String "/" rel) "/" = false).
    { change (root ++ String "/" rel) with (root ++ "/" ++ rel).
      rewrite <- append_assoc, endsWith_app_inv; assumption. }
    unfold Path.join. fold root. destruct rel as [|r0 rel']; [congruence|].
    change (root ++ "/" ++ String r0 rel') with (root ++ String "/" (String r0 rel')).
    unfold root at 1.
    rewrite normalize_pathOf; [now rewrite Habs, Hseg | exact Hend' |].
    rewrite Hseg. intros E. apply app_eq_nil in E. now destruct E.
Qed.


(* ================================================================== *)
(** ** The robots resolver *)

(** [parseRobots] always returns, with [robotsPolicy], and leaves the
    state as it was. *)
Lemma parseRobots_returns (root : URL) (s : CrawlState) :
  parseRobots root s = (Normal (robotsPolicy root), s).
Proof.
  unfold parseRobots, robotsPolicy, tryCatch, bind, newURL, orThrow, doFetch, readBody.
  destruct (URL_new "/robots.txt" (Some (href root))) as [robotsUrl|]; [|reflexivity].
  simpl. destruct (fetch W (href robotsUrl)) as [|r]; [reflexivity|].
  simpl. destruct (ok r); [|reflexivity].
  simpl. unfold orThrow. destruct (body r); reflexivity.
Qed.

(** C9: the robots resolver.  Whatever the origin, [parseRobots]
    returns a policy and throws nothing; when the fetch of
    [/robots.txt] is rejected (network failure, timeout) or answered
    with a non-success status, that policy is exactly the empty one,
    [{disallowedPaths: [], crawlDelay: 0}]. *)
Theorem parseRobots_failure_gives_empty_policy :
  forall (root : URL) (s : CrawlState),
    (forall robotsUrl : URL,
        URL_new "/robots.txt" (Some (href root)) = Some robotsUrl ->
        fetchFailed (fetch W (href robotsUrl))) ->
    parseRobots root s = (Normal (mkRobotsRules [] 0%Z), s).
Proof.
  intros root s Hfail. rewrite parseRobots_returns. do 2 f_equal.
  unfold robotsPolicy.
  destruct (URL_new "/robots.txt" (Some (href root))) as [robotsUrl|] eqn:E;
    [|reflexivity].
  specialize (Hfail robotsUrl eq_refl).
  destruct (fetch W (href robotsUrl)) as [|r]; [reflexivity|].
  simpl in Hfail. now rewrite Hfail.
Qed.

(* ================================================================== *)
(** ** Rules of the program logic *)

Lemma triple_ret {A} (P : CrawlState -> Prop) (a : A) Q E :
  (forall s, P s -> Q a s) -> triple P (ret a) Q E.
Proof. intros H s Hs. now apply H. Qed.

Lemma triple_throw {A} (P : CrawlState -> Prop) (e : Exn)
      (Q : A -> CrawlState -> Prop) (E : Exn -> CrawlState -> Prop) :
  (forall s, P s -> E e s) -> triple P (throw e) Q E.
Proof. intros H s Hs. now apply H. Qed.

Lemma triple_bind {A B} P (m : M A) (k : A -> M B) R Q E :
  triple P m R E -> (forall a, triple (R a) (k a) Q E) -> triple P (bind m k) Q E.
Proof.
  intros Hm Hk s Hs. unfold bind. specialize (Hm s Hs).
  destruct (m s) as [[a|e] s']; [now apply Hk | exact Hm].
Qed.

Lemma triple_tryCatch {A} P (m : M A) (h : Exn -> M A) Q E' E :
  triple P m Q E' -> (forall e, triple (E' e) (h e) Q E) ->
  triple P (tryCatch m h) Q E.
Proof.
  intros Hm Hh s Hs. unfold tryCatch. specialize (Hm s Hs).
  destruct (m s) as [[a|e] s']; [exact Hm | now apply Hh].
Qed.

Lemma triple_conseq {A} (P P' : CrawlState -> Prop) (m : M A)
      (Q Q' : A -> CrawlState -> Prop) (E E' : Exn -> CrawlState -> Prop) :
  triple P' m Q' E' ->
  (forall s, P s -> P' s) ->
  (forall a s, Q' a s -> Q a s) ->
  (forall e s, E' e s -> E e s) ->
  triple P m Q E.
Proof.
  intros Hm HP HQ HE s Hs. specialize (Hm s (HP s Hs)).
  destruct (m s) as [[a|e] s']; auto.
Qed.

Lemma triple_orThrow {A} (P : CrawlState -> Prop) (o : option A) (e : Exn) E :
  (forall s, P s -> o = None -> E e s) ->
  triple P (orThrow o e) (fun a s => P s /\ o = Some a) E.
Proof.
  intros HE s Hs. destruct o as [a|]; simpl; auto.
Qed.

(** A loop over a list keeps what each turn keeps. *)
Lemma triple_mapM {A B} (I : CrawlState -> Prop) (f : A -> M B) (l : list A) E :
  (forall a, triple I (f a) (fun _ => I) E) ->
  triple I (mapM f l) (fun _ => I) E.
Proof.
  intros Hf. induction l as [|a l IH]; simpl.
  - now apply triple_ret.
  - eapply triple_bind; [apply Hf|]. intros b.
    eapply triple_bind; [apply IH|]. intros bs. now apply triple_ret.
Qed.

Lemma triple_forEachM {A} (I : CrawlState -> Prop) (f : A -> M unit) (l : list A) E :
  (forall a, triple I (f a) (fun _ => I) E) ->
  triple I (forEachM f l) (fun _ => I) E.
Proof.
  intros Hf. induction l as [|a l IH]; simpl.
  - now apply triple_ret.
  - eapply triple_bind; [apply Hf|]. intros u. apply IH.
Qed.

(** *** Computations that leave a part of the state alone *)

Section Stable.

Variable R : CrawlState -> CrawlState -> Prop.
Hypothesis R_refl : forall s, R s s.
Hypothesis R_trans : forall s1 s2 s3, R s1 s2 -> R s2 s3 -> R s1 s3.

#[local] Set Default Proof Using "Type R_refl R_trans".

Lemma stable_ret {A} (a : A) : stable R (ret a).
Proof. intros s. apply R_refl. Qed.

Lemma stable_throw {A} (e : Exn) : stable R (@throw A e).
Proof. intros s. apply R_refl. Qed.

Lemma stable_get : stable R get.
Proof. intros s. apply R_refl. Qed.

Lemma stable_orThrow {A} (o : option A) (e : Exn) : stable R (orThrow o e).
Proof. destruct o; [apply stable_ret | apply stable_throw]. Qed.

Lemma stable_bind {A B} (m : M A) (k : A -> M B) :
  stable R m -> (forall a, stable R (k a)) -> stable R (bind m k).
Proof.
  intros Hm Hk s. unfold bind. specialize (Hm s).
  destruct (m s) as [[a|e] s']; [|exact Hm].
  eapply R_trans; [exact Hm | apply Hk].
Qed.

Lemma stable_tryCatch {A} (m : M A) (h : Exn -> M A) :
  stable R m -> (forall e, stable R (h e)) -> stable R (tryCatch m h).
Proof.
  intros Hm Hh s. unfold tryCatch. specialize (Hm s).
  destruct (m s) as [[a|e] s']; [exact Hm|].
  eapply R_trans; [exact Hm | apply Hh].
Qed.

Lemma stable_mapM {A B} (f : A -> M B) (l : list A) :
  (forall a, stable R (f a)) -> stable R (mapM f l).
Proof.
  intros Hf. induction l as [|a l IH]; simpl; [apply stable_ret|].
  apply stable_bind; [apply Hf|]. intros b.
  apply stable_bind; [apply IH|]. intros bs. apply stable_ret.
Qed.

Lemma stable_forEachM {A} (f : A -> M unit) (l : list A) :
  (forall a, stable R (f a)) -> stable R (forEachM f l).
Proof.
  intros Hf. induction l as [|a l IH]; simpl; [apply stable_ret|].
  apply stable_bind; [apply Hf | intros _; apply IH].
Qed.

Lemma stable_if {A} (b : bool) (m1 m2 : M A) :
  stable R m1 -> stable R m2 -> stable R (if b then m1 else m2).
Proof. now destruct b. Qed.

(** A property that [R] carries along is an invariant of a stable
    computation. *)
Lemma stable_triple {A} (I : CrawlState -> Prop) (m : M A) :
  (forall s s', R s s' -> I s -> I s') ->
  stable R m -> triple I m (fun _ => I) (fun _ => I).
Proof.
  intros HI Hm s Hs. specialize (Hm s).
  destruct (m s) as [[a|e] s']; simpl in Hm; eauto.
Qed.

End Stable.

#[local] Set Default Proof Using "Type".

(** *** What the parts of the cloner leave alone *)

Section StableModel.

Variable R : CrawlState -> CrawlState -> Prop.
Hypothesis R_refl : forall s, R s s.
Hypothesis R_trans : forall s1 s2 s3, R s1 s2 -> R s2 s3 -> R s1 s3.
Hypothesis R_log : forall l, stable R (logLine l).
Hypothesis R_asset : forall u, stable R (addAsset u).
Hypothesis R_put : forall p c, stable R (putFile p c).
Hypothesis R_clear : stable R clearFiles.

#[local] Set Default Proof Using "Type R_refl R_trans R_log R_asset R_put R_clear".

Ltac stable_step :=
  first
    [ assumption
    | apply R_log | apply R_asset | apply R_put | apply R_clear
    | apply stable_ret | apply stable_throw | apply stable_orThrow
    | apply stable_bind | apply stable_tryCatch
    | apply stable_mapM | apply stable_forEachM
    | match goal with
      | |- stable _ (match ?x with _ => _ end) => destruct x
      | |- forall _, _ => intro
      end ].

Ltac stable_auto := repeat stable_step.

Lemma stable_newURL (input : string) (base : option string) :
  stable R (newURL input base).
Proof using R_refl R_trans. unfold newURL. stable_auto. Qed.

Lemma stable_doFetch (url : string) : stable R (doFetch url).
Proof using R_refl R_trans. unfold doFetch. stable_auto. Qed.

Lemma stable_readBody (url : string) (r : Response) : stable R (readBody url r).
Proof using R_refl R_trans. unfold readBody. stable_auto. Qed.

Lemma stable_writeFile (p data : string) : stable R (writeFile p data).
Proof using R_refl R_trans R_put. unfold writeFile. stable_auto. Qed.

Lemma stable_emptyDir (dir : string) : stable R (emptyDir dir).
Proof using R_refl R_trans R_clear. unfold emptyDir. stable_auto. Qed.

Ltac stable_model :=
  repeat first
    [ assumption
    | apply stable_newURL | apply stable_doFetch | apply stable_readBody
    | apply stable_writeFile | stable_step ].

Lemma stable_imgAttrRule (currentUrl attrName : string) (e : Element) :
  stable R (imgAttrRule currentUrl attrName e).
Proof. unfold imgAttrRule. stable_model. Qed.

Lemma stable_srcsetEntry (currentUrl entry : string) :
  stable R (srcsetEntry currentUrl entry).
Proof. unfold srcsetEntry. stable_model. Qed.

Lemma stable_imgRule (currentUrl : string) (e : Element) :
  stable R (imgRule currentUrl e).
Proof.
  unfold imgRule.
  repeat first [apply stable_imgAttrRule | apply stable_srcsetEntry | stable_step].
Qed.

Lemma stable_resourceRule (currentUrl attrName : string) (e : Element) :
  stable R (resourceRule currentUrl attrName e).
Proof. unfold resourceRule. stable_model. Qed.

Lemma stable_each (tagName : string) (required : option string)
      (rule : Element -> M Element) (doc : Document) :
  (forall e, stable R (rule e)) -> stable R (each tagName required rule doc).
Proof using R_refl R_trans.
  intros Hrule. unfold each. apply stable_mapM; try assumption.
  intros e. destruct (_ && _); [apply Hrule | now apply stable_ret].
Qed.

Lemma stable_downloadAsset (opts : Options) (rootOrigin outputDir assetUrl : string) :
  stable R (downloadAsset opts rootOrigin outputDir assetUrl).
Proof using R_refl R_trans R_log R_put. unfold downloadAsset. stable_model. Qed.

Lemma stable_downloadAssets (opts : Options) (rootOrigin outputDir : string) :
  stable R (downloadAssets opts rootOrigin outputDir).
Proof using R_refl R_trans R_log R_put.
  unfold downloadAssets.
  apply stable_bind; try assumption. intros s.
  apply stable_forEachM; try assumption. intros a. now apply stable_downloadAsset.
Qed.

End StableModel.

#[local] Set Default Proof Using "Type".

(* ================================================================== *)
(** ** The crawl invariant *)

Lemma sameCrawl_refl (s : CrawlState) : sameCrawl s s.
Proof. now repeat split. Qed.

Lemma sameCrawl_trans (s1 s2 s3 : CrawlState) :
  sameCrawl s1 s2 -> sameCrawl s2 s3 -> sameCrawl s1 s3.
Proof.
  intros (A1 & A2 & A3 & A4 & A5) (B1 & B2 & B3 & B4 & B5).
  repeat split; congruence.
Qed.

Lemma sameCrawl_logLine (l : LogLine) : stable sameCrawl (logLine l).
Proof. intros s. now repeat split. Qed.

Lemma sameCrawl_addAsset (u : string) : stable sameCrawl (addAsset u).
Proof. intros s. now repeat split. Qed.

Lemma sameCrawl_putFile (p c : string) : stable sameCrawl (putFile p c).
Proof. intros s. now repeat split. Qed.

Lemma sameCrawl_clearFiles : stable sameCrawl clearFiles.
Proof. intros s. now repeat split. Qed.

Section Invariant.

Variable opts : Options.
Variable rules : RobotsRules.
Variable r0 : string.

Lemma CrawlInv_sameCrawl (s s' : CrawlState) :
  sameCrawl s s' -> CrawlInv opts rules r0 s -> CrawlInv opts rules r0 s'.
Proof.
  intros (E1 & E2 & E3 & E4 & E5) [].
  constructor; rewrite ?E1, ?E2, ?E3, ?E4, ?E5; assumption.
Qed.

Lemma PhaseInv_sameCrawl (v : list string) (n : nat) (s s' : CrawlState) :
  sameCrawl s s' -> PhaseInv opts rules r0 v n s -> PhaseInv opts rules r0 v n s'.
Proof.
  intros Hs (Hinv & Hv & Hn). pose proof Hs as (E1 & E2 & _).
  split; [now apply (CrawlInv_sameCrawl s)|]. now rewrite E1, E2.
Qed.

(** The pair in force satisfies what every recorded pair does. *)
Lemma CrawlInv_now (s : CrawlState) :
  CrawlInv opts rules r0 s -> snapshotOK opts (visitedPages s, pageQueue s).
Proof.
  intros []. destruct inv_current0 as [older E]. rewrite E in inv_snapshots0.
  now inversion inv_snapshots0.
Qed.

Lemma blockedCount_app (q1 q2 : list string) :
  blockedCount opts rules (q1 ++ q2)
  = blockedCount opts rules q1 + blockedCount opts rules q2.
Proof. unfold blockedCount. now rewrite filter_app, length_app. Qed.

(** The start of a crawl. *)
Lemma CrawlInv_initial (s : CrawlState) :
  sameCrawl (initialState r0) s -> CrawlInv opts rules r0 s.
Proof.
  intros Hs. apply (CrawlInv_sameCrawl (initialState r0)); [exact Hs|].
  constructor; simpl.
  - repeat constructor. intros [].
  - repeat constructor. intros [].
  - intros u [<- | []]. left. now left.
  - intros u [].
  - reflexivity.
  - intros u [].
  - repeat constructor; simpl; [lia | intros u []].
  - now exists [].
Qed.

(** Pushing a URL that is neither visited nor queued and that robots
    permits. *)
Lemma PhaseInv_push (v : list string) (n : nat) (t : string) (s : CrawlState) :
  PhaseInv opts rules r0 v n s ->
  ~ In t (visitedPages s) -> ~ In t (pageQueue s) ->
  permitted opts rules t = true ->
  PhaseInv opts rules r0 v n (snd (pushQueue t s)).
Proof.
  intros (Hinv & Hv & Hn) Hnv Hnq Hperm.
  pose proof (CrawlInv_now s Hinv) as (Hbudget & Hnodup & Hdisj).
  destruct Hinv. simpl in *.
  assert (Hfresh : ~ In t (pushes s ++ [r0])).
  { intros Hin. destruct (inv_entered_where0 t Hin) as [H | [H | H]];
      [auto | auto | congruence]. }
  split; [|split].
  - constructor; simpl.
    + apply NoDup_app; [assumption | repeat constructor; intros [] |].
      intros x Hx [<- | []]. auto.
    + constructor; assumption.
    + intros u [<- | Hu].
      * left. apply in_or_app. right. now left.
      * destruct (inv_entered_where0 u Hu) as [H | [H | H]]; auto.
        left. apply in_or_app. now left.
    + intros u [<- | Hu]; auto.
    + assumption.
    + assumption.
    + constructor; [|assumption]. repeat split; simpl; try assumption.
      intros u Hu Hin. apply in_app_or in Hin.
      destruct Hin as [Hin | [<- | []]]; [now apply (Hdisj u) | auto].
    + eexists. reflexivity.
  - exact Hv.
  - simpl. rewrite blockedCount_app, Hn. unfold blockedCount. simpl.
    rewrite Hperm. simpl. lia.
Qed.

(** The anchor rule keeps the invariant: it pushes only what passed the
    three tests. *)
Lemma anchorRule_phase (rootOrigin : string) (v : list string) (n : nat)
      (currentUrl : string) (e : Element) :
  triple (PhaseInv opts rules r0 v n)
         (anchorRule opts rootOrigin rules currentUrl e)
         (fun _ => PhaseInv opts rules r0 v n)
         (fun _ => PhaseInv opts rules r0 v n).
Proof.
  intros s Hs. unfold anchorRule.
  destruct (attr "href" e) as [h|]; [|exact Hs].
  destruct (isSkippableHref h); [exact Hs|].
  unfold newURL, bind, orThrow.
  destruct (URL_new h (Some currentUrl)) as [resolved|]; [|exact Hs].
  cbn [ret]. destruct (String.eqb (origin resolved) rootOrigin); [|exact Hs].
  set (t := href (clearHash (clearSearch resolved))).
  unfold shouldAdd, bind, get.
  destruct (has t (visitedPages s)) eqn:Hv; [exact Hs|].
  destruct (has t (pageQueue s)) eqn:Hq; [exact Hs|].
  apply has_false in Hv, Hq.
  destruct (respectRobots opts) eqn:Hr; cbn [negb].
  - unfold checkUrlAllowed, orThrow.
    destruct (isUrlAllowed t (disallowedPaths rules)) as [[|]|] eqn:Ha;
      cbn [ret throw]; try exact Hs.
    change (PhaseInv opts rules r0 v n (snd (pushQueue t s))).
    apply PhaseInv_push; auto. unfold permitted. now rewrite Ha, orb_true_r.
  - cbn [ret].
    change (PhaseInv opts rules r0 v n (snd (pushQueue t s))).
    apply PhaseInv_push; auto. unfold permitted. now rewrite Hr.
Qed.

Lemma phase_of_stable {A} (v : list string) (n : nat) (m : M A) :
  stable sameCrawl m ->
  triple (PhaseInv opts rules r0 v n) m
         (fun _ => PhaseInv opts rules r0 v n) (fun _ => PhaseInv opts rules r0 v n).
Proof.
  apply stable_triple; [exact sameCrawl_refl | exact sameCrawl_trans |].
  intros s s' Hs. now apply PhaseInv_sameCrawl.
Qed.

Ltac crawl_stable :=
  repeat first
    [ exact sameCrawl_refl | exact sameCrawl_trans | exact sameCrawl_logLine
    | exact sameCrawl_addAsset | exact sameCrawl_putFile
    | exact sameCrawl_clearFiles
    | apply stable_each | apply stable_imgRule | apply stable_resourceRule
    | apply stable_readBody | apply stable_newURL | apply stable_writeFile
    | apply stable_doFetch | apply stable_emptyDir
    | apply stable_downloadAssets
    | apply stable_bind | apply stable_tryCatch
    | apply stable_ret | apply stable_throw
    | match goal with |- forall _, _ => intro end ].

Lemma rewriteDocument_phase (rootOrigin : string) (v : list string) (n : nat)
      (currentUrl : string) (doc : Document) :
  triple (PhaseInv opts rules r0 v n)
         (rewriteDocument opts rootOrigin rules currentUrl doc)
         (fun _ => PhaseInv opts rules r0 v n)
         (fun _ => PhaseInv opts rules r0 v n).
Proof.
  unfold rewriteDocument.
  eapply triple_bind; [apply phase_of_stable; crawl_stable | intros d1; cbv beta].
  eapply triple_bind; [apply phase_of_stable; crawl_stable | intros d2; cbv beta].
  eapply triple_bind; [apply phase_of_stable; crawl_stable | intros d3; cbv beta].
  unfold each. apply triple_mapM. intros e.
  destruct (_ && _); [apply anchorRule_phase | now apply triple_ret].
Qed.

Lemma processResponse_phase (rootOrigin outputDir : string) (v : list string)
      (n : nat) (currentUrl : string) (response : Response) :
  triple (PhaseInv opts rules r0 v n)
         (processResponse opts rootOrigin outputDir rules currentUrl response)
         (fun _ => PhaseInv opts rules r0 v n)
         (fun _ => PhaseInv opts rules r0 v n).
Proof.
  unfold processResponse.
  destruct (negb _); [apply phase_of_stable; crawl_stable|].
  eapply triple_bind; [apply phase_of_stable; crawl_stable | intros html; cbv beta].
  eapply triple_bind; [apply rewriteDocument_phase | intros doc; cbv beta].
  apply phase_of_stable. crawl_stable.
Qed.

Lemma fetchAndProcess_phase (rootOrigin outputDir : string) (v : list string)
      (n : nat) (currentUrl : string) :
  triple (PhaseInv opts rules r0 v n)
         (fetched <- fetchPage currentUrl ;;
          match fetched with
          | None => ret tt
          | Some response =>
              processResponse opts rootOrigin outputDir rules currentUrl response
          end)
         (fun _ => PhaseInv opts rules r0 v n)
         (fun _ => PhaseInv opts rules r0 v n).
Proof.
  eapply triple_bind.
  - apply phase_of_stable. unfold fetchPage. crawl_stable.
  - intros [response|]; [apply processResponse_phase | now apply triple_ret].
Qed.

(** Dequeuing a URL that robots excludes. *)
Lemma shift_blocked (u : string) (rest : list string) (s : CrawlState) :
  CrawlInv opts rules r0 s ->
  pageQueue s = u :: rest ->
  permitted opts rules u = false ->
  CrawlInv opts rules r0 (snd (setQueue rest s))
  /\ turnsLeft opts rules (snd (setQueue rest s)) < turnsLeft opts rules s.
Proof.
  intros Hinv Eq Hperm.
  pose proof (CrawlInv_now s Hinv) as (Hbudget & Hnodup & Hdisj).
  destruct Hinv. simpl in *. rewrite Eq in *. split.
  - constructor; simpl.
    + now inversion inv_queue_nodup0.
    + assumption.
    + intros x Hx. destruct (inv_entered_where0 x Hx) as [[<- | H] | [H | H]]; auto.
    + assumption.
    + assumption.
    + assumption.
    + constructor; [|assumption]. repeat split; simpl; try assumption.
      intros x Hx Hin. apply (Hdisj x Hx). now right.
    + eexists. reflexivity.
  - unfold turnsLeft, blockedCount. simpl. rewrite Eq. simpl. rewrite Hperm. simpl. lia.
Qed.

(** Dequeuing a URL that is visited next. *)
Lemma shift_visit (u : string) (rest : list string) (s : CrawlState) :
  CrawlInv opts rules r0 s ->
  pageQueue s = u :: rest ->
  (Z.of_nat (List.length (visitedPages s)) < maxPages opts)%Z ->
  ~ In u (visitedPages s) ->
  permitted opts rules u = true ->
  PhaseInv opts rules r0 (visitedPages s ++ [u]) (blockedCount opts rules rest)
    (snd (notePageFetch u (snd (addVisited u (snd (setQueue rest s)))))).
Proof.
  intros Hinv Eq Hlt Hnv Hperm.
  pose proof (CrawlInv_now s Hinv) as (Hbudget & Hnodup & Hdisj).
  assert (Hadd : setAdd u (visitedPages s) = (visitedPages s ++ [u])%list).
  { unfold setAdd. now rewrite (proj2 (has_false u _) Hnv). }
  destruct Hinv. simpl in *. rewrite Eq in *.
  assert (Hrest : NoDup rest /\ ~ In u rest) by (inversion inv_queue_nodup0; auto).
  destruct Hrest as [Hrest Hur].
  split; [|split]; simpl; rewrite ?Hadd; try reflexivity.
  constructor; simpl; rewrite ?Hadd.
  - assumption.
  - assumption.
  - intros x Hx. destruct (inv_entered_where0 x Hx) as [[<- | H] | [H | H]]; auto.
    + right. left. apply in_or_app. right. now left.
    + right. left. apply in_or_app. now left.
  - assumption.
  - rewrite inv_fetches0. reflexivity.
  - intros x [<- | Hx]; auto.
  - constructor; [|constructor; [|assumption]]; repeat split; simpl.
    + rewrite length_app. simpl. lia.
    + apply NoDup_app; [assumption | repeat constructor; intros [] |].
      intros x Hx [<- | []]. auto.
    + intros x Hx Hin. apply in_app_or in Hx.
      destruct Hx as [Hx | [<- | []]]; [|auto].
      apply (Hdisj x Hx). now right.
    + assumption.
    + assumption.
    + intros x Hx Hin. apply (Hdisj x Hx). now right.
  - eexists. reflexivity.
Qed.

Lemma turnsLeft_sameCrawl (s s' : CrawlState) :
  sameCrawl s s' -> turnsLeft opts rules s' = turnsLeft opts rules s.
Proof. intros (E1 & E2 & _). unfold turnsLeft. now rewrite E1, E2. Qed.

(** One turn of the loop keeps the invariant and, unless it throws,
    uses up one of the turns left. *)
Lemma crawlIteration_inv (rootOrigin outputDir : string) (s : CrawlState) :
  CrawlInv opts rules r0 s ->
  loopCondition opts s = true ->
  match crawlIteration opts rootOrigin outputDir rules s with
  | (Normal _, s') =>
      CrawlInv opts rules r0 s' /\ turnsLeft opts rules s' < turnsLeft opts rules s
  | (Throw _, s') => CrawlInv opts rules r0 s'
  end.
Proof.
  intros Hinv Hcond.
  unfold loopCondition in Hcond. apply andb_true_iff in Hcond.
  destruct Hcond as [Hq Hlt]. apply Z.ltb_lt in Hlt.
  pose proof (CrawlInv_now s Hinv) as (Hbudget & Hnodup & Hdisj). simpl in Hdisj.
  unfold crawlIteration. unfold bind at 1. unfold get at 1.
  destruct (pageQueue s) as [|u rest] eqn:Eq; [discriminate|].
  unfold bind at 1.
  change (setQueue rest s) with (Normal tt, snd (setQueue rest s)).
  cbv iota.
  destruct (has u (visitedPages s)) eqn:Hhas.
  { exfalso. apply existsb_has in Hhas. apply (Hdisj u Hhas). now left. }
  apply has_false in Hhas.
  assert (Hvisit :
    permitted opts rules u = true ->
    match visitPage opts rootOrigin outputDir rules u (snd (setQueue rest s)) with
    | (Normal _, s') =>
        CrawlInv opts rules r0 s' /\ turnsLeft opts rules s' < turnsLeft opts rules s
    | (Throw _, s') => CrawlInv opts rules r0 s'
    end).
  { intros Hperm.
    pose proof (shift_visit u rest s Hinv Eq Hlt Hhas Hperm) as Hphase.
    pose proof (fetchAndProcess_phase rootOrigin outputDir _ _ u _ Hphase) as Hrun.
    change (visitPage opts rootOrigin outputDir rules u (snd (setQueue rest s)))
      with ((fetched <- fetchPage u ;;
             match fetched with
             | None => ret tt
             | Some response =>
                 processResponse opts rootOrigin outputDir rules u response
             end)
              (snd (notePageFetch u (snd (addVisited u (snd (setQueue rest s))))))).
    match type of Hrun with
    | match ?run with _ => _ end => destruct run as [[a|e] s'] end;
      destruct Hrun as (Hinv' & Hv' & Hn'); [|exact Hinv'].
    split; [exact Hinv'|].
    unfold turnsLeft. rewrite Hv', Hn', Eq, length_app.
    unfold blockedCount. simpl. rewrite Hperm. simpl. lia. }
  destruct (respectRobots opts) eqn:Hr.
  - unfold bind at 1. unfold checkUrlAllowed, orThrow.
    destruct (isUrlAllowed u (disallowedPaths rules)) as [[|]|] eqn:Ha;
      unfold bind at 1; cbn [ret throw negb].
    + apply Hvisit. unfold permitted. now rewrite Ha, orb_true_r.
    + assert (Hperm : permitted opts rules u = false)
        by (unfold permitted; now rewrite Hr, Ha).
      destruct (shift_blocked u rest s Hinv Eq Hperm) as [H1 H2].
      cbn [logLine]. split.
      * apply (CrawlInv_sameCrawl (snd (setQueue rest s))); [|exact H1].
        apply sameCrawl_logLine.
      * erewrite turnsLeft_sameCrawl; [exact H2|].
        apply (sameCrawl_logLine (SkippedDisallowed u)).
    + assert (Hperm : permitted opts rules u = false)
        by (unfold permitted; now rewrite Hr, Ha).
      now destruct (shift_blocked u rest s Hinv Eq Hperm) as [H1 H2].
  - unfold bind at 1. cbn [ret].
    apply Hvisit. unfold permitted. now rewrite Hr.
Qed.

(** The loop ends within the turns left, in a state that satisfies the
    invariant; when it ends without a throw its condition is false. *)
Lemma crawlLoop_inv (rootOrigin outputDir : string) (fuel : nat) (s : CrawlState) :
  CrawlInv opts rules r0 s ->
  turnsLeft opts rules s < fuel ->
  exists c s',
    crawlLoop opts rootOrigin outputDir rules fuel s = Some (c, s')
    /\ CrawlInv opts rules r0 s'
    /\ (forall a, c = Normal a -> loopCondition opts s' = false).
Proof.
  revert s. induction fuel as [|fuel IH]; intros s Hinv Hfuel; [lia|].
  cbn [crawlLoop]. destruct (loopCondition opts s) eqn:Hcond.
  - pose proof (crawlIteration_inv rootOrigin outputDir s Hinv Hcond) as Hstep.
    destruct (crawlIteration opts rootOrigin outputDir rules s) as [[a|e] s1].
    + destruct Hstep as [Hinv1 Hless]. apply IH; [exact Hinv1 | lia].
    + exists (Throw e), s1. split; [reflexivity | split; [exact Hstep | discriminate]].
  - exists (Normal tt), s. split; [reflexivity | split; auto].
Qed.

End Invariant.

Lemma loopCondition_sameCrawl (opts : Options) (s s' : CrawlState) :
  sameCrawl s s' -> loopCondition opts s' = loopCondition opts s.
Proof. intros (E1 & E2 & _). unfold loopCondition. now rewrite E1, E2. Qed.

(** The asset fetcher cannot fail. *)
Lemma downloadAsset_normal (opts : Options) (rootOrigin outputDir assetUrl : string)
      (s : CrawlState) :
  fst (downloadAsset opts rootOrigin outputDir assetUrl s) = Normal tt.
Proof.
  unfold downloadAsset, tryCatch.
  match goal with |- context [match ?m s with _ => _ end] => destruct (m s) as [[[]|e] s'] end;
    reflexivity.
Qed.

Lemma forEachM_normal {A} (f : A -> M unit) (l : list A) (s : CrawlState) :
  (forall a s', fst (f a s') = Normal tt) -> fst (forEachM f l s) = Normal tt.
Proof.
  intros Hf. revert s. induction l as [|a l IH]; intros s; [reflexivity|].
  cbn [forEachM]. unfold bind. specialize (Hf a s).
  destruct (f a s) as [[[]|e] s1]; [apply IH | discriminate].
Qed.

Lemma downloadAssets_normal (opts : Options) (rootOrigin outputDir : string)
      (s : CrawlState) :
  fst (downloadAssets opts rootOrigin outputDir s) = Normal tt.
Proof.
  unfold downloadAssets, bind, get. apply forEachM_normal.
  intros a s'. apply downloadAsset_normal.
Qed.

(** The policy a run resolves. *)
Lemma resolve_policy (opts : Options) (root : URL) (s : CrawlState) :
  (if respectRobots opts then parseRobots root else ret emptyRules) s
  = (Normal (policyInForce opts root), s).
Proof.
  unfold policyInForce. destruct (respectRobots opts); [apply parseRobots_returns | reflexivity].
Qed.

(** A run from a start URL that parses: it ends, in a state that
    satisfies the crawl invariant; what it returns is built from that
    state, when the loop has stopped by itself. *)
Lemma cloneWebsite_run (targetUrl : string) (opts : Options) (root : URL) :
  URL_new targetUrl None = Some root ->
  exists c s,
    cloneWebsite targetUrl opts = Some (c, s)
    /\ CrawlInv opts (policyInForce opts root) (href root) s
    /\ (forall r, c = Normal r ->
          r = buildResult opts (Path.join (cwd W) (outDir opts)) s
          /\ loopCondition opts s = false).
Proof.
  intros Hroot. unfold cloneWebsite. rewrite Hroot, resolve_policy.
  set (rules := policyInForce opts root).
  set (outputDir := Path.join (cwd W) (outDir opts)).
  destruct (concurrency opts <? 1)%Z.
  { exists (Throw (InvalidConcurrency (concurrency opts))),
           (onPriorFiles outputDir (initialState (href root))).
    split; [reflexivity | split; [|discriminate]].
    apply CrawlInv_initial. now repeat split. }
  unfold emptyDir. destruct (canEmptyDir W outputDir).
  - cbn [clearFiles].
    match goal with |- context [crawlLoop _ _ _ _ _ ?s2] => set (s2' := s2) end.
    assert (Hinv2 : CrawlInv opts rules (href root) s2').
    { apply CrawlInv_initial. now repeat split. }
    assert (Hfuel : turnsLeft opts rules s2' < crawlFuel opts).
    { unfold turnsLeft, crawlFuel, blockedCount, s2'. simpl.
      destruct (negb (permitted opts rules (href root))); simpl; lia. }
    destruct (crawlLoop_inv opts rules (href root) (origin root) outputDir
                (crawlFuel opts) s2' Hinv2 Hfuel) as (c & s3 & Hloop & Hinv3 & Hend).
    rewrite Hloop. destruct c as [[]|e].
    + pose proof (downloadAssets_normal opts (origin root) outputDir s3) as Hn.
      pose proof (stable_downloadAssets sameCrawl sameCrawl_refl sameCrawl_trans
                    sameCrawl_logLine sameCrawl_putFile opts (origin root)
                    outputDir s3) as Hsame.
      destruct (downloadAssets opts (origin root) outputDir s3) as [[[]|e] s4];
        simpl in Hn, Hsame; [|discriminate].
      exists (Normal (buildResult opts outputDir s4)), s4. split; [reflexivity|]. split.
      * now apply (CrawlInv_sameCrawl opts rules (href root) s3).
      * intros r E. injection E as <-. split; [reflexivity|].
        rewrite (loopCondition_sameCrawl opts s3 s4 Hsame). now apply (Hend tt).
    + exists (Throw e), s3. split; [reflexivity | split; [exact Hinv3 | discriminate]].
  - exists (Throw (FsFailed outputDir)),
           (onPriorFiles outputDir (initialState (href root))).
    split; [reflexivity | split; [|discriminate]].
    apply CrawlInv_initial. now repeat split.
Qed.

(* ================================================================== *)
(** ** Properties of a crawl *)

(** C3: budget, disjointness, single entry.  A run from a start URL
    that parses, with a page budget that is not negative, ends; every
    pair (visited set, pending queue) it went through -- [snapshots]
    holds the pair after each change, the last one first -- has at most
    [maxPages] visited URLs, all distinct, and no URL in both; and the
    URLs that entered the queue, the start URL and then each pushed
    one, are pairwise distinct. *)
Theorem crawl_budget_disjoint_single_entry :
  forall (targetUrl : string) (opts : Options) (root : URL),
    URL_new targetUrl None = Some root ->
    (0 <= maxPages opts)%Z ->
    exists c s,
      cloneWebsite targetUrl opts = Some (c, s)
      /\ (forall v q, In (v, q) (snapshots s) ->
            NoDup v
            /\ (Z.of_nat (List.length v) <= maxPages opts)%Z
            /\ (forall u, In u v -> ~ In u q))
      /\ (exists older, snapshots s = (visitedPages s, pageQueue s) :: older)
      /\ NoDup (pushes s ++ [href root]).
Proof.
  intros targetUrl opts root Hroot Hmax.
  destruct (cloneWebsite_run targetUrl opts root Hroot) as (c & s & Hrun & Hinv & _).
  exists c, s. split; [exact Hrun|]. destruct Hinv. repeat split.
  - rewrite Forall_forall in inv_snapshots0.
    now destruct (inv_snapshots0 (v, q) H) as (_ & Hnd & _).
  - rewrite Forall_forall in inv_snapshots0.
    destruct (inv_snapshots0 (v, q) H) as (Hb & _ & _). simpl in Hb. lia.
  - rewrite Forall_forall in inv_snapshots0.
    destruct (inv_snapshots0 (v, q) H) as (_ & _ & Hd). exact Hd.
  - exact inv_current0.
  - exact inv_entered_nodup0.
Qed.

(* ================================================================== *)
(** ** The anchor rule *)

Lemma prettyPath_directoryStyle (u : URL) :
  prettyPath u = directoryStyle (pathname u).
Proof.
  unfold prettyPath, directoryStyle.
  destruct (JS.endsWith (pathname u) "/") eqn:E.
  - now rewrite andb_false_r.
  - rewrite andb_true_r, extname_truthy_basename, (basename_finalSegment _ E).
    now destruct (hasExtension (finalSegment (pathname u))).
Qed.

Lemma href_stripped (u : URL) :
  href (clearHash (clearSearch u)) = site u ++ pathname u.
Proof. unfold href. simpl. now rewrite append_nil_r. Qed.

Lemma not_skippable (h : string) :
  h <> "" ->
  (forall p, In p SKIPPABLE_HREF_PREFIXES -> JS.startsWith h p = false) ->
  isSkippableHref h = false.
Proof.
  intros Hne Hp. unfold isSkippableHref.
  destruct h as [|c h]; [congruence|]. cbn [JS.truthy negb orb].
  destruct (existsb _ SKIPPABLE_HREF_PREFIXES) eqn:E; [|reflexivity].
  apply existsb_exists in E. destruct E as [p [Hin Hs]].
  now rewrite (Hp p Hin) in Hs.
Qed.

(** C6, amended: the anchor rule.  An anchor whose [href] is empty,
    fragment-only, [mailto:], [tel:] or [javascript:] is skipped: the
    element and the state stay as they are.  Take any other anchor
    whose target resolves.  If the target is same-origin, the [href] is
    rewritten to the target's path -- query and fragment dropped, a
    slash appended when the path has no extension and does not end in
    one -- and the target's URL without query and fragment, its path as
    the target has it, is pushed on the queue exactly when it is not
    visited, not queued and not robots-disallowed; the visited set and
    the asset set stay as they are.  If the target is foreign, the
    element and the whole state, asset set included, stay as they
    are. *)
Theorem anchorRule_rewrites_and_enqueues :
  forall (opts : Options) (rootOrigin : string) (rules : RobotsRules)
         (currentUrl : string) (e : Element) (h : string) (s : CrawlState),
    attr "href" e = Some h ->
    ((h = "" \/ exists p, In p SKIPPABLE_HREF_PREFIXES /\ JS.startsWith h p = true) ->
     anchorRule opts rootOrigin rules currentUrl e s = (Normal e, s))
    /\ (h <> "" ->
        (forall p, In p SKIPPABLE_HREF_PREFIXES -> JS.startsWith h p = false) ->
        forall resolved : URL,
          URL_new h (Some currentUrl) = Some resolved ->
          (exists u, URL_new (site resolved ++ pathname resolved) None = Some u) ->
          (respectRobots opts = false -> disallowedPaths rules = []) ->
          (origin resolved = rootOrigin ->
           exists (allowed : bool) (s' : CrawlState),
             isUrlAllowed (site resolved ++ pathname resolved) (disallowedPaths rules)
             = Some allowed
             /\ anchorRule opts rootOrigin rules currentUrl e s
                = (Normal (setAttr "href" (directoryStyle (pathname resolved)) e), s')
             /\ pageQueue s'
                = (if negb (has (site resolved ++ pathname resolved) (visitedPages s))
                      && negb (has (site resolved ++ pathname resolved) (pageQueue s))
                      && allowed
                   then (pageQueue s
                         ++ [(site resolved ++ pathname resolved)%string])%list
                   else pageQueue s)
             /\ visitedPages s' = visitedPages s
             /\ assetSet s' = assetSet s)
          /\ (origin resolved <> rootOrigin ->
              anchorRule opts rootOrigin rules currentUrl e s = (Normal e, s))).
Proof.
  intros opts rootOrigin rules currentUrl e h s Hattr. split.
  { intros Hskipped. unfold anchorRule. rewrite Hattr.
    assert (Hskip : isSkippableHref h = true).
    { destruct Hskipped as [-> | (p & Hin & Hp)]; [reflexivity|].
      unfold isSkippableHref. apply orb_true_iff. right.
      apply existsb_exists. now exists p. }
    now rewrite Hskip. }
  intros Hne Hprefix resolved Hres [u Hu] Hpolicy.
  pose proof (not_skippable h Hne Hprefix) as Hskip.
  set (t := site resolved ++ pathname resolved) in *.
  assert (Hallowed : isUrlAllowed t (disallowedPaths rules)
                     = Some (negb (existsb (patternCovers (pathname u))
                                           (disallowedPaths rules)))).
  { unfold isUrlAllowed. now rewrite Hu. }
  split.
  - intros Ho. eexists. rewrite Hallowed.
    unfold anchorRule. rewrite Hattr, Hskip.
    unfold newURL, bind at 1, orThrow. rewrite Hres. cbn [ret].
    apply String.eqb_eq in Ho. rewrite Ho.
    rewrite href_stripped, prettyPath_directoryStyle. fold t.
    change (pathname (clearHash (clearSearch resolved))) with (pathname resolved).
    unfold shouldAdd, bind, get.
    destruct (has t (visitedPages s)); cbn [negb andb ret];
      [eexists; repeat split; reflexivity|].
    destruct (has t (pageQueue s)); cbn [negb andb ret];
      [eexists; repeat split; reflexivity|].
    destruct (respectRobots opts) eqn:Hr; cbn [negb ret].
    + unfold checkUrlAllowed, orThrow. rewrite Hallowed. cbn [ret].
      destruct (negb (existsb _ _)); cbn [pushQueue ret];
        eexists; repeat split; reflexivity.
    + rewrite (Hpolicy eq_refl). cbn [existsb negb pushQueue ret].
      eexists. repeat split; reflexivity.
  - intros Ho. unfold anchorRule. rewrite Hattr, Hskip.
    unfold newURL, bind, orThrow. rewrite Hres. cbn [ret].
    apply String.eqb_neq in Ho. now rewrite Ho.
Qed.

(* ================================================================== *)
(** ** The asset fetcher *)

Lemma sameAssets_refl (s : CrawlState) : sameAssets s s.
Proof. reflexivity. Qed.

Lemma sameAssets_trans (s1 s2 s3 : CrawlState) :
  sameAssets s1 s2 -> sameAssets s2 s3 -> sameAssets s1 s3.
Proof. unfold sameAssets. congruence. Qed.

Lemma sameAssets_logLine (l : LogLine) : stable sameAssets (logLine l).
Proof. intros s. reflexivity. Qed.

Lemma sameAssets_putFile (p c : string) : stable sameAssets (putFile p c).
Proof. intros s. reflexivity. Qed.

(** The task of one asset changes the output tree by [assetWrite]. *)
Lemma downloadAsset_files (opts : Options) (rootOrigin outputDir assetUrl : string)
      (s : CrawlState) :
  files (snd (downloadAsset opts rootOrigin outputDir assetUrl s))
  = applyWrite (files s) (assetWrite opts rootOrigin outputDir assetUrl).
Proof.
  unfold downloadAsset, assetWrite, tryCatch, bind, newURL, orThrow, doFetch,
    readBody, writeFile.
  destruct (URL_new assetUrl None) as [url|]; [|reflexivity].
  cbn [ret]. destruct (negb (String.eqb (protocol url) "http:")
                       && negb (String.eqb (protocol url) "https:")); [reflexivity|].
  destruct (negb (String.eqb (origin url) rootOrigin)
            && negb (mirrorExternalAssets opts)); [reflexivity|].
  destruct (fetch W assetUrl) as [|r]; [reflexivity|].
  cbn [ret]. destruct (ok r); [|reflexivity].
  cbn [negb ret orThrow]. unfold orThrow.
  destruct (body r) as [buffer|]; [|reflexivity].
  cbn [ret]. destruct (canWriteFile W _); reflexivity.
Qed.

Lemma downloadAssets_files (opts : Options) (rootOrigin outputDir : string)
      (l : list string) (s : CrawlState) :
  files (snd (forEachM (downloadAsset opts rootOrigin outputDir) l s))
  = fold_left applyWrite (map (assetWrite opts rootOrigin outputDir) l) (files s).
Proof.
  revert s. induction l as [|a l IH]; intros s; [reflexivity|].
  cbn [forEachM map fold_left]. unfold bind.
  pose proof (downloadAsset_normal opts rootOrigin outputDir a s) as Hn.
  pose proof (downloadAsset_files opts rootOrigin outputDir a s) as Hf.
  destruct (downloadAsset opts rootOrigin outputDir a s) as [[[]|e] s1];
    simpl in Hn, Hf; [|discriminate].
  now rewrite IH, Hf.
Qed.

Lemma in_paths_filter (p q : string) (tree : list (string * string)) :
  In p (map fst (filter (fun f => negb (String.eqb (fst f) q)) tree))
  <-> In p (map fst tree) /\ p <> q.
Proof.
  rewrite !in_map_iff. split.
  - intros [[p' c] [<- Hin]]. apply filter_In in Hin. destruct Hin as [Hin Hne].
    simpl in *. apply negb_true_iff, String.eqb_neq in Hne.
    split; [now exists (p', c) | exact Hne].
  - intros [[[p' c] [<- Hin]] Hne]. exists (p', c). split; [reflexivity|].
    apply filter_In. split; [exact Hin|]. simpl.
    now apply negb_true_iff, String.eqb_neq.
Qed.

Lemma in_paths_applyWrite (p : string) (tree : list (string * string))
      (w : option (string * string)) :
  In p (map fst (applyWrite tree w))
  <-> In p (map fst tree) \/ exists c, w = Some (p, c).
Proof.
  destruct w as [[q c]|]; simpl.
  - rewrite in_paths_filter. split.
    + intros [<- | [H _]]; [right; now exists c | now left].
    + intros [H | [c' E]].
      * destruct (string_dec q p) as [-> | Hne]; [now left | right; split; congruence].
      * injection E as -> _. now left.
  - split; [now left | intros [H | [c E]]; [exact H | discriminate]].
Qed.

Lemma in_paths_writes (p : string) (ws : list (option (string * string)))
      (tree : list (string * string)) :
  In p (map fst (fold_left applyWrite ws tree))
  <-> In p (map fst tree) \/ exists c, In (Some (p, c)) ws.
Proof.
  revert tree. induction ws as [|w ws IH]; intros tree; simpl.
  - split; [now left | intros [H | [c []]]; exact H].
  - rewrite IH, in_paths_applyWrite. split.
    + intros [[H | [c E]] | [c H]].
      * now left.
      * right. exists c. left. exact E.
      * right. exists c. now right.
    + intros [H | [c [E | H]]].
      * left. now left.
      * left. right. now exists c.
      * right. now exists c.
Qed.

(** C1, amended: asset failures.  The asset phase cannot fail: from any
    state it returns, with the asset set and the visited set as they
    were.  An asset whose fetch is answered with a non-success status
    writes nothing: its task leaves the output tree as it found it.
    The other tasks still run: at the end the tree holds exactly the
    files it held before and the files of the tasks that succeeded.
    The result built next reports [success: true], and its
    [assetsDownloaded] is the size of the asset set -- every discovered
    asset URL, downloaded or not; this is also what a run that returns
    reports. *)
Theorem asset_failures_absorbed :
  forall (opts : Options) (rootOrigin outputDir : string) (s : CrawlState),
    exists s',
      downloadAssets opts rootOrigin outputDir s = (Normal tt, s')
      /\ assetSet s' = assetSet s
      /\ visitedPages s' = visitedPages s
      /\ (forall a r s0,
            fetch W a = Responded r -> ok r = false ->
            assetWrite opts rootOrigin outputDir a = None
            /\ files (snd (downloadAsset opts rootOrigin outputDir a s0)) = files s0)
      /\ (forall p,
            In p (map fst (files s'))
            <-> In p (map fst (files s))
                \/ exists a c, In a (assetSet s)
                               /\ assetWrite opts rootOrigin outputDir a = Some (p, c))
      /\ success (buildResult opts outputDir s') = true
      /\ assetsDownloaded (statistics (buildResult opts outputDir s'))
         = List.length (assetSet s)
      /\ (forall targetUrl r sf,
            cloneWebsite targetUrl opts = Some (Normal r, sf) ->
            success r = true
            /\ assetsDownloaded (statistics r) = List.length (assetSet sf)).
Proof.
  intros opts rootOrigin outputDir s.
  pose proof (downloadAssets_normal opts rootOrigin outputDir s) as Hn.
  pose proof (stable_downloadAssets sameCrawl sameCrawl_refl sameCrawl_trans
                sameCrawl_logLine sameCrawl_putFile opts rootOrigin outputDir s)
    as (Hv & _).
  pose proof (stable_downloadAssets sameAssets sameAssets_refl sameAssets_trans
                sameAssets_logLine sameAssets_putFile opts rootOrigin outputDir s)
    as Ha.
  assert (Hf : files (snd (downloadAssets opts rootOrigin outputDir s))
               = fold_left applyWrite
                   (map (assetWrite opts rootOrigin outputDir) (assetSet s)) (files s)).
  { unfold downloadAssets, bind, get. apply downloadAssets_files. }
  destruct (downloadAssets opts rootOrigin outputDir s) as [[[]|e] s'];
    simpl in Hn, Hv, Ha, Hf; [|discriminate].
  unfold sameAssets in Ha.
  exists s'. split; [reflexivity|]. split; [exact Ha|]. split; [exact Hv|].
  split; [|split; [|split; [|split]]].
  - intros a r s0 Hfetch Hok.
    assert (Hw : assetWrite opts rootOrigin outputDir a = None).
    { unfold assetWrite. destruct (URL_new a None) as [url|]; [|reflexivity].
      destruct (_ && _); [reflexivity|]. destruct (_ && _); [reflexivity|].
      now rewrite Hfetch, Hok. }
    split; [exact Hw|]. now rewrite downloadAsset_files, Hw.
  - intros p. rewrite Hf, in_paths_writes. split.
    + intros [H | [c H]]; [now left|]. right.
      apply in_map_iff in H. destruct H as [a [E Hin]]. now exists a, c.
    + intros [H | [a [c [Hin E]]]]; [now left|]. right. exists c.
      apply in_map_iff. now exists a.
  - reflexivity.
  - simpl. now rewrite Ha.
  - intros targetUrl r sf Hrun. unfold cloneWebsite in Hrun.
    destruct (URL_new targetUrl None) as [root|] eqn:Hroot; [|discriminate].
    destruct (cloneWebsite_run targetUrl opts root Hroot) as (c & s1 & Hrun' & _ & Hres).
    unfold cloneWebsite in Hrun'. rewrite Hroot in Hrun'. rewrite Hrun in Hrun'.
    injection Hrun' as <- <-. destruct (Hres r eq_refl) as [-> _].
    split; reflexivity.
Qed.

(* ================================================================== *)
(** ** Visited pages without a page file *)

(** A page whose fetch is rejected or whose response is not HTML is
    marked visited and leaves the output tree alone. *)
Lemma visitPage_without_file (opts : Options) (rootOrigin outputDir : string)
      (rules : RobotsRules) (u : string) (s : CrawlState) :
  (fetch W u = Rejected
   \/ exists r, fetch W u = Responded r
                /\ JS.includes (match contentType r with Some t => t | None => "" end)
                               "text/html" = false) ->
  exists s',
    visitPage opts rootOrigin outputDir rules u s = (Normal tt, s')
    /\ visitedPages s' = setAdd u (visitedPages s)
    /\ files s' = files s.
Proof.
  intros Hfetch. unfold visitPage, fetchPage, tryCatch, bind, doFetch, addVisited,
    notePageFetch.
  destruct Hfetch as [E | [r [E Htype]]]; rewrite E; cbn [throw ret logLine].
  - eexists. repeat split.
  - unfold processResponse. rewrite Htype. cbn [negb logLine].
    eexists. repeat split.
Qed.

(** A run counts the visited set, which is the list of the page
    fetches it attempted. *)
Lemma cloneWebsite_pagesCloned (targetUrl : string) (opts : Options) (root : URL) :
  URL_new targetUrl None = Some root ->
  exists c s,
    cloneWebsite targetUrl opts = Some (c, s)
    /\ visitedPages s = rev (pageFetches s)
    /\ (forall r, c = Normal r ->
          pagesCloned (statistics r) = List.length (visitedPages s)).
Proof.
  intros Hroot.
  destruct (cloneWebsite_run targetUrl opts root Hroot) as (c & s & Hrun & Hinv & Hres).
  exists c, s. split; [exact Hrun|]. split; [now destruct Hinv|].
  intros r Hc. now destruct (Hres r Hc) as [-> _].
Qed.

(* ================================================================== *)
(** ** The robots parser *)

Lemma allChars_trimStart (test : ascii -> bool) (s : string) :
  allChars test s = true -> allChars test (JS.trimStart s) = true.
Proof.
  induction s as [|c s IH]; [reflexivity|].
  cbn [JS.trimStart]. intros H. destruct (JS.isSpace c); [|exact H].
  apply IH. cbn [allChars] in H. apply andb_true_iff in H. apply H.
Qed.

Lemma trimEnd_cons (c : ascii) (s : string) :
  JS.trimEnd (String c s)
  = match JS.trimEnd s with
    | EmptyString => if JS.isSpace c then EmptyString else String c EmptyString
    | t => String c t
    end.
Proof. reflexivity. Qed.

Lemma allChars_trimEnd (test : ascii -> bool) (s : string) :
  allChars test s = true -> allChars test (JS.trimEnd s) = true.
Proof.
  induction s as [|c s IH]; [reflexivity|].
  rewrite trimEnd_cons. cbn [allChars]. rewrite andb_true_iff. intros [Hc Hs].
  specialize (IH Hs). destruct (JS.trimEnd s) as [|d t].
  - destruct (JS.isSpace c); [reflexivity|]. cbn [allChars]. now rewrite Hc.
  - change (test c && allChars test (String d t) = true). now rewrite Hc, IH.
Qed.

Lemma trimEnd_idem (s : string) : JS.trimEnd (JS.trimEnd s) = JS.trimEnd s.
Proof.
  induction s as [|c s IH]; [reflexivity|].
  rewrite (trimEnd_cons c s). destruct (JS.trimEnd s) as [|d t].
  - destruct (JS.isSpace c) eqn:Ec; [reflexivity|].
    rewrite trimEnd_cons. cbn [JS.trimEnd]. now rewrite Ec.
  - rewrite trimEnd_cons, IH. reflexivity.
Qed.

Lemma trimStart_head (s : string) :
  JS.trimStart s = ""
  \/ exists c r, JS.trimStart s = String c r /\ JS.isSpace c = false.
Proof.
  induction s as [|c s IH]; [now left|].
  cbn [JS.trimStart]. destruct (JS.isSpace c) eqn:Ec; [exact IH|].
  right. now exists c, s.
Qed.

(** [trim] leaves a trimmed string as it is. *)
Lemma trim_idem (s : string) : JS.trim (JS.trim s) = JS.trim s.
Proof.
  unfold JS.trim.
  destruct (trimStart_head s) as [E | (c & r & E & Hc)]; rewrite E; [reflexivity|].
  assert (Hhead : exists t, JS.trimEnd (String c r) = String c t).
  { rewrite trimEnd_cons. destruct (JS.trimEnd r) as [|d t]; [|eauto].
    rewrite Hc. eauto. }
  destruct Hhead as [t Ht].
  assert (Hs : JS.trimStart (JS.trimEnd (String c r)) = JS.trimEnd (String c r)).
  { rewrite Ht. cbn [JS.trimStart]. now rewrite Hc. }
  rewrite Hs. apply trimEnd_idem.
Qed.

(** The value of a directive is the text between the first and the
    second colon of the line, trimmed. *)
Lemma directiveValue_field (line : string) :
  allChars (fun a => negb (Ascii.eqb a ":")) (directiveValue line) = true
  /\ JS.trim (directiveValue line) = directiveValue line.
Proof.
  unfold directiveValue. split; [|apply trim_idem].
  unfold JS.trim. apply allChars_trimEnd, allChars_trimStart.
  destruct (nth_in_or_default 1 (JS.splitChar ":" line) EmptyString) as [H | ->];
    [|reflexivity].
  now apply (splitChar_pieces ":" line).
Qed.

Lemma robotsLine_paths (userAgent : string) (st : option string * list string * Z)
      (line : string) :
  Forall directiveField (snd (fst st)) ->
  Forall directiveField (snd (fst (robotsLine userAgent st line))).
Proof.
  destruct st as [[cur dis] delay]. unfold robotsLine. cbn [fst snd]. intros H.
  destruct (JS.startsWith line "User-agent:"); [exact H|].
  destruct (_ && JS.startsWith line "Disallow:").
  - cbn [fst snd]. destruct (JS.truthy (directiveValue line)) eqn:T; [|exact H].
    apply Forall_app. split; [exact H|]. constructor; [|constructor].
    destruct (directiveValue_field line) as [H1 H2].
    split; [|split; assumption]. intros E. rewrite E in T. discriminate.
  - destruct (_ && JS.startsWith line "Crawl-delay:"); exact H.
Qed.

Lemma fold_robotsLine_paths (userAgent : string) (lines : list string)
      (st : option string * list string * Z) :
  Forall directiveField (snd (fst st)) ->
  Forall directiveField (snd (fst (fold_left (robotsLine userAgent) lines st))).
Proof.
  revert st. induction lines as [|line lines IH]; intros st H; [exact H|].
  cbn [fold_left]. apply IH. now apply robotsLine_paths.
Qed.

(** X1: Every disallowed path of a parsed policy is the first colon-free
    field after the directive name: it is not empty, has no white space
    around it and holds no colon, whatever the line held after a second
    colon. *)
Theorem parseRobots_paths_are_first_fields :
  forall (robotsText userAgent p : string),
    In p (disallowedPaths (parseRobotsForUserAgent robotsText userAgent)) ->
    p <> ""
    /\ allChars (fun a => negb (Ascii.eqb a ":")) p = true
    /\ JS.trim p = p.
Proof.
  intros robotsText userAgent p Hin. unfold parseRobotsForUserAgent in Hin.
  pose proof (fold_robotsLine_paths userAgent
                (map JS.trim (JS.splitChar "010"%char robotsText))
                (None, [], 0%Z) (Forall_nil _)) as H.
  destruct (fold_left _ _ _) as [[cur dis] delay]. cbn [fst snd] in H.
  cbn [disallowedPaths] in Hin. rewrite Forall_forall in H. exact (H p Hin).
Qed.

Lemma robotsLine_no_group (userAgent line : string) :
  opensGroupFor userAgent line = false ->
  robotsLine userAgent (None, [], 0%Z) line = (None, [], 0%Z).
Proof.
  unfold opensGroupFor, robotsLine. intros H.
  destruct (JS.startsWith line "User-agent:"); [|reflexivity].
  cbn [andb] in H. now rewrite H.
Qed.

(** X2: A [robots.txt] without a [User-agent] line that names [*] or the
    crawler gives the empty policy: [Disallow] and [Crawl-delay] lines
    outside such a group, or before the first one, are ignored. *)
Theorem parseRobots_without_group_is_empty :
  forall (robotsText userAgent : string),
    (forall line, In line (robotsLines robotsText) ->
                  opensGroupFor userAgent line = false) ->
    parseRobotsForUserAgent robotsText userAgent = emptyRules.
Proof.
  intros robotsText userAgent H. unfold parseRobotsForUserAgent.
  fold (robotsLines robotsText).
  assert (E : fold_left (robotsLine userAgent) (robotsLines robotsText) (None, [], 0%Z)
              = (None, [], 0%Z)).
  { induction (robotsLines robotsText) as [|line lines IH]; [reflexivity|].
    cbn [fold_left]. rewrite robotsLine_no_group by (apply H; now left).
    apply IH. intros l Hl. apply H. now right. }
  now rewrite E.
Qed.

Lemma includes_app (a b p : string) : JS.includes (a ++ p ++ b) p = true.
Proof.
  induction a as [|c a IH].
  - cbn [append]. destruct (p ++ b) as [|x r] eqn:E.
    + destruct p; [reflexivity | discriminate].
    + cbn [JS.includes]. rewrite <- E.
      assert (Hp : String.prefix p (p ++ b) = true)
        by (apply startsWith_iff; now exists b).
      now rewrite Hp.
  - cbn [append JS.includes]. change (String c (a ++ p ++ b)) with (String c a ++ p ++ b).
    now rewrite IH, orb_true_r.
Qed.

(** X3: A pattern that ends in a slash covers the path equal to it and
    nothing below it: the test for what lies below asks for a second
    slash, which a path without an empty segment does not have.  So
    [Disallow: /private/] excludes [/private/] alone. *)
Theorem pattern_with_trailing_slash_covers_itself_only :
  forall (pathname p : string),
    JS.includes pathname "//" = false ->
    patternCovers pathname (p ++ "/") = String.eqb pathname (p ++ "/").
Proof.
  intros pathname p Hno. unfold patternCovers.
  assert (Hstar : JS.endsWith (p ++ "/") "*" = false).
  { rewrite endsWith_app_inv by discriminate. reflexivity. }
  rewrite Hstar.
  destruct (JS.startsWith pathname ((p ++ "/") ++ "/")) eqn:E;
    [|now rewrite orb_false_r].
  apply startsWith_iff in E. destruct E as [r Hr].
  rewrite Hr in Hno. rewrite !append_assoc in Hno.
  change ("/" ++ "/" ++ r) with ("//" ++ r) in Hno.
  now rewrite includes_app in Hno.
Qed.

(* ================================================================== *)
(** ** Where the assets go *)

Lemma endsWith_plain (s : string) (c : ascii) :
  allChars (fun a => negb (Ascii.eqb a c)) s = true ->
  JS.endsWith s (String c "") = false.
Proof.
  induction s as [|a s IH]; [reflexivity|].
  cbn [allChars JS.endsWith]. rewrite andb_true_iff, negb_true_iff.
  intros [Ha Hs]. rewrite (IH Hs), orb_false_r.
  destruct (String.eqb (String a s) (String c "")) eqn:E; [|reflexivity].
  apply String.eqb_eq in E. injection E as -> _. now rewrite Ascii.eqb_refl in Ha.
Qed.

Lemma length_append (a b : string) :
  String.length (a ++ b) = String.length a + String.length b.
Proof. induction a as [|c a IH]; simpl; [reflexivity | now rewrite IH]. Qed.

(** The file name that [localizeAssetPath] makes up: six characters of
    the digest, a dash and the flattened path.  It holds no slash. *)
Lemma assetName_plain (u : URL) :
  exists name : string,
    localizeAssetPath u = "assets/" ++ name
    /\ allChars (fun a => negb (Ascii.eqb a "/")) name = true
    /\ 7 <= String.length name.
Proof.
  unfold localizeAssetPath.
  set (h := JS.take 6 (MD5.hex (href u))).
  set (urlPath := JS.join "_" (filter JS.truthy (JS.splitChar "/" (pathname u)))).
  set (base := Path.basename (if JS.truthy urlPath then urlPath else "asset")).
  exists (h ++ "-" ++ base).
  destruct (md5_hex_shape (href u)) as [Hlen Hhex].
  assert (Hh : String.length h = 6) by (apply length_take; lia).
  assert (Hx : allChars isHexDigit h = true) by (apply allChars_take; exact Hhex).
  clear Hlen Hhex.
  assert (Hhs : allChars (fun a => negb (Ascii.eqb a "/")) h = true).
  { clear - Hx. induction h as [|c h IH]; [reflexivity|].
    cbn [allChars] in *. apply andb_true_iff in Hx. destruct Hx as [Hc Hx].
    rewrite (IH Hx), andb_true_r.
    destruct (Ascii.eqb c "/") eqn:E; [|reflexivity].
    apply Ascii.eqb_eq in E. subst c. discriminate. }
  assert (Hbase : allChars (fun a => negb (Ascii.eqb a "/")) base = true).
  { unfold base. destruct (JS.truthy urlPath) eqn:T.
    - rewrite basename_plain; [| exact T |].
      + apply allChars_join; [reflexivity|]. intros x Hin. apply filter_In in Hin.
        apply (splitChar_pieces "/" (pathname u)). apply Hin.
      + apply allChars_join; [reflexivity|]. intros x Hin. apply filter_In in Hin.
        apply (splitChar_pieces "/" (pathname u)). apply Hin.
    - reflexivity. }
  split; [reflexivity|]. split.
  - rewrite !allChars_app, Hhs, Hbase. reflexivity.
  - rewrite !length_append, Hh. change (String.length "-") with 1. lia.
Qed.

Lemma ordinaryName_long (x : string) : 3 <= String.length x -> ordinaryName x = true.
Proof.
  intros H. unfold ordinaryName.
  destruct (String.eqb x "") eqn:E1;
    [apply String.eqb_eq in E1; subst x; simpl in H; lia|].
  destruct (String.eqb x ".") eqn:E2;
    [apply String.eqb_eq in E2; subst x; simpl in H; lia|].
  destruct (String.eqb x "..") eqn:E3;
    [apply String.eqb_eq in E3; subst x; simpl in H; lia|].
  reflexivity.
Qed.

(** X4: The file of an asset lies in the directory [assets] directly under
    the output root, whatever the asset's URL: the path that is joined
    onto the root is [assets/<name>] with a name that holds no slash and
    is neither [.] nor [..]. *)
Theorem asset_file_directly_in_assets_dir :
  forall (outputDir : string) (u : URL),
  exists name : string,
    localizeAssetPath u = "assets/" ++ name
    /\ ordinaryName name = true
    /\ allChars (fun a => negb (Ascii.eqb a "/")) name = true
    /\ Path.join outputDir (localizeAssetPath u)
       = pathOf (Path.isAbsolute outputDir)
                (Path.segments outputDir ++ ["assets"; name]).
Proof.
  intros outputDir u. destruct (assetName_plain u) as (name & E & Hplain & Hlen).
  exists name. rewrite E.
  assert (Hord : ordinaryName name = true) by (apply ordinaryName_long; lia).
  assert (Hne : name <> "") by (intros ->; simpl in Hlen; lia).
  assert (Hsplit : JS.splitChar "/" ("assets/" ++ name) = ["assets"; name]).
  { change ("assets/" ++ name) with ("assets" ++ String "/" name).
    rewrite splitChar_app, (splitChar_single "/" name Hplain). reflexivity. }
  split; [reflexivity|]. split; [exact Hord|]. split; [exact Hplain|].
  rewrite join_inside; rewrite ?Hsplit.
  - cbn [filter]. now rewrite Hord.
  - intros x [<- | [<- | []]]; [discriminate|].
    intros ->. discriminate.
  - reflexivity.
  - change ("assets/" ++ name) with ("assets/" ++ name).
    rewrite endsWith_app_inv by exact Hne. now apply endsWith_plain.
  - cbn [filter]. rewrite Hord. discriminate.
Qed.

(* ================================================================== *)
(** ** Rewritten links and page files *)

(** X5: A link that the anchor rule has rewritten names the file of its
    target: the page mapper sends the rewritten path and the target's
    own path to the same file, [index.html] in the directory that the
    rewritten path names when a slash was appended. *)
Theorem rewritten_href_maps_to_target_file :
  forall (outputDir : string) (u u' : URL),
    pathname u' = prettyPath u ->
    mapTargetUrlToFilePath outputDir u' = mapTargetUrlToFilePath outputDir u.
Proof.
  intros outputDir u u' Hp. unfold mapTargetUrlToFilePath. rewrite Hp.
  unfold prettyPath.
  destruct (JS.endsWith (pathname u) "/") eqn:Hend.
  - rewrite andb_false_r. now rewrite Hend.
  - destruct (JS.truthy (Path.extname (pathname u))) eqn:Hext; cbn [negb andb].
    + now rewrite Hend, Hext.
    + rewrite endsWith_app, append_assoc. reflexivity.
Qed.

(* ================================================================== *)
(** ** What the rewriter leaves alone *)

Lemma getAttr_putAttr_other (a name value : string) (l : list (string * string)) :
  a <> name -> getAttr a (putAttr name value l) = getAttr a l.
Proof.
  intros Hne. induction l as [|[k v] l IH]; cbn [putAttr getAttr].
  - destruct (String.eqb name a) eqn:E; [|reflexivity].
    apply String.eqb_eq in E. congruence.
  - destruct (String.eqb k name) eqn:E; cbn [getAttr].
    + apply String.eqb_eq in E. subst k.
      destruct (String.eqb name a) eqn:E'; [|reflexivity].
      apply String.eqb_eq in E'. congruence.
    + now rewrite IH.
Qed.

Lemma getAttr_putAttr_same (name value : string) (l : list (string * string)) :
  getAttr name (putAttr name value l) = Some value.
Proof.
  induction l as [|[k v] l IH]; cbn [putAttr getAttr].
  - now rewrite String.eqb_refl.
  - destruct (String.eqb k name) eqn:E; cbn [getAttr]; now rewrite E.
Qed.

Lemma attr_removeAttr_other (a : string) (names : list string) (e : Element) :
  ~ In a names -> attr a (removeAttr names e) = attr a e.
Proof.
  intros Hno. unfold attr, removeAttr. cbn [attrs].
  induction (attrs e) as [|[k v] l IH]; [reflexivity|].
  cbn [filter fst getAttr].
  destruct (existsb (String.eqb k) names) eqn:E; cbn [negb getAttr].
  - destruct (String.eqb k a) eqn:Ek; [|exact IH].
    apply String.eqb_eq in Ek. subst k. apply existsb_has in E. contradiction.
  - now rewrite IH.
Qed.

Lemma attr_removeAttr_in (a : string) (names : list string) (e : Element) :
  In a names -> attr a (removeAttr names e) = None.
Proof.
  intros Hin. unfold attr, removeAttr. cbn [attrs].
  induction (attrs e) as [|[k v] l IH]; [reflexivity|].
  cbn [filter fst].
  destruct (existsb (String.eqb k) names) eqn:E; cbn [negb getAttr]; [exact IH|].
  destruct (String.eqb k a) eqn:Ek; [|exact IH].
  apply String.eqb_eq in Ek. subst k.
  apply existsb_has in Hin. unfold has in Hin. congruence.
Qed.

Lemma sameElsewhere_refl (e : Element) : sameElsewhere e e.
Proof. now split. Qed.

Lemma sameElsewhere_trans (e1 e2 e3 : Element) :
  sameElsewhere e1 e2 -> sameElsewhere e2 e3 -> sameElsewhere e1 e3.
Proof.
  intros [T1 A1] [T2 A2]. split; [congruence|].
  intros a Ha. now rewrite A2, A1.
Qed.

Lemma sameElsewhere_setAttr (name value : string) (e : Element) :
  In name REWRITTEN_ATTRS -> sameElsewhere e (setAttr name value e).
Proof.
  intros Hin. split; [reflexivity|]. intros a Ha. unfold attr, setAttr. cbn [attrs].
  apply getAttr_putAttr_other. intros ->. contradiction.
Qed.

Lemma sameElsewhere_removeAttr (e : Element) :
  sameElsewhere e (removeAttr LAZY_ATTRS e).
Proof.
  split; [reflexivity|]. intros a Ha. apply attr_removeAttr_other.
  intros Hin. apply Ha. unfold LAZY_ATTRS, REWRITTEN_ATTRS in *. simpl in *.
  destruct Hin as [<- | [<- | [<- | [<- | []]]]]; auto 10.
Qed.

(** What a computation returns, when it returns. *)
Lemma bind_normal {A B} (m : M A) (k : A -> M B) (s s' : CrawlState) (b : B) :
  bind m k s = (Normal b, s') ->
  exists a s1, m s = (Normal a, s1) /\ k a s1 = (Normal b, s').
Proof.
  unfold bind. destruct (m s) as [[a|e] s1]; [eauto | discriminate].
Qed.

Lemma mapM_Forall2 {A B} (R : A -> B -> Prop) (f : A -> M B) (l : list A) :
  (forall a s b s', f a s = (Normal b, s') -> R a b) ->
  forall s bs s', mapM f l s = (Normal bs, s') -> Forall2 R l bs.
Proof.
  intros Hf. induction l as [|a l IH]; intros s bs s' H; cbn [mapM] in H.
  - injection H as <- _. constructor.
  - apply bind_normal in H. destruct H as (b & s1 & Hb & H).
    apply bind_normal in H. destruct H as (bs' & s2 & Hbs & H).
    injection H as <- _. constructor; [now apply (Hf a s b s1) | now apply (IH s1 bs' s2)].
Qed.

Lemma Forall2_chain {A} (R1 R2 R3 : A -> A -> Prop) (l1 l2 l3 : list A) :
  (forall a b c, R1 a b -> R2 b c -> R3 a c) ->
  Forall2 R1 l1 l2 -> Forall2 R2 l2 l3 -> Forall2 R3 l1 l3.
Proof.
  intros Hc H1. revert l3. induction H1 as [|a b l1 l2 Hab H1 IH]; intros l3 H2.
  - inversion H2. constructor.
  - inversion H2 as [|b' c l2' l3' Hbc H2']. subst. constructor; eauto.
Qed.

Lemma imgAttrRule_returns (currentUrl attrName : string)
      (e e' : Element) (s s' : CrawlState) :
  imgAttrRule currentUrl attrName e s = (Normal e', s') ->
  e' = e \/ exists v, e' = setAttr "src" v e.
Proof.
  unfold imgAttrRule. destruct (attr attrName e) as [value|];
    [|intros H; injection H as <- _; now left].
  destruct (negb (JS.truthy value)); [intros H; injection H as <- _; now left|].
  destruct (_ && _).
  - unfold tryCatch.
    match goal with |- context [match ?m s with _ => _ end] =>
      destruct (m s) as [[a|x] s1] eqn:Hm end.
    + intros H. injection H as <- <-.
      apply bind_normal in Hm. destruct Hm as (d & s2 & _ & Hm).
      apply bind_normal in Hm. destruct Hm as (u & s3 & _ & Hm).
      apply bind_normal in Hm. destruct Hm as ([] & s4 & _ & Hm).
      injection Hm as <- _. right. eauto.
    + intros H. apply bind_normal in H. destruct H as ([] & s2 & _ & H).
      injection H as <- _. now left.
  - destruct (negb (JS.startsWith value "data:"));
      [|intros H; injection H as <- _; now left].
    intros H. apply bind_normal in H. destruct H as (u & s2 & _ & H).
    apply bind_normal in H. destruct H as ([] & s3 & _ & H).
    injection H as <- _. right. eauto.
Qed.

Lemma imgAttrRule_sameElsewhere (currentUrl attrName : string)
      (e e' : Element) (s s' : CrawlState) :
  imgAttrRule currentUrl attrName e s = (Normal e', s') -> sameElsewhere e e'.
Proof.
  intros H. apply imgAttrRule_returns in H.
  destruct H as [-> | [v ->]]; [apply sameElsewhere_refl|].
  apply sameElsewhere_setAttr. simpl. auto.
Qed.

(** What [imgRule] returns: the lazy-loading attributes are gone, the
    rest is as [sameElsewhere] says. *)
Lemma imgRule_returns (currentUrl : string) (e e' : Element) (s s' : CrawlState) :
  imgRule currentUrl e s = (Normal e', s') ->
  sameElsewhere e e' /\ forall a, In a LAZY_ATTRS -> attr a e' = None.
Proof.
  unfold imgRule. intros H.
  apply bind_normal in H. destruct H as (e1 & s1 & H1 & H).
  apply bind_normal in H. destruct H as (e2 & s2 & H2 & H).
  apply bind_normal in H. destruct H as (e3 & s3 & H3 & H).
  injection H as <- _.
  apply imgAttrRule_sameElsewhere in H1, H2.
  assert (K3 : sameElsewhere e2 e3).
  { destruct (attr "srcset" e2) as [srcset|];
      [|injection H3 as <- _; apply sameElsewhere_refl].
    destruct (JS.truthy srcset); [|injection H3 as <- _; apply sameElsewhere_refl].
    apply bind_normal in H3. destruct H3 as (parts & s4 & _ & H3).
    injection H3 as <- _. apply sameElsewhere_setAttr. simpl. auto. }
  split.
  - eapply sameElsewhere_trans; [exact H1|].
    eapply sameElsewhere_trans; [exact H2|].
    eapply sameElsewhere_trans; [exact K3|].
    apply sameElsewhere_removeAttr.
  - intros a Ha. now apply attr_removeAttr_in.
Qed.

Lemma resourceRule_sameElsewhere (currentUrl attrName : string)
      (e e' : Element) (s s' : CrawlState) :
  In attrName REWRITTEN_ATTRS ->
  resourceRule currentUrl attrName e s = (Normal e', s') -> sameElsewhere e e'.
Proof.
  intros Hin. unfold resourceRule.
  destruct (attr attrName e) as [value|];
    [|intros H; injection H as <- _; apply sameElsewhere_refl].
  destruct (_ || _); [intros H; injection H as <- _; apply sameElsewhere_refl|].
  intros H. apply bind_normal in H. destruct H as (u & s2 & _ & H).
  apply bind_normal in H. destruct H as ([] & s3 & _ & H).
  injection H as <- _. now apply sameElsewhere_setAttr.
Qed.

Lemma anchorRule_sameElsewhere (opts : Options) (rootOrigin : string)
      (rules : RobotsRules) (currentUrl : string)
      (e e' : Element) (s s' : CrawlState) :
  anchorRule opts rootOrigin rules currentUrl e s = (Normal e', s') ->
  sameElsewhere e e'.
Proof.
  unfold anchorRule.
  destruct (attr "href" e) as [h|];
    [|intros H; injection H as <- _; apply sameElsewhere_refl].
  destruct (isSkippableHref h); [intros H; injection H as <- _; apply sameElsewhere_refl|].
  intros H. apply bind_normal in H. destruct H as (u & s2 & _ & H).
  destruct (String.eqb (origin u) rootOrigin);
    [|injection H as <- _; apply sameElsewhere_refl].
  apply bind_normal in H. destruct H as (add & s3 & _ & H).
  apply bind_normal in H. destruct H as ([] & s4 & _ & H).
  injection H as <- _. apply sameElsewhere_setAttr. simpl. auto.
Qed.

(** One pass of [each]: the rule on the selected elements, the others
    as they are. *)
Lemma each_Forall2 (R : Element -> Element -> Prop) (tagName : string)
      (required : option string) (rule : Element -> M Element) (doc doc' : Document)
      (s s' : CrawlState) :
  (forall e s1 e' s2, rule e s1 = (Normal e', s2) -> R e e') ->
  each tagName required rule doc s = (Normal doc', s') ->
  Forall2 (fun e e' => (tag e = tagName /\ R e e')
                       \/ (e' = e /\ (required = None -> tag e <> tagName)))
          doc doc'.
Proof.
  intros Hrule. unfold each. apply mapM_Forall2.
  intros e s1 e' s2. destruct (String.eqb (tag e) tagName) eqn:E.
  - apply String.eqb_eq in E. cbn [andb].
    destruct required as [a|].
    + destruct (attr a e).
      * intros H. left. split; [exact E | now apply (Hrule e s1 e' s2)].
      * intros H. injection H as <- _. right. split; [reflexivity | discriminate].
    + intros H. left. split; [exact E | now apply (Hrule e s1 e' s2)].
  - apply String.eqb_neq in E. cbn [andb]. intros H. injection H as <- _.
    right. now split.
Qed.

(** X6: The rewriter keeps the document's elements, in their order and with
    their tags.  Elements other than [img], [link], [script] and [a] come
    out as they went in; on the four, no attribute is touched other than
    [src], [srcset], [href] and the four lazy-loading attributes, and an
    image comes out without the latter. *)
Theorem rewriteDocument_keeps_structure :
  forall (opts : Options) (rootOrigin : string) (rules : RobotsRules)
         (currentUrl : string) (doc doc' : Document) (s s' : CrawlState),
    rewriteDocument opts rootOrigin rules currentUrl doc s = (Normal doc', s') ->
    Forall2 (fun e e' =>
               tag e' = tag e
               /\ (forall a, ~ In a REWRITTEN_ATTRS -> attr a e' = attr a e)
               /\ (~ In (tag e) REWRITTEN_TAGS -> e' = e)
               /\ (tag e = "img" -> forall a, In a LAZY_ATTRS -> attr a e' = None))
            doc doc'.
Proof.
  intros opts rootOrigin rules currentUrl doc doc' s s' H. unfold rewriteDocument in H.
  apply bind_normal in H. destruct H as (d1 & s1 & H1 & H).
  apply bind_normal in H. destruct H as (d2 & s2 & H2 & H).
  apply bind_normal in H. destruct H as (d3 & s3 & H3 & H4).
  apply (each_Forall2
           (fun e e' => sameElsewhere e e'
                        /\ forall a, In a LAZY_ATTRS -> attr a e' = None)) in H1;
    [|intros e sa e' sb; apply imgRule_returns].
  apply (each_Forall2 sameElsewhere) in H2;
    [|intros e sa e' sb; apply resourceRule_sameElsewhere; simpl; auto].
  apply (each_Forall2 sameElsewhere) in H3;
    [|intros e sa e' sb; apply resourceRule_sameElsewhere; simpl; auto].
  apply (each_Forall2 sameElsewhere) in H4;
    [|intros e sa e' sb; apply anchorRule_sameElsewhere].
  set (step := fun (t : string) (e e' : Element) =>
                 sameElsewhere e e' /\ (tag e <> t -> e' = e)).
  assert (Hstep : forall (t : string) (o : option string) (l l' : Document),
            Forall2 (fun e e' => (tag e = t /\ sameElsewhere e e')
                                 \/ (e' = e /\ (o = None -> tag e <> t))) l l' ->
            Forall2 (step t) l l').
  { intros t o l l'. apply Forall2_impl. intros e e' [[Ht Hk] | [-> _]].
    - split; [exact Hk | congruence].
    - split; [apply sameElsewhere_refl | reflexivity]. }
  apply Hstep in H2, H3, H4.
  assert (H23 : Forall2 (fun e e' => sameElsewhere e e'
                           /\ (tag e <> "link" -> tag e <> "script" -> e' = e)) d1 d3).
  { eapply Forall2_chain; [|exact H2|exact H3].
    intros a b c [K1 U1] [K2 U2]. split.
    - eapply sameElsewhere_trans; [exact K1 | exact K2].
    - intros N1 N2. pose proof (U1 N1) as E1. subst b. auto. }
  assert (H234 : Forall2 (fun e e' => sameElsewhere e e'
                           /\ (tag e <> "link" -> tag e <> "script" -> tag e <> "a"
                               -> e' = e)) d1 doc').
  { eapply Forall2_chain; [|exact H23|exact H4].
    intros a b c [K1 U1] [K2 U2]. split.
    - eapply sameElsewhere_trans; [exact K1 | exact K2].
    - intros N1 N2 N3. pose proof (U1 N1 N2) as E1. subst b. auto. }
  clear H2 H3 H4 H23.
  eapply Forall2_chain; [|exact H1|exact H234].
  intros e e1 e' He1 [K U]. cbv beta in *.
  destruct He1 as [[Timg [K1 L1]] | [-> Hnot]].
  - assert (E : e' = e1).
    { destruct K1 as [T1 _]. apply U; rewrite T1, Timg; discriminate. }
    subst e'. destruct K1 as [T1 A1]. split; [exact T1|]. split; [exact A1|].
    split; [|intros _; exact L1].
    intros Hno. exfalso. apply Hno. rewrite Timg. simpl. auto.
  - destruct K as [T A]. split; [exact T|]. split; [exact A|]. split.
    + intros Hno. apply U; intros E; apply Hno; rewrite E; simpl; auto.
    + intros Timg. now destruct (Hnot eq_refl).
Qed.

(* ================================================================== *)
(** ** Lazy images *)

Lemma setAdd_in (x : string) (l : list string) : In x (setAdd x l).
Proof.
  unfold setAdd. destruct (has x l) eqn:E; [now apply existsb_has|].
  apply in_or_app. right. now left.
Qed.

Lemma setAdd_incl (x : string) (l : list string) : incl l (setAdd x l).
Proof.
  unfold setAdd. destruct (has x l); [apply incl_refl | now apply incl_appl, incl_refl].
Qed.

Lemma assetsKept_refl (s : CrawlState) : assetsKept s s.
Proof. apply incl_refl. Qed.

Lemma assetsKept_trans (s1 s2 s3 : CrawlState) :
  assetsKept s1 s2 -> assetsKept s2 s3 -> assetsKept s1 s3.
Proof. apply incl_tran. Qed.

(** The [srcset] step of the image rule keeps the asset set's members. *)
Lemma srcset_assetsKept (currentUrl : string) (entries : list string) :
  stable assetsKept (mapM (srcsetEntry currentUrl) entries).
Proof.
  apply stable_mapM; [exact assetsKept_refl | exact assetsKept_trans |].
  intros entry. apply stable_srcsetEntry;
    try (intros; intros s; apply incl_refl);
    [exact assetsKept_refl | exact assetsKept_trans |].
  intros u s. apply setAdd_incl.
Qed.

(** X7: An image that carries its real address in [data-src] ends up with
    that address in [src]: the rule looks at [src] first and at
    [data-src] second, both write [src], and [data-src] is removed at
    the end.  The image behind [data-src] is among the assets to
    download. *)
Theorem lazy_image_source_wins :
  forall (currentUrl : string) (e e' : Element) (v : string) (u : URL)
         (s s' : CrawlState),
    attr "data-src" e = Some v ->
    JS.truthy v = true ->
    JS.includes v "/_next/image" && JS.includes v "url=" = false ->
    JS.startsWith v "data:" = false ->
    URL_new v (Some currentUrl) = Some u ->
    imgRule currentUrl e s = (Normal e', s') ->
    attr "src" e' = Some (localizeAssetPath u)
    /\ attr "data-src" e' = None
    /\ In (href u) (assetSet s').
Proof.
  intros currentUrl e e' v u s s' Hv Ht Hnext Hdata Hu H. unfold imgRule in H.
  apply bind_normal in H. destruct H as (e1 & s1 & H1 & H).
  apply bind_normal in H. destruct H as (e2 & s2 & H2 & H).
  apply bind_normal in H. destruct H as (e3 & s3 & H3 & H).
  injection H as <- <-.
  assert (Hv1 : attr "data-src" e1 = Some v).
  { apply imgAttrRule_returns in H1. destruct H1 as [-> | [x ->]]; [exact Hv|].
    unfold attr, setAttr. cbn [attrs].
    rewrite getAttr_putAttr_other; [exact Hv | discriminate]. }
  unfold imgAttrRule in H2. rewrite Hv1, Ht, Hnext, Hdata in H2. cbn [negb] in H2.
  unfold newURL, orThrow in H2. rewrite Hu in H2.
  cbv [bind ret addAsset] in H2. injection H2 as <- <-.
  set (e2 := setAttr "src" (localizeAssetPath u) e1) in *.
  assert (Hsrc2 : attr "src" e2 = Some (localizeAssetPath u))
    by apply getAttr_putAttr_same.
  assert (Hsrc3 : attr "src" e3 = Some (localizeAssetPath u)
                  /\ In (href u) (assetSet s3)).
  { destruct (attr "srcset" e2) as [srcset|];
      [|injection H3 as <- <-; split; [exact Hsrc2 | apply setAdd_in]].
    destruct (JS.truthy srcset);
      [|injection H3 as <- <-; split; [exact Hsrc2 | apply setAdd_in]].
    apply bind_normal in H3. destruct H3 as (parts & s4 & H3 & H4).
    injection H4 as <- <-. split.
    - unfold attr, setAttr. cbn [attrs].
      rewrite getAttr_putAttr_other; [exact Hsrc2 | discriminate].
    - pose proof (srcset_assetsKept currentUrl (JS.splitChar "," srcset)) as Hk.
      match type of H3 with ?m ?s0 = _ => specialize (Hk s0) end.
      rewrite H3 in Hk. apply Hk. cbn [assetSet]. apply setAdd_in. }
  destruct Hsrc3 as [Hsrc3 Hin]. split; [|split; [|exact Hin]].
  - rewrite attr_removeAttr_other; [exact Hsrc3|].
    simpl. intros [E | [E | [E | [E | []]]]]; discriminate E.
  - apply attr_removeAttr_in. simpl. auto.
Qed.

(* ================================================================== *)
(** ** What the statistics say *)

(** X8: The statistics of a run that returns, for a page budget that is not
    negative: [pagesCloned] is within the budget, [maxPagesReached] says
    that it is equal to the budget, and when it is not reached the crawl
    has stopped because nothing was left in the queue. *)
Theorem statistics_tell_budget_and_completion :
  forall (targetUrl : string) (opts : Options) (root : URL)
         (r : CloneResult) (s : CrawlState),
    URL_new targetUrl None = Some root ->
    (0 <= maxPages opts)%Z ->
    cloneWebsite targetUrl opts = Some (Normal r, s) ->
    success r = true
    /\ outputPath r = Path.join (cwd W) (outDir opts)
    /\ robotsRespected (statistics r) = respectRobots opts
    /\ (Z.of_nat (pagesCloned (statistics r)) <= maxPages opts)%Z
    /\ (maxPagesReached (statistics r) = true
        <-> Z.of_nat (pagesCloned (statistics r)) = maxPages opts)
    /\ (maxPagesReached (statistics r) = false -> pageQueue s = []).
Proof.
  intros targetUrl opts root r s Hroot Hmax Hrun.
  destruct (cloneWebsite_run targetUrl opts root Hroot) as (c & s0 & Hrun0 & Hinv & Hres).
  rewrite Hrun in Hrun0. injection Hrun0 as <- <-.
  destruct (Hres r eq_refl) as [-> Hstop].
  pose proof (CrawlInv_now _ _ _ _ Hinv) as (Hbudget & _ & _). cbn [fst] in Hbudget.
  unfold buildResult. cbn [success outputPath statistics robotsRespected pagesCloned
                           maxPagesReached].
  split; [reflexivity|]. split; [reflexivity|]. split; [reflexivity|].
  split; [lia|]. split.
  - rewrite Z.geb_leb, Z.leb_le. lia.
  - rewrite Z.geb_leb, Z.leb_gt. intros Hlt. unfold loopCondition in Hstop.
    destruct (pageQueue s); [reflexivity|]. cbn [andb] in Hstop.
    apply Z.ltb_ge in Hstop. lia.
Qed.

Lemma crawlFuel_two (opts : Options) :
  crawlFuel opts = S (S (Z.to_nat (maxPages opts))).
Proof. unfold crawlFuel. now rewrite Nat.add_comm. Qed.

(** X9: With a page budget of zero (or below) nothing is crawled, and yet
    the run prepares -- empties -- the output directory, whatever files
    it held before, and reports success, with the budget reached. *)
Theorem zero_budget_empties_directory_and_succeeds :
  forall (targetUrl : string) (opts : Options) (root : URL),
    URL_new targetUrl None = Some root ->
    (maxPages opts <= 0)%Z ->
    (1 <= concurrency opts)%Z ->
    canEmptyDir W (Path.join (cwd W) (outDir opts)) = true ->
    exists r s,
      cloneWebsite targetUrl opts = Some (Normal r, s)
      /\ success r = true
      /\ pagesCloned (statistics r) = 0
      /\ assetsDownloaded (statistics r) = 0
      /\ maxPagesReached (statistics r) = true
      /\ pageFetches s = []
      /\ files s = []
      /\ pageQueue s = [href root].
Proof.
  intros targetUrl opts root Hroot Hmax Hconc Hdir.
  unfold cloneWebsite. rewrite Hroot, resolve_policy.
  assert (Hc : (concurrency opts <? 1)%Z = false) by (apply Z.ltb_ge; lia).
  rewrite Hc. unfold emptyDir. rewrite Hdir. cbn [clearFiles].
  rewrite crawlFuel_two. cbn [crawlLoop].
  assert (Hcond : forall s0, visitedPages s0 = [] -> loopCondition opts s0 = false).
  { intros s0 E. unfold loopCondition. rewrite E. cbn [List.length Z.of_nat].
    assert (Hz : (0 <? maxPages opts)%Z = false) by (apply Z.ltb_ge; lia).
    rewrite Hz. apply andb_false_r. }
  rewrite Hcond by reflexivity.
  cbv [downloadAssets bind get forEachM ret assetSet initialState visitedPages
       pageQueue files pageFetches pushes snapshots console].
  eexists. eexists. split; [reflexivity|].
  cbn [success statistics buildResult pagesCloned assetsDownloaded maxPagesReached
       visitedPages assetSet pageFetches files pageQueue List.length Z.of_nat].
  repeat split. rewrite Z.geb_leb. apply Z.leb_le. exact Hmax.
Qed.

(** X10: A start URL that robots excludes gives an empty clone that is a
    success all the same: the URL is dropped from the queue unfetched,
    the loop ends on the empty queue, no page is written. *)
Theorem excluded_start_url_gives_empty_clone :
  forall (targetUrl : string) (opts : Options) (root : URL),
    URL_new targetUrl None = Some root ->
    respectRobots opts = true ->
    isUrlAllowed (href root) (disallowedPaths (robotsPolicy root)) = Some false ->
    (1 <= maxPages opts)%Z ->
    (1 <= concurrency opts)%Z ->
    canEmptyDir W (Path.join (cwd W) (outDir opts)) = true ->
    exists r s,
      cloneWebsite targetUrl opts = Some (Normal r, s)
      /\ success r = true
      /\ pagesCloned (statistics r) = 0
      /\ maxPagesReached (statistics r) = false
      /\ pageFetches s = []
      /\ files s = []
      /\ console s = [SkippedDisallowed (href root)].
Proof.
  intros targetUrl opts root Hroot Hrobots Hdis Hmax Hconc Hdir.
  unfold cloneWebsite. rewrite Hroot, resolve_policy.
  assert (Hc : (concurrency opts <? 1)%Z = false) by (apply Z.ltb_ge; lia).
  rewrite Hc. unfold emptyDir. rewrite Hdir. cbn [clearFiles].
  assert (Hpol : policyInForce opts root = robotsPolicy root)
    by (unfold policyInForce; now rewrite Hrobots).
  rewrite Hpol, crawlFuel_two. cbn [crawlLoop].
  assert (Hz : (0 <? maxPages opts)%Z = true) by (apply Z.ltb_lt; lia).
  unfold loopCondition at 1.
  cbn [initialState onPriorFiles visitedPages pageQueue List.length Z.of_nat andb].
  rewrite Hz.
  unfold crawlIteration, checkUrlAllowed, orThrow.
  cbv [bind get setQueue pageQueue visitedPages has existsb].
  rewrite Hrobots, Hdis.
  cbv [ret negb logLine visitedPages pageQueue assetSet files pageFetches pushes
       snapshots console].
  unfold loopCondition at 1. cbn [pageQueue andb].
  cbv [downloadAssets bind get forEachM ret assetSet].
  eexists. eexists. split; [reflexivity|].
  cbn [success statistics buildResult pagesCloned maxPagesReached
       visitedPages pageFetches files console List.length Z.of_nat].
  repeat split. rewrite Z.geb_leb. apply Z.leb_gt. lia.
Qed.

(* ================================================================== *)
(** ** Invariants of the crawl, in general *)

(** *** The asset rules under a relation that tolerates a log line and
    a new asset *)

Section StableRewriter.

Variable R : CrawlState -> CrawlState -> Prop.
Hypothesis R_refl : forall s, R s s.
Hypothesis R_trans : forall s1 s2 s3, R s1 s2 -> R s2 s3 -> R s1 s3.
Hypothesis R_log : forall l, stable R (logLine l).
Hypothesis R_asset : forall u, stable R (addAsset u).

#[local] Set Default Proof Using "Type R_refl R_trans R_log R_asset".

Ltac rewriter_step :=
  first
    [ assumption
    | apply R_log | apply R_asset
    | apply stable_ret | apply stable_throw | apply stable_orThrow
    | apply stable_newURL
    | apply stable_bind | apply stable_tryCatch | apply stable_mapM
    | match goal with
      | |- stable _ (match ?x with _ => _ end) => destruct x
      | |- forall _, _ => intro
      end ].

Lemma rewriter_imgAttrRule (currentUrl attrName : string) (e : Element) :
  stable R (imgAttrRule currentUrl attrName e).
Proof. unfold imgAttrRule. repeat rewriter_step. Qed.

Lemma rewriter_srcsetEntry (currentUrl entry : string) :
  stable R (srcsetEntry currentUrl entry).
Proof. unfold srcsetEntry. repeat rewriter_step. Qed.

Lemma rewriter_imgRule (currentUrl : string) (e : Element) :
  stable R (imgRule currentUrl e).
Proof.
  unfold imgRule.
  repeat first [apply rewriter_imgAttrRule | apply rewriter_srcsetEntry | rewriter_step].
Qed.

Lemma rewriter_resourceRule (currentUrl attrName : string) (e : Element) :
  stable R (resourceRule currentUrl attrName e).
Proof. unfold resourceRule. repeat rewriter_step. Qed.

End StableRewriter.

#[local] Set Default Proof Using "Type".

(** *** One turn of the loop *)

Section CrawlStep.

Variable opts : Options.
Variable rootOrigin outputDir : string.
Variable rules : RobotsRules.

(** [I] holds between the turns of the loop, [J u] while the page [u] is
    processed. *)
Variable I : CrawlState -> Prop.
Variable J : string -> CrawlState -> Prop.

Hypothesis I_drop :
  forall s u rest, I s -> pageQueue s = u :: rest -> I (snd (setQueue rest s)).
Hypothesis I_log : forall l s, I s -> I (snd (logLine l s)).
Hypothesis I_enter :
  forall s u rest,
    I s -> pageQueue s = u :: rest -> has u (visitedPages s) = false ->
    J u (snd (notePageFetch u (snd (addVisited u (snd (setQueue rest s)))))).
Hypothesis J_log : forall u l s, J u s -> J u (snd (logLine l s)).
Hypothesis J_asset : forall u a s, J u s -> J u (snd (addAsset a s)).
Hypothesis J_push :
  forall u link (t : URL) s,
    J u s -> URL_new link (Some u) = Some t -> origin t = rootOrigin ->
    J u (snd (pushQueue (href (clearHash (clearSearch t))) s)).
Hypothesis J_write :
  forall u pu c s,
    J u s -> URL_new u None = Some pu ->
    J u (snd (putFile (mapTargetUrlToFilePath outputDir pu) c s)).
Hypothesis J_leave : forall u s, J u s -> I s.

#[local] Set Default Proof Using
  "Type I_drop I_log I_enter J_log J_asset J_push J_write J_leave".

Lemma during_stable {A} (u : string) (m : M A) :
  stable (fun s s' => J u s -> J u s') m ->
  triple (J u) m (fun _ => J u) (fun _ => J u).
Proof using Type.
  intros Hm s Hs. specialize (Hm s). destruct (m s) as [[a|e] s']; simpl in Hm; auto.
Qed.

Ltac during_rules :=
  first [ intros s0 H0; exact H0
        | intros s1 s2 s3 H1 H2 H0; exact (H2 (H1 H0))
        | intros l s0 H0; exact (J_log _ l s0 H0)
        | intros a s0 H0; exact (J_asset _ a s0 H0) ].

Lemma during_each (u : string) (tagName : string) (required : option string)
      (rule : Element -> M Element) (doc : Document) :
  (forall e, triple (J u) (rule e) (fun _ => J u) (fun _ => J u)) ->
  triple (J u) (each tagName required rule doc) (fun _ => J u) (fun _ => J u).
Proof using Type.
  intros Hrule. unfold each. apply triple_mapM. intros e.
  destruct (_ && _); [apply Hrule | now apply triple_ret].
Qed.

Lemma during_anchorRule (u : string) (e : Element) :
  triple (J u) (anchorRule opts rootOrigin rules u e)
         (fun _ => J u) (fun _ => J u).
Proof using J_push.
  intros s Hs. unfold anchorRule.
  destruct (attr "href" e) as [h|]; [|exact Hs].
  destruct (isSkippableHref h); [exact Hs|].
  unfold newURL, bind, orThrow.
  destruct (URL_new h (Some u)) as [resolved|] eqn:Hres; [|exact Hs].
  cbn [ret]. destruct (String.eqb (origin resolved) rootOrigin) eqn:Ho; [|exact Hs].
  apply String.eqb_eq in Ho.
  set (t := href (clearHash (clearSearch resolved))).
  unfold shouldAdd, bind, get.
  destruct (has t (visitedPages s)); [exact Hs|].
  destruct (has t (pageQueue s)); [exact Hs|].
  destruct (respectRobots opts); cbn [negb].
  - unfold checkUrlAllowed, orThrow.
    destruct (isUrlAllowed t (disallowedPaths rules)) as [[|]|];
      cbn [ret throw]; try exact Hs.
    change (J u (snd (pushQueue t s))). now apply (J_push u h).
  - cbn [ret]. change (J u (snd (pushQueue t s))). now apply (J_push u h).
Qed.

Lemma during_rewriteDocument (u : string) (doc : Document) :
  triple (J u) (rewriteDocument opts rootOrigin rules u doc)
         (fun _ => J u) (fun _ => J u).
Proof using J_log J_asset J_push.
  unfold rewriteDocument.
  eapply triple_bind; [|intros d1; cbv beta].
  { apply during_each. intros e. apply during_stable.
    apply rewriter_imgRule; during_rules. }
  eapply triple_bind; [|intros d2; cbv beta].
  { apply during_each. intros e. apply during_stable.
    apply rewriter_resourceRule; during_rules. }
  eapply triple_bind; [|intros d3; cbv beta].
  { apply during_each. intros e. apply during_stable.
    apply rewriter_resourceRule; during_rules. }
  apply during_each. intros e. apply during_anchorRule.
Qed.

Lemma during_processResponse (u : string) (response : Response) :
  triple (J u) (processResponse opts rootOrigin outputDir rules u response)
         (fun _ => J u) (fun _ => J u).
Proof using J_log J_asset J_push J_write.
  unfold processResponse.
  destruct (negb _); [intros s Hs; now apply J_log|].
  eapply triple_bind; [|intros html; cbv beta].
  { apply during_stable. apply stable_readBody; during_rules. }
  eapply triple_bind; [apply during_rewriteDocument | intros doc; cbv beta].
  eapply triple_bind; [|intros pageUrl; cbv beta].
  { unfold newURL. apply triple_orThrow. intros s Hs _. exact Hs. }
  intros s [Hs Hp]. unfold bind, writeFile.
  destruct (canWriteFile W _); cbn [putFile throw]; [|exact Hs].
  apply J_log. change (J u (snd (putFile (mapTargetUrlToFilePath outputDir pageUrl)
                                         (cheerio_html doc) s))).
  now apply J_write.
Qed.

(** One turn of the loop keeps [I]. *)
Lemma crawlIteration_keeps :
  triple I (crawlIteration opts rootOrigin outputDir rules) (fun _ => I) (fun _ => I).
Proof.
  intros s Hs. unfold crawlIteration. unfold bind at 1. unfold get at 1.
  destruct (pageQueue s) as [|u rest] eqn:Eq; [exact Hs|].
  unfold bind at 1.
  change (setQueue rest s) with (Normal tt, snd (setQueue rest s)).
  cbv iota.
  pose proof (I_drop s u rest Hs Eq) as Hdrop.
  destruct (has u (visitedPages s)) eqn:Hhas; [exact Hdrop|].
  assert (Hvisit :
    match visitPage opts rootOrigin outputDir rules u (snd (setQueue rest s)) with
    | (Normal _, s') => I s'
    | (Throw _, s') => I s'
    end).
  { pose proof (I_enter s u rest Hs Eq Hhas) as Henter.
    assert (Hrun : triple (J u)
              (fetched <- fetchPage u ;;
               match fetched with
               | None => ret tt
               | Some response =>
                   processResponse opts rootOrigin outputDir rules u response
               end) (fun _ => J u) (fun _ => J u)).
    { apply triple_bind with (R := fun _ => J u).
      - intros s0 H0. unfold fetchPage, tryCatch, bind, doFetch.
        destruct (fetch W u); cbn [throw ret logLine];
          [exact (J_log u (PageFetchError u) s0 H0) | exact H0].
      - intros [response|]; [apply during_processResponse | now apply triple_ret]. }
    specialize (Hrun _ Henter).
    change (visitPage opts rootOrigin outputDir rules u (snd (setQueue rest s)))
      with ((fetched <- fetchPage u ;;
             match fetched with
             | None => ret tt
             | Some response =>
                 processResponse opts rootOrigin outputDir rules u response
             end)
              (snd (notePageFetch u (snd (addVisited u (snd (setQueue rest s))))))).
    match type of Hrun with
    | match ?run with _ => _ end => destruct run as [[a|e] s'] end;
      now apply (J_leave u). }
  destruct (respectRobots opts).
  - unfold bind at 1. unfold checkUrlAllowed, orThrow.
    destruct (isUrlAllowed u (disallowedPaths rules)) as [[|]|];
      unfold bind at 1; cbn [ret throw negb].
    + exact Hvisit.
    + cbn [logLine]. apply (I_log (SkippedDisallowed u) _ Hdrop).
    + exact Hdrop.
  - unfold bind at 1. cbn [ret]. exact Hvisit.
Qed.

(** The loop keeps [I], however it ends. *)
Lemma crawlLoop_keeps (fuel : nat) (s s' : CrawlState) (c : Completion unit) :
  I s ->
  crawlLoop opts rootOrigin outputDir rules fuel s = Some (c, s') ->
  I s'.
Proof.
  revert s. induction fuel as [|fuel IH]; intros s Hs H; [discriminate H|].
  cbn [crawlLoop] in H. destruct (loopCondition opts s).
  - pose proof (crawlIteration_keeps s Hs) as Hstep.
    destruct (crawlIteration opts rootOrigin outputDir rules s) as [[a|e] s1].
    + now apply (IH s1).
    + injection H as _ <-. exact Hstep.
  - injection H as _ <-. exact Hs.
Qed.

End CrawlStep.

#[local] Set Default Proof Using "Type".

(** The stages of a run from a start URL that parses: it stops before
    the loop, with the output directory as it was; or in the loop; or it
    goes through the loop and the asset phase. *)
Lemma cloneWebsite_stages (targetUrl : string) (opts : Options) (root : URL)
      (c : Completion CloneResult) (s : CrawlState) :
  URL_new targetUrl None = Some root ->
  cloneWebsite targetUrl opts = Some (c, s) ->
  (((concurrency opts < 1)%Z
    \/ canEmptyDir W (Path.join (cwd W) (outDir opts)) = false)
   /\ s = onPriorFiles (Path.join (cwd W) (outDir opts)) (initialState (href root))
   /\ exists e, c = Throw e)
  \/ ((1 <= concurrency opts)%Z
      /\ canEmptyDir W (Path.join (cwd W) (outDir opts)) = true
      /\ exists c3 s3,
           crawlLoop opts (origin root) (Path.join (cwd W) (outDir opts))
                     (policyInForce opts root) (crawlFuel opts)
                     (initialState (href root)) = Some (c3, s3)
           /\ ((exists e, c3 = Throw e /\ c = Throw e /\ s = s3)
               \/ (c3 = Normal tt
                   /\ s = snd (downloadAssets opts (origin root)
                                              (Path.join (cwd W) (outDir opts)) s3)))).
Proof.
  intros Hroot H. unfold cloneWebsite in H. rewrite Hroot, resolve_policy in H.
  destruct (concurrency opts <? 1)%Z eqn:Hc.
  { apply Z.ltb_lt in Hc. injection H as <- <-. left. eauto. }
  apply Z.ltb_ge in Hc. unfold emptyDir in H.
  destruct (canEmptyDir W _) eqn:Hdir; [|injection H as <- <-; left; eauto].
  cbn [clearFiles onPriorFiles initialState visitedPages pageQueue assetSet
       pageFetches pushes snapshots console] in H.
  change (mkCrawlState [] [href root] [] [] [] [] [([], [href root])] [])
    with (initialState (href root)) in H.
  right. split; [exact Hc|]. split; [reflexivity|].
  match type of H with
  | match ?loop with _ => _ end = _ => destruct loop as [[[[]|e] s3]|] eqn:Hloop
  end; [| |discriminate H].
  - exists (Normal tt), s3. split; [reflexivity|]. right. split; [reflexivity|].
    destruct (downloadAssets opts (origin root) _ s3) as [[[]|e] s4];
      injection H as _ <-; reflexivity.
  - exists (Throw e), s3. split; [reflexivity|]. left. exists e.
    injection H as <- <-. now repeat split.
Qed.

(* ================================================================== *)
(** ** The order of the crawl *)

Lemma subseq_app_r {A} (l1 l2 tail : list A) :
  subseq l1 l2 -> subseq l1 (l2 ++ tail).
Proof.
  intros H. induction H as [|x l1 l2 H IH|x l1 l2 H IH]; simpl.
  - induction tail as [|y tail IH]; [apply subseq_nil | now apply subseq_skip].
  - now apply subseq_skip.
  - now apply subseq_keep.
Qed.

Lemma subseq_snoc {A} (l1 l2 : list A) (x : A) :
  subseq l1 l2 -> subseq (l1 ++ [x]) (l2 ++ [x]).
Proof.
  intros H. induction H as [|y l1 l2 H IH|y l1 l2 H IH]; simpl.
  - apply subseq_keep, subseq_nil.
  - now apply subseq_skip.
  - now apply subseq_keep.
Qed.


(** The order invariant and the origin of what was pushed, through a
    run. *)
Lemma cloneWebsite_order (targetUrl : string) (opts : Options) (root : URL)
      (c : Completion CloneResult) (s : CrawlState) :
  URL_new targetUrl None = Some root ->
  cloneWebsite targetUrl opts = Some (c, s) ->
  queueOrder (href root) s
  /\ Forall (linkTarget (origin root) s) (pushes s).
Proof.
  intros Hroot Hrun.
  set (I := fun s0 : CrawlState =>
              queueOrder (href root) s0
              /\ Forall (linkTarget (origin root) s0) (pushes s0)).
  assert (Hinit : I (initialState (href root))).
  { split; [|constructor]. exists []. split; [reflexivity | constructor]. }
  assert (Hgrow : forall s1 s2 : CrawlState,
            incl (visitedPages s1) (visitedPages s2) ->
            forall l, Forall (linkTarget (origin root) s1) l ->
                      Forall (linkTarget (origin root) s2) l).
  { intros s1 s2 Hincl l. apply Forall_impl.
    intros t (page & link & resolved & Hpage & Hrest).
    exists page, link, resolved. split; [now apply Hincl | exact Hrest]. }
  destruct (cloneWebsite_stages targetUrl opts root c s Hroot Hrun)
    as [(_ & -> & _) | (_ & _ & c3 & s3 & Hloop & Hend)]; [exact Hinit|].
  assert (H3 : I s3).
  { apply (crawlLoop_keeps opts (origin root) (Path.join (cwd W) (outDir opts))
             (policyInForce opts root) I
             (fun u s0 => I s0 /\ In u (visitedPages s0))) in Hloop;
      [exact Hloop | | | | | | | | | exact Hinit].
    - (* a URL leaves the queue *)
      intros s0 u rest [(done & Hd & Hsub) Hp] Eq. split; [|exact Hp].
      exists (done ++ [u])%list. split.
      + unfold discovered in *. cbn [setQueue snd pushes pageQueue].
        rewrite Hd, Eq, <- app_assoc. reflexivity.
      + cbn [setQueue snd visitedPages]. now apply subseq_app_r.
    - intros l s0 H0. exact H0.
    - (* and is visited *)
      intros s0 u rest [(done & Hd & Hsub) Hp] Eq Hhas.
      cbn [setQueue addVisited notePageFetch snd visitedPages].
      split; [split|].
      + exists (done ++ [u])%list. split.
        * unfold discovered in *.
          cbn [setQueue addVisited notePageFetch snd pushes pageQueue].
          rewrite Hd, Eq, <- app_assoc. reflexivity.
        * cbn [setQueue addVisited notePageFetch snd visitedPages].
          unfold setAdd. rewrite Hhas. now apply subseq_snoc.
      + revert Hp. apply Hgrow. cbn [visitedPages]. apply setAdd_incl.
      + apply setAdd_in.
    - intros u l s0 H0. exact H0.
    - intros u a s0 H0. exact H0.
    - (* a link target joins the queue *)
      intros u link t s0 [[(done & Hd & Hsub) Hp] Hu] Hres Ho. split; [split|].
      + exists done. split; [|exact Hsub].
        unfold discovered in *. cbn [pushQueue snd pushes pageQueue rev].
        rewrite app_comm_cons, Hd, <- app_assoc. reflexivity.
      + cbn [pushQueue snd pushes]. constructor; [|exact Hp].
        exists u, link, t. cbn [visitedPages]. auto.
      + exact Hu.
    - intros u pu x s0 H0 _. exact H0.
    - intros u s0 [H0 _]. exact H0. }
  destruct Hend as [(e & _ & _ & ->) | [_ ->]]; [exact H3|].
  pose proof (stable_downloadAssets sameCrawl sameCrawl_refl sameCrawl_trans
                sameCrawl_logLine sameCrawl_putFile opts (origin root)
                (Path.join (cwd W) (outDir opts)) s3) as (E1 & E2 & E3 & _).
  destruct H3 as [(done & Hd & Hsub) Hp]. split.
  - exists done. unfold discovered in *. now rewrite E1, E2, E3.
  - rewrite E3. revert Hp. apply Hgrow. rewrite E1. apply incl_refl.
Qed.

(** X11: The crawl is first-in first-out.  At the end of a run the queue is
    the tail of the discovery sequence -- the start URL followed by the
    pushed URLs in the order of their discovery -- and the visited set,
    in the order of the visits, is a subsequence of what precedes the
    queue: pages are visited in the order of their discovery, some
    (those robots excludes) left out. *)
Theorem pages_visited_in_discovery_order :
  forall (targetUrl : string) (opts : Options) (root : URL),
    URL_new targetUrl None = Some root ->
    exists c s,
      cloneWebsite targetUrl opts = Some (c, s)
      /\ exists done : list string,
           (href root :: rev (pushes s) = done ++ pageQueue s)%list
           /\ subseq (visitedPages s) done.
Proof.
  intros targetUrl opts root Hroot.
  destruct (cloneWebsite_run targetUrl opts root Hroot) as (c & s & Hrun & _).
  exists c, s. split; [exact Hrun|].
  now destruct (cloneWebsite_order targetUrl opts root c s Hroot Hrun) as [H _].
Qed.


(* ================================================================== *)
(** ** What the output tree holds *)

Lemma treeAccounted_grows (opts : Options) (rootOrigin outputDir : string)
      (s s' : CrawlState) :
  incl (visitedPages s) (visitedPages s') ->
  incl (assetSet s) (assetSet s') ->
  files s' = files s ->
  treeAccounted opts rootOrigin outputDir s ->
  treeAccounted opts rootOrigin outputDir s'.
Proof.
  intros Hv Ha Hf H p Hp. rewrite Hf in Hp.
  destruct (H p Hp) as [(u & pu & H1 & H2 & H3) | (a & ua & H1 & H2)].
  - left. exists u, pu. auto.
  - right. exists a, ua. auto.
Qed.

(** The tree after the loop. *)
Lemma crawlLoop_tree (opts : Options) (rootOrigin outputDir : string)
      (rules : RobotsRules) (fuel : nat) (s s' : CrawlState) (c : Completion unit) :
  treeAccounted opts rootOrigin outputDir s ->
  crawlLoop opts rootOrigin outputDir rules fuel s = Some (c, s') ->
  treeAccounted opts rootOrigin outputDir s'.
Proof.
  intros Hs Hloop.
  apply (crawlLoop_keeps opts rootOrigin outputDir rules
           (treeAccounted opts rootOrigin outputDir)
           (fun u s0 => treeAccounted opts rootOrigin outputDir s0
                        /\ In u (visitedPages s0))) in Hloop;
    [exact Hloop | | | | | | | | | exact Hs].
  - intros s0 u rest H0 _. exact H0.
  - intros l s0 H0. exact H0.
  - intros s0 u rest H0 _ _. split.
    + revert H0. apply treeAccounted_grows;
        cbn [setQueue addVisited notePageFetch snd visitedPages assetSet files];
        [apply setAdd_incl | apply incl_refl | reflexivity].
    + cbn [setQueue addVisited notePageFetch snd visitedPages]. apply setAdd_in.
  - intros u l s0 H0. exact H0.
  - intros u a s0 [H0 Hu]. split; [|exact Hu].
    revert H0. apply treeAccounted_grows; cbn [addAsset snd visitedPages assetSet files];
      [apply incl_refl | apply setAdd_incl | reflexivity].
  - intros u link t s0 H0 _ _. exact H0.
  - intros u pu x s0 [H0 Hu] Hpu. split; [|exact Hu].
    intros p Hp. cbn [putFile snd files map fst] in Hp.
    destruct Hp as [<- | Hp].
    + left. exists u, pu. auto.
    + apply in_paths_filter in Hp. destruct Hp as [Hp _].
      destruct (H0 p Hp) as [(u1 & pu1 & H1 & H2 & H3) | (a & ua & H1 & H2)].
      * left. exists u1, pu1. auto.
      * right. exists a, ua. auto.
  - intros u s0 [H0 _]. exact H0.
Qed.

(** X13: Nothing is written but page files and asset files.  A run that
    the limiter stops, because the concurrency is below 1, leaves the
    files of the output directory as they were.  A run that gets past
    the preparation of the output directory leaves it, however the run
    ends after that, with nothing of what it held before: every file is
    the page file of a visited URL or the asset file of a discovered
    asset; the asset is an [http(s)] URL and, with
    [mirrorExternalAssets] off, of the start origin. *)
Theorem output_tree_holds_pages_and_assets_only :
  forall (targetUrl : string) (opts : Options) (root : URL),
    URL_new targetUrl None = Some root ->
    exists c s,
      cloneWebsite targetUrl opts = Some (c, s)
      /\ ((concurrency opts < 1)%Z ->
          files s = priorFiles W (Path.join (cwd W) (outDir opts)))
      /\ ((1 <= concurrency opts)%Z ->
          canEmptyDir W (Path.join (cwd W) (outDir opts)) = true ->
          forall p, In p (map fst (files s)) ->
            (exists (u : string) (pu : URL),
               In u (visitedPages s)
               /\ URL_new u None = Some pu
               /\ p = mapTargetUrlToFilePath (Path.join (cwd W) (outDir opts)) pu)
            \/ (exists (a : string) (ua : URL),
                  In a (assetSet s)
                  /\ URL_new a None = Some ua
                  /\ (protocol ua = "http:" \/ protocol ua = "https:")
                  /\ (origin ua = origin root \/ mirrorExternalAssets opts = true)
                  /\ p = Path.join (Path.join (cwd W) (outDir opts))
                                   (localizeAssetPath ua))).
Proof.
  intros targetUrl opts root Hroot.
  destruct (cloneWebsite_run targetUrl opts root Hroot) as (c & s & Hrun & _).
  exists c, s. split; [exact Hrun|].
  set (outputDir := Path.join (cwd W) (outDir opts)).
  destruct (cloneWebsite_stages targetUrl opts root c s Hroot Hrun)
    as [(Hstop & -> & _) | (Hconc & Hdir & c3 & s3 & Hloop & Hend)].
  { fold outputDir in Hstop. split; [reflexivity|].
    intros Hc Hd. destruct Hstop as [Hstop | Hstop]; [lia | congruence]. }
  split; [intros Hc; lia|]. intros _ _.
  change (treeAccounted opts (origin root) outputDir s).
  fold outputDir in Hloop, Hend.
  apply crawlLoop_tree in Hloop; [|intros p []].
  destruct Hend as [(e & _ & _ & ->) | [_ ->]]; [exact Hloop|].
  pose proof (stable_downloadAssets sameCrawl sameCrawl_refl sameCrawl_trans
                sameCrawl_logLine sameCrawl_putFile opts (origin root)
                outputDir s3) as (E1 & _).
  pose proof (stable_downloadAssets sameAssets sameAssets_refl sameAssets_trans
                sameAssets_logLine sameAssets_putFile opts (origin root)
                outputDir s3) as E2.
  unfold sameAssets in E2.
  intros p Hp. unfold downloadAssets, bind, get in Hp.
  change (In p (map fst (files (snd (forEachM
            (downloadAsset opts (origin root) outputDir) (assetSet s3) s3))))) in Hp.
  rewrite downloadAssets_files, in_paths_writes in Hp.
  destruct Hp as [Hp | [x Hx]].
  - destruct (Hloop p Hp) as [(u & pu & H1 & H2 & H3) | (a & ua & H1 & H2)].
    + left. exists u, pu. rewrite E1. auto.
    + right. exists a, ua. rewrite E2. auto.
  - right. apply in_map_iff in Hx. destruct Hx as (a & Hw & Ha).
    unfold assetWrite in Hw.
    destruct (URL_new a None) as [ua|] eqn:Hua; [|discriminate Hw].
    destruct (negb (String.eqb (protocol ua) "http:")
              && negb (String.eqb (protocol ua) "https:")) eqn:Hproto;
      [discriminate Hw|].
    destruct (negb (String.eqb (origin ua) (origin root))
              && negb (mirrorExternalAssets opts)) eqn:Hmirror; [discriminate Hw|].
    destruct (fetch W a) as [|resp]; [discriminate Hw|].
    destruct (ok resp); [|discriminate Hw].
    destruct (body resp) as [buffer|]; [|discriminate Hw].
    destruct (canWriteFile W _); [|discriminate Hw].
    injection Hw as Hpath _.
    exists a, ua. rewrite E2. split; [exact Ha|]. split; [exact Hua|].
    split; [|split; [|now symmetry]].
    + apply andb_false_iff in Hproto.
      destruct Hproto as [H | H]; apply negb_false_iff, String.eqb_eq in H; auto.
    + apply andb_false_iff in Hmirror.
      destruct Hmirror as [H | H]; apply negb_false_iff in H;
        [left; now apply String.eqb_eq | now right].
Qed.

(* ================================================================== *)
(** ** The clone manager *)

Lemma sanitizeDomain_shape (domain : string) :
  allChars (fun c => negb (Ascii.eqb c "/")) (CloneManager.sanitizeDomain domain) = true
  /\ CloneManager.sanitizeDomain (CloneManager.sanitizeDomain domain)
     = CloneManager.sanitizeDomain domain.
Proof.
  induction domain as [|c d [IH1 IH2]]; [now split|].
  cbn [CloneManager.sanitizeDomain allChars]. rewrite IH1, IH2.
  destruct (CloneManager.isDomainChar c) eqn:E.
  - rewrite E. split; [|reflexivity].
    destruct (Ascii.eqb c "/") eqn:Es; [|reflexivity].
    apply Ascii.eqb_eq in Es. subst c. discriminate E.
  - now split.
Qed.

(** X16: [sanitizeDomain] replaces character by character: the length is
    kept, the result holds only letters, digits, dots, dashes and
    underscores -- so no slash -- and sanitising it again changes
    nothing. *)
Theorem sanitizeDomain_safe_and_idempotent :
  forall domain : string,
    String.length (CloneManager.sanitizeDomain domain) = String.length domain
    /\ allChars (fun c => CloneManager.isDomainChar c || Ascii.eqb c "_")
                (CloneManager.sanitizeDomain domain) = true
    /\ allChars (fun c => negb (Ascii.eqb c "/"))
                (CloneManager.sanitizeDomain domain) = true
    /\ CloneManager.sanitizeDomain (CloneManager.sanitizeDomain domain)
       = CloneManager.sanitizeDomain domain.
Proof.
  intros domain. destruct (sanitizeDomain_shape domain) as [Hslash Hidem].
  split; [|split; [|split; assumption]].
  - induction domain as [|c d IH]; [reflexivity|].
    cbn [CloneManager.sanitizeDomain String.length]. f_equal. apply IH.
    + now destruct (sanitizeDomain_shape d).
    + now destruct (sanitizeDomain_shape d).
  - clear. induction domain as [|c d IH]; [reflexivity|].
    cbn [CloneManager.sanitizeDomain allChars]. rewrite IH.
    destruct (CloneManager.isDomainChar c) eqn:E; [now rewrite E | reflexivity].
Qed.

(** X17: A directory without metadata but with an [index.html] is taken for
    a clone of whatever URL is asked for; a directory with metadata only
    for the URL the metadata records. *)
Theorem existing_clone_answers_for :
  forall (D : CloneManager.Disk) (outDir sourceUrl other : string)
         (found : CloneManager.ExistingClone),
    CloneManager.checkExistingClone D outDir sourceUrl = Some found ->
    CloneManager.ecPath found = outDir
    /\ CloneManager.ecSourceUrl found = sourceUrl
    /\ if CloneManager.ecIsLegacy found
       then CloneManager.checkExistingClone D outDir other
            = Some (CloneManager.mkExistingClone
                      outDir (Some "Unknown (legacy clone)") other None true)
       else (CloneManager.checkExistingClone D outDir other <> None
             <-> other = sourceUrl).
Proof.
  intros D outDir sourceUrl other found. unfold CloneManager.checkExistingClone.
  destruct (CloneManager.pathExists D outDir); cbn [negb]; [|discriminate].
  destruct (CloneManager.pathExists D (Path.join outDir CloneManager.METADATA_FILE));
    cbn [negb].
  - destruct (CloneManager.readJson D _) as [metadata|]; [|discriminate].
    unfold CloneManager.sameSource.
    destruct (CloneManager.mdSourceUrl metadata) as [recorded|]; [|discriminate].
    destruct (String.eqb recorded sourceUrl) eqn:E; [|discriminate].
    apply String.eqb_eq in E. subst recorded.
    intros H. injection H as <-. cbn. split; [reflexivity|]. split; [reflexivity|].
    destruct (String.eqb sourceUrl other) eqn:E'.
    + apply String.eqb_eq in E'. split; [now intros _ | discriminate].
    + apply String.eqb_neq in E'. split; [now intros H | congruence].
  - destruct (CloneManager.pathExists D (Path.join outDir "index.html"));
      [|discriminate].
    intros H. injection H as <-. cbn. now repeat split.
Qed.

Lemma saveCloneMetadata_then_check (D : CloneManager.Disk) (outDir sourceUrl : string)
      (cloneResult : CloneManager.MirrorResult) :
  CloneManager.canEnsureDir D outDir = true ->
  CloneManager.canWriteJson D (Path.join outDir CloneManager.METADATA_FILE) = true ->
  CloneManager.mrSourceUrl cloneResult = Some sourceUrl ->
  CloneManager.checkExistingClone
    (CloneManager.saveCloneMetadata D outDir cloneResult) outDir sourceUrl
  = Some (CloneManager.mkExistingClone
            outDir (CloneManager.mrClonedAt cloneResult) sourceUrl
            (CloneManager.mrStatistics cloneResult) false).
Proof.
  intros Hdir Hwrite Hsrc.
  unfold CloneManager.saveCloneMetadata. rewrite Hdir, Hwrite.
  unfold CloneManager.checkExistingClone, CloneManager.withJson, CloneManager.withPath.
  cbn [CloneManager.pathExists CloneManager.readJson].
  rewrite !String.eqb_refl, !orb_true_r. cbn [orb negb].
  unfold CloneManager.sameSource, CloneManager.metadataOf.
  cbn [CloneManager.mdSourceUrl CloneManager.mdClonedAt CloneManager.mdStatistics].
  now rewrite Hsrc, String.eqb_refl.
Qed.

(** X18: What [saveCloneMetadata] has written, [checkExistingClone] finds:
    after a save that the disk accepts, the directory answers for the
    source URL of the saved result, with its date and statistics, and
    not as a legacy clone. *)
Theorem saved_clone_is_found :
  forall (D : CloneManager.Disk) (outDir sourceUrl : string)
         (cloneResult : CloneManager.MirrorResult),
    CloneManager.canEnsureDir D outDir = true ->
    CloneManager.canWriteJson D (Path.join outDir CloneManager.METADATA_FILE) = true ->
    CloneManager.mrSourceUrl cloneResult = Some sourceUrl ->
    CloneManager.checkExistingClone
      (CloneManager.saveCloneMetadata D outDir cloneResult) outDir sourceUrl
    = Some (CloneManager.mkExistingClone
              outDir (CloneManager.mrClonedAt cloneResult) sourceUrl
              (CloneManager.mrStatistics cloneResult) false).
Proof.
  intros D outDir sourceUrl cloneResult. apply saveCloneMetadata_then_check.
Qed.

Lemma scanClones_acc (D : CloneManager.Disk) (baseDir : string)
      (directories : list string) (clones : list CloneManager.CloneEntry) :
  CloneManager.scanClones D baseDir directories clones
  = match CloneManager.scanClones D baseDir directories [] with
    | Some found => Some (clones ++ found)%list
    | None => None
    end.
Proof.
  revert clones. induction directories as [|dir rest IH]; intros clones;
    cbn [CloneManager.scanClones].
  - now rewrite app_nil_r.
  - destruct (CloneManager.isDirectory D _) as [[|]|]; [| apply IH | reflexivity].
    destruct (CloneManager.pathExists D _); [|apply IH].
    destruct (CloneManager.readJson D _) as [metadata|]; [|apply IH].
    rewrite IH, (IH ([] ++ _)%list).
    destruct (CloneManager.scanClones D baseDir rest []); [|reflexivity].
    now rewrite <- app_assoc.
Qed.

(** X19: [listAllClones] lists, in the order of the directory listing, the
    sub-directories whose metadata can be read; a sub-directory without
    metadata, or with metadata that cannot be read, is left out.  But a
    single entry that [stat] rejects empties the whole list: that call
    is outside the inner [try]. *)
Theorem listAllClones_lists_readable_clones :
  forall (D : CloneManager.Disk) (baseDir : string) (directories : list string),
    CloneManager.pathExists D baseDir = true ->
    CloneManager.readdir D baseDir = Some directories ->
    ((forall dir, In dir directories ->
                  CloneManager.isDirectory D (Path.join baseDir dir) <> None) ->
     CloneManager.listAllClones D baseDir
     = flat_map (fun dir => match CloneManager.cloneEntryOf D baseDir dir with
                            | Some entry => [entry]
                            | None => []
                            end) directories)
    /\ ((exists dir, In dir directories
                     /\ CloneManager.isDirectory D (Path.join baseDir dir) = None) ->
        CloneManager.listAllClones D baseDir = []).
Proof.
  intros D baseDir directories Hbase Hread.
  unfold CloneManager.listAllClones. rewrite Hbase, Hread. cbn [negb]. split.
  - intros Hstat.
    assert (E : CloneManager.scanClones D baseDir directories []
                = Some (flat_map (fun dir =>
                                    match CloneManager.cloneEntryOf D baseDir dir with
                                    | Some entry => [entry]
                                    | None => []
                                    end) directories)).
    { clear Hread Hbase. induction directories as [|dir rest IH]; [reflexivity|].
      cbn [CloneManager.scanClones flat_map]. unfold CloneManager.cloneEntryOf at 1.
      pose proof (Hstat dir (or_introl eq_refl)) as Hdir.
      assert (Hrest : CloneManager.scanClones D baseDir rest [] = Some _)
        by (apply IH; intros d Hd; apply Hstat; now right).
      destruct (CloneManager.isDirectory D (Path.join baseDir dir)) as [[|]|];
        [| exact Hrest | congruence].
      destruct (CloneManager.pathExists D _); [|exact Hrest].
      destruct (CloneManager.readJson D _) as [metadata|]; [|exact Hrest].
      now rewrite scanClones_acc, Hrest. }
    now rewrite E.
  - intros (dir & Hin & Hdir).
    assert (E : CloneManager.scanClones D baseDir directories [] = None).
    { clear Hread Hbase. induction directories as [|d rest IH]; [destruct Hin|].
      cbn [CloneManager.scanClones]. destruct Hin as [-> | Hin].
      - now rewrite Hdir.
      - specialize (IH Hin). clear Hdir.
        destruct (CloneManager.isDirectory D (Path.join baseDir d)) as [[|]|];
          [| exact IH | reflexivity].
        destruct (CloneManager.pathExists D _); [|exact IH].
        destruct (CloneManager.readJson D _) as [metadata|]; [|exact IH].
        now rewrite scanClones_acc, IH. }
    now rewrite E.
Qed.

(* ================================================================== *)
(** ** The mirror tool *)

Lemma removeFirst_prefix (pat rest : string) :
  pat <> "" -> removeFirst pat (pat ++ rest) = rest.
Proof.
  intros Hne. destruct pat as [|c pat]; [congruence|].
  cbn [append removeFirst].
  assert (Hp : String.prefix (String c pat) (String c (pat ++ rest)) = true).
  { change (String c (pat ++ rest)) with (String c pat ++ rest).
    apply startsWith_iff. now exists rest. }
  rewrite Hp. clear Hp Hne. cbn [String.length JS.drop append].
  induction pat as [|d pat IH]; [reflexivity|]. exact IH.
Qed.

Lemma removeFirst_absent (pat s : string) :
  JS.includes s pat = false -> removeFirst pat s = s.
Proof.
  induction s as [|c s IH]; [reflexivity|].
  cbn [JS.includes removeFirst]. intros H. apply orb_false_iff in H.
  destruct H as [Hp Hs]. now rewrite Hp, (IH Hs).
Qed.

(** X20: The directory of a mirror is a child of [cloned-websites] in the
    working directory, named after the sanitised host name with its
    first [www.] removed; so a host name without [www.] and the same
    with [www.] in front share one directory. *)
Theorem mirror_directory_is_child_of_cloned_websites :
  forall (workingDir hostname : string),
    ordinaryName (CloneManager.sanitizeDomain (mirrorDomain hostname)) = true ->
    Path.join workingDir (mirrorOutDir hostname)
    = pathOf (Path.isAbsolute workingDir)
             (Path.segments workingDir
              ++ ["cloned-websites";
                  CloneManager.sanitizeDomain (mirrorDomain hostname)])
    /\ (JS.includes hostname "www." = false ->
        mirrorOutDir ("www." ++ hostname) = mirrorOutDir hostname).
Proof.
  intros workingDir hostname Hord. split.
  - unfold mirrorOutDir.
    set (name := CloneManager.sanitizeDomain (mirrorDomain hostname)) in *.
    destruct (sanitizeDomain_shape (mirrorDomain hostname)) as [Hplain _].
    fold name in Hplain.
    assert (Hne : name <> "") by (intros E; rewrite E in Hord; discriminate Hord).
    assert (Hsplit : JS.splitChar "/" ("./cloned-websites/" ++ name)
                     = ["."; "cloned-websites"; name]).
    { change ("./cloned-websites/" ++ name)
        with ("./cloned-websites" ++ String "/" name).
      rewrite splitChar_app, (splitChar_single "/" name Hplain). reflexivity. }
    rewrite join_inside; rewrite ?Hsplit.
    + cbn [filter]. rewrite Hord. reflexivity.
    + intros x [<- | [<- | [<- | []]]]; try discriminate.
      intros E. rewrite E in Hord. discriminate Hord.
    + reflexivity.
    + rewrite endsWith_app_inv by exact Hne. now apply endsWith_plain.
    + cbn [filter]. rewrite Hord. discriminate.
  - intros Hno. unfold mirrorOutDir, mirrorDomain.
    rewrite removeFirst_prefix by discriminate.
    now rewrite (removeFirst_absent "www." hostname Hno).
Qed.

Lemma checkExistingClone_path (D : CloneManager.Disk) (outDir sourceUrl : string)
      (found : CloneManager.ExistingClone) :
  CloneManager.checkExistingClone D outDir sourceUrl = Some found ->
  CloneManager.ecPath found = outDir.
Proof.
  unfold CloneManager.checkExistingClone.
  destruct (negb (CloneManager.pathExists D outDir)); [discriminate|].
  destruct (negb (CloneManager.pathExists D _)).
  - destruct (CloneManager.pathExists D _); [|discriminate].
    intros H. now injection H as <-.
  - destruct (CloneManager.readJson D _) as [metadata|]; [|discriminate].
    destruct (CloneManager.sameSource _ _); [|discriminate].
    intros H. now injection H as <-.
Qed.

Lemma protocol_accepted (u : URL) :
  protocol u = "http:" \/ protocol u = "https:" ->
  negb (String.eqb (protocol u) "http:" || String.eqb (protocol u) "https:") = false.
Proof. intros [-> | ->]; reflexivity. Qed.

(** X21: An existing clone stops the mirror tool at once: the answer names
    the directory as [checkExistingClone] was given it, nothing is
    cloned and the disk is as it was.  This holds for a directory that
    only has an [index.html], whatever page of the host is asked for. *)
Theorem existing_clone_is_not_cloned_again :
  forall (hostname : URL -> string) (now : string)
         (diskAfterClone : CrawlState -> CloneManager.Disk)
         (D : CloneManager.Disk) (targetUrl : string) (u : URL)
         (found : CloneManager.ExistingClone),
    URL_new targetUrl None = Some u ->
    protocol u = "http:" \/ protocol u = "https:" ->
    CloneManager.checkExistingClone D (mirrorOutDir (hostname u)) (href u)
    = Some found ->
    getMirrorWebsite hostname now diskAfterClone D targetUrl
    = Some (inr (CloneManager.mkMirrorResult
                   true "✅ Website already exists locally"
                   (mirrorOutDir (hostname u)) (Some (href u))
                   (CloneManager.ecClonedAt found) true None None), D)
    /\ (CloneManager.pathExists D
          (Path.join (mirrorOutDir (hostname u)) CloneManager.METADATA_FILE) = false ->
        CloneManager.ecClonedAt found = Some "Unknown (legacy clone)").
Proof.
  intros hostname now diskAfterClone D targetUrl u found Hu Hproto Hfound.
  split.
  - unfold getMirrorWebsite.
    rewrite Hu, (protocol_accepted u Hproto), Hfound.
    now rewrite (checkExistingClone_path _ _ _ _ Hfound).
  - intros Hmeta. unfold CloneManager.checkExistingClone in Hfound.
    rewrite Hmeta in Hfound.
    destruct (negb (CloneManager.pathExists D (mirrorOutDir (hostname u))));
      [discriminate Hfound|].
    cbn [negb] in Hfound.
    destruct (CloneManager.pathExists D _); [|discriminate Hfound].
    now injection Hfound as <-.
Qed.

(** X22: A fresh mirror is found the next time.  When a call has cloned the
    site and the disk has accepted the metadata, a second call for the
    same URL clones nothing: it answers that the site exists, with the
    date of the first call, and leaves the disk alone.  The path it
    names is the directory relative to the working directory, where the
    first call named the absolute one. *)
Theorem fresh_mirror_is_found_next_time :
  forall (hostname : URL -> string) (now : string)
         (diskAfterClone : CrawlState -> CloneManager.Disk)
         (D D' : CloneManager.Disk) (targetUrl : string) (u : URL)
         (result : CloneManager.MirrorResult),
    URL_new targetUrl None = Some u ->
    getMirrorWebsite hostname now diskAfterClone D targetUrl = Some (inr result, D') ->
    CloneManager.mrIsExisting result = false ->
    (forall s,
        CloneManager.canEnsureDir (diskAfterClone s) (mirrorOutDir (hostname u)) = true
        /\ CloneManager.canWriteJson (diskAfterClone s)
             (Path.join (mirrorOutDir (hostname u)) CloneManager.METADATA_FILE) = true) ->
    CloneManager.mrOutputPath result = Path.join (cwd W) (mirrorOutDir (hostname u))
    /\ forall (later : string) (diskAfterClone' : CrawlState -> CloneManager.Disk),
         getMirrorWebsite hostname later diskAfterClone' D' targetUrl
         = Some (inr (CloneManager.mkMirrorResult
                        true "✅ Website already exists locally"
                        (mirrorOutDir (hostname u)) (Some (href u))
                        (Some now) true None None), D').
Proof.
  intros hostname now diskAfterClone D D' targetUrl u result Hu Hrun Hfresh Hdisk.
  unfold getMirrorWebsite in Hrun. rewrite Hu in Hrun.
  destruct (negb (String.eqb (protocol u) "http:" || String.eqb (protocol u) "https:"))
    eqn:Hproto; [discriminate Hrun|].
  destruct (CloneManager.checkExistingClone D _ _) as [found|].
  { injection Hrun as <- _. discriminate Hfresh. }
  destruct (clonerLoads W); cbn [negb] in Hrun; [|discriminate Hrun].
  destruct (URL_new (href u) None) as [root|] eqn:Hroot.
  - destruct (cloneWebsite_run (href u) (mirrorConfig (mirrorOutDir (hostname u)))
                root Hroot) as (c & s & Hclone & _ & Hres).
    rewrite Hclone in Hrun. destruct c as [r|e]; [|discriminate Hrun].
    destruct (Hres r eq_refl) as [Hr _].
    injection Hrun as <- <-. split.
    + cbn [CloneManager.mrOutputPath]. rewrite Hr. reflexivity.
    + intros later diskAfterClone'. unfold getMirrorWebsite.
      rewrite Hu, Hproto.
      destruct (Hdisk s) as [Hdir Hwrite].
      rewrite saveCloneMetadata_then_check with (sourceUrl := href u);
        [reflexivity | exact Hdir | exact Hwrite | reflexivity].
  - unfold cloneWebsite in Hrun. rewrite Hroot in Hrun. discriminate Hrun.
Qed.

(** X23: A mirror that finds no clone loads the cloner and runs it on the
    serialised URL with a budget of ten pages and robots respected, into
    the directory of the host.  When the module of the cloner does not
    load, the call fails with [Failed to load cloning module] and the
    disk is as it was.  When it loads, the call either fails with a
    cloning error or returns the cloner's result completed with the
    source URL, the domain and the date, marked as not existing before;
    at most ten pages are counted.  It never fails with
    [Invalid URL provided]. *)
Theorem fresh_mirror_result :
  forall (hostname : URL -> string) (now : string)
         (diskAfterClone : CrawlState -> CloneManager.Disk)
         (D : CloneManager.Disk) (targetUrl : string) (u : URL),
    URL_new targetUrl None = Some u ->
    protocol u = "http:" \/ protocol u = "https:" ->
    CloneManager.checkExistingClone D (mirrorOutDir (hostname u)) (href u) = None ->
    exists outcome D',
      getMirrorWebsite hostname now diskAfterClone D targetUrl = Some (outcome, D')
      /\ match outcome with
         | inl e =>
             (clonerLoads W = false /\ e = ModuleLoadFailed /\ D' = D)
             \/ (clonerLoads W = true
                 /\ exists cloneError (s : CrawlState),
                      cloneWebsite (href u) (mirrorConfig (mirrorOutDir (hostname u)))
                      = Some (Throw cloneError, s)
                      /\ e = CloningFailed cloneError)
         | inr result =>
             clonerLoads W = true
             /\ CloneManager.mrSuccess result = true
             /\ CloneManager.mrIsExisting result = false
             /\ CloneManager.mrClonedAt result = Some now
             /\ CloneManager.mrSourceUrl result = Some (href u)
             /\ CloneManager.mrDomain result = Some (mirrorDomain (hostname u))
             /\ CloneManager.mrOutputPath result
                = Path.join (cwd W) (mirrorOutDir (hostname u))
             /\ exists stats,
                  CloneManager.mrStatistics result = Some stats
                  /\ pagesCloned stats <= 10
                  /\ robotsRespected stats = true
         end.
Proof.
  intros hostname now diskAfterClone D targetUrl u Hu Hproto Hnone.
  unfold getMirrorWebsite. rewrite Hu, (protocol_accepted u Hproto), Hnone.
  destruct (clonerLoads W); cbn [negb].
  2:{ eexists. eexists. split; [reflexivity|]. left. auto. }
  destruct (URL_new (href u) None) as [root|] eqn:Hroot.
  - destruct (cloneWebsite_run (href u) (mirrorConfig (mirrorOutDir (hostname u)))
                root Hroot) as (c & s & Hclone & Hinv & Hres).
    rewrite Hclone. destruct c as [r|e].
    + destruct (Hres r eq_refl) as [Hr _].
      pose proof (CrawlInv_now _ _ _ _ Hinv) as (Hbudget & _ & _).
      cbn [fst mirrorConfig maxPages] in Hbudget.
      eexists. eexists. split; [reflexivity|].
      cbn [CloneManager.mrSuccess CloneManager.mrIsExisting CloneManager.mrClonedAt
           CloneManager.mrSourceUrl CloneManager.mrDomain CloneManager.mrOutputPath
           CloneManager.mrStatistics].
      rewrite Hr. unfold buildResult. cbn [success outputPath statistics].
      split; [reflexivity|].
      split; [reflexivity|]. split; [reflexivity|]. split; [reflexivity|].
      split; [reflexivity|]. split; [reflexivity|]. split; [reflexivity|].
      eexists. split; [reflexivity|]. cbn [pagesCloned robotsRespected].
      split; [lia | reflexivity].
    + eexists. eexists. split; [reflexivity|]. right. split; [reflexivity|].
      now exists e, s.
  - unfold cloneWebsite. rewrite Hroot.
    eexists. eexists. split; [reflexivity|]. right. split; [reflexivity|].
    eexists. eexists. split; reflexivity.
Qed.

(* ================================================================== *)
(** ** Visited pages and their files *)

Lemma pageSaved_kept (outputDir : string) (s s' : CrawlState) (v : string) :
  incl (map fst (files s)) (map fst (files s')) ->
  pageSaved outputDir s v -> pageSaved outputDir s' v.
Proof.
  intros Hincl H r Hr Hhtml. destruct (H r Hr Hhtml) as (pu & Hpu & Hin).
  exists pu. auto.
Qed.

Lemma putFile_keeps_paths (p c : string) (s : CrawlState) :
  incl (map fst (files s)) (map fst (files (snd (putFile p c s)))).
Proof.
  intros q Hq. cbn [putFile snd files].
  apply (in_paths_applyWrite q (files s) (Some (p, c))). now left.
Qed.

Lemma processResponse_saves (opts : Options) (rootOrigin outputDir : string)
      (rules : RobotsRules) (u : string) (response : Response) :
  fetch W u = Responded response ->
  triple (othersSaved outputDir u)
         (processResponse opts rootOrigin outputDir rules u response)
         (fun _ => pagesSaved outputDir) (fun _ _ => True).
Proof.
  intros Hfetch. unfold processResponse. fold (isHtml response).
  destruct (isHtml response) eqn:Hhtml; cbn [negb].
  - apply triple_bind with (R := fun _ => othersSaved outputDir u).
    { intros s Hs. unfold readBody, orThrow.
      destruct (body response); cbn [ret throw]; [exact Hs | exact Logic.I]. }
    intros html. apply triple_bind with (R := fun _ => othersSaved outputDir u).
    { eapply triple_conseq.
      - apply (during_rewriteDocument opts rootOrigin rules
                 (fun u0 s0 => othersSaved outputDir u0 s0)).
        + intros u0 l s0 H0. exact H0.
        + intros u0 a s0 H0. exact H0.
        + intros u0 link t s0 H0 _ _. exact H0.
      - intros s Hs. exact Hs.
      - intros a s Hs. exact Hs.
      - intros e s _. exact Logic.I. }
    intros doc.
    apply triple_bind
      with (R := fun pu s => othersSaved outputDir u s /\ URL_new u None = Some pu).
    { unfold newURL. apply triple_orThrow. intros s _ _. exact Logic.I. }
    intros pu s [Hs Hpu]. unfold bind, writeFile.
    destruct (canWriteFile W _); cbn [putFile throw logLine]; [|exact Logic.I].
    intros v Hv. cbn [visitedPages] in Hv.
    destruct (string_dec v u) as [-> | Hne].
    + intros r _ _. exists pu. split; [exact Hpu|]. cbn [files map fst]. now left.
    + apply (pageSaved_kept outputDir s); [|now apply Hs].
      apply (putFile_keeps_paths (mapTargetUrlToFilePath outputDir pu)
                                 (cheerio_html doc) s).
  - intros s Hs. cbn [logLine]. intros v Hv. cbn [visitedPages] in Hv.
    destruct (string_dec v u) as [-> | Hne].
    + intros r Hr Hr'. rewrite Hfetch in Hr. injection Hr as <-. congruence.
    + now apply Hs.
Qed.

Lemma crawlIteration_saves (opts : Options) (rootOrigin outputDir : string)
      (rules : RobotsRules) :
  triple (pagesSaved outputDir) (crawlIteration opts rootOrigin outputDir rules)
         (fun _ => pagesSaved outputDir) (fun _ _ => True).
Proof.
  intros s Hs. unfold crawlIteration. unfold bind at 1. unfold get at 1.
  destruct (pageQueue s) as [|u rest] eqn:Eq; [exact Hs|].
  unfold bind at 1.
  change (setQueue rest s) with (Normal tt, snd (setQueue rest s)).
  cbv iota.
  destruct (has u (visitedPages s)) eqn:Hhas; [exact Hs|].
  assert (Hvisit :
    match visitPage opts rootOrigin outputDir rules u (snd (setQueue rest s)) with
    | (Normal _, s') => pagesSaved outputDir s'
    | (Throw _, s') => True
    end).
  { unfold visitPage, bind, addVisited, notePageFetch, setQueue, fetchPage, tryCatch,
      doFetch. cbn [snd fst].
    destruct (fetch W u) as [|response] eqn:Hfetch; cbn [throw ret logLine].
    - intros v Hv. cbn [visitedPages] in Hv.
      destruct (string_dec v u) as [-> | Hne].
      + intros r Hr. rewrite Hfetch in Hr. discriminate Hr.
      + apply (pageSaved_kept outputDir s); [apply incl_refl|]. apply Hs.
        unfold setAdd in Hv. rewrite Hhas in Hv. apply in_app_or in Hv.
        destruct Hv as [Hv | [E | []]]; [exact Hv | congruence].
    - apply (processResponse_saves opts rootOrigin outputDir rules u response Hfetch).
      intros v Hv Hne. cbn [visitedPages] in Hv.
      apply (pageSaved_kept outputDir s); [apply incl_refl|]. apply Hs.
      unfold setAdd in Hv. rewrite Hhas in Hv. apply in_app_or in Hv.
      destruct Hv as [Hv | [E | []]]; [exact Hv | congruence]. }
  destruct (respectRobots opts).
  - unfold bind at 1. unfold checkUrlAllowed, orThrow.
    destruct (isUrlAllowed u (disallowedPaths rules)) as [[|]|];
      unfold bind at 1; cbn [ret throw negb].
    + exact Hvisit.
    + exact Hs.
    + exact Logic.I.
  - unfold bind at 1. cbn [ret]. exact Hvisit.
Qed.

Lemma crawlLoop_saves (opts : Options) (rootOrigin outputDir : string)
      (rules : RobotsRules) (fuel : nat) (s s' : CrawlState) :
  pagesSaved outputDir s ->
  crawlLoop opts rootOrigin outputDir rules fuel s = Some (Normal tt, s') ->
  pagesSaved outputDir s'.
Proof.
  revert s. induction fuel as [|fuel IH]; intros s Hs H; [discriminate H|].
  cbn [crawlLoop] in H. destruct (loopCondition opts s).
  - pose proof (crawlIteration_saves opts rootOrigin outputDir rules s Hs) as Hstep.
    destruct (crawlIteration opts rootOrigin outputDir rules s) as [[a|e] s1].
    + now apply (IH s1).
    + discriminate H.
  - injection H as <-. exact Hs.
Qed.

(** X14: Every HTML page that was visited has its file.  When a run
    returns, each visited URL whose response was taken for HTML parses
    as a URL and the file the page mapper assigns to it is in the output
    tree; the asset phase, which comes later, removes no file. *)
Theorem visited_html_pages_are_saved :
  forall (targetUrl : string) (opts : Options) (root : URL)
         (result : CloneResult) (s : CrawlState),
    URL_new targetUrl None = Some root ->
    cloneWebsite targetUrl opts = Some (Normal result, s) ->
    forall (v : string) (r : Response),
      In v (visitedPages s) ->
      fetch W v = Responded r ->
      JS.includes (match contentType r with Some t => t | None => "" end)
                  "text/html" = true ->
      exists pu : URL,
        URL_new v None = Some pu
        /\ In (mapTargetUrlToFilePath (Path.join (cwd W) (outDir opts)) pu)
              (map fst (files s)).
Proof.
  intros targetUrl opts root result s Hroot Hrun v r Hv Hr Hhtml.
  set (outputDir := Path.join (cwd W) (outDir opts)).
  destruct (cloneWebsite_stages targetUrl opts root _ s Hroot Hrun)
    as [(_ & _ & e & E) | (_ & _ & c3 & s3 & Hloop & Hend)]; [discriminate E|].
  fold outputDir in Hloop, Hend.
  destruct Hend as [(e & _ & E & _) | [-> ->]]; [discriminate E|].
  apply crawlLoop_saves in Hloop; [|intros x []].
  pose proof (stable_downloadAssets sameCrawl sameCrawl_refl sameCrawl_trans
                sameCrawl_logLine sameCrawl_putFile opts (origin root)
                outputDir s3) as (E1 & _).
  rewrite E1 in Hv.
  refine (pageSaved_kept outputDir s3 _ v _ (Hloop v Hv) r Hr Hhtml).
  intros p Hp. unfold downloadAssets, bind, get.
  change (In p (map fst (files (snd (forEachM
            (downloadAsset opts (origin root) outputDir) (assetSet s3) s3))))).
  rewrite downloadAssets_files, in_paths_writes. now left.
Qed.

(* ================================================================== *)
(** ** Links and the queue *)














(* ================================================================== *)
(** ** Robots enforcement *)


(* ================================================================== *)
(** ** What a run can throw *)

Lemma throwsLocal_ret {A} (a : A) : throwsLocal (ret a).
Proof. intros s. exact Logic.I. Qed.

Lemma throwsLocal_throw {A} (e : Exn) : localFailure e = true -> throwsLocal (@throw A e).
Proof. intros H s. exact H. Qed.

Lemma throwsLocal_orThrow {A} (o : option A) (e : Exn) :
  localFailure e = true -> throwsLocal (orThrow o e).
Proof. intros H. destruct o; [apply throwsLocal_ret | now apply throwsLocal_throw]. Qed.

Lemma throwsLocal_bind {A B} (m : M A) (k : A -> M B) :
  throwsLocal m -> (forall a, throwsLocal (k a)) -> throwsLocal (bind m k).
Proof.
  intros Hm Hk s. unfold bind. specialize (Hm s).
  destruct (m s) as [[a|e] s']; [apply Hk | exact Hm].
Qed.

(** A [catch] that cannot throw stops everything. *)
Lemma throwsLocal_tryCatch {A} (m : M A) (h : Exn -> M A) :
  (forall e, throwsLocal (h e)) -> throwsLocal (tryCatch m h).
Proof.
  intros Hh s. unfold tryCatch. destruct (m s) as [[a|e] s']; [exact Logic.I | apply Hh].
Qed.

Lemma throwsLocal_mapM {A B} (f : A -> M B) (l : list A) :
  (forall a, throwsLocal (f a)) -> throwsLocal (mapM f l).
Proof.
  intros Hf. induction l as [|a l IH]; cbn [mapM]; [apply throwsLocal_ret|].
  apply throwsLocal_bind; [apply Hf|]. intros b.
  apply throwsLocal_bind; [apply IH|]. intros bs. apply throwsLocal_ret.
Qed.

Lemma throwsLocal_state {A} (m : M A) :
  (forall s, exists a s', m s = (Normal a, s')) -> throwsLocal m.
Proof. intros H s. destruct (H s) as (a & s' & ->). exact Logic.I. Qed.

Ltac throws_step :=
  first
    [ apply throwsLocal_ret
    | apply throwsLocal_throw; reflexivity
    | apply throwsLocal_orThrow; reflexivity
    | apply throwsLocal_tryCatch
    | apply throwsLocal_bind
    | apply throwsLocal_mapM
    | apply throwsLocal_state; intros; eexists; eexists; reflexivity
    | match goal with
      | |- throwsLocal (match ?x with _ => _ end) => destruct x
      | |- forall _, _ => intro
      end ].

Lemma throwsLocal_rewriteDocument (opts : Options) (rootOrigin : string)
      (rules : RobotsRules) (currentUrl : string) (doc : Document) :
  throwsLocal (rewriteDocument opts rootOrigin rules currentUrl doc).
Proof.
  unfold rewriteDocument, each, imgRule, imgAttrRule, srcsetEntry, resourceRule,
    anchorRule, shouldAdd, checkUrlAllowed, newURL.
  repeat throws_step.
Qed.

Lemma throwsLocal_crawlIteration (opts : Options) (rootOrigin outputDir : string)
      (rules : RobotsRules) :
  throwsLocal (crawlIteration opts rootOrigin outputDir rules).
Proof.
  unfold crawlIteration, visitPage, fetchPage, processResponse, checkUrlAllowed,
    readBody, newURL, writeFile.
  repeat first [apply throwsLocal_rewriteDocument | throws_step].
Qed.

Lemma throwsLocal_crawlLoop (opts : Options) (rootOrigin outputDir : string)
      (rules : RobotsRules) (fuel : nat) (s s' : CrawlState) (e : Exn) :
  crawlLoop opts rootOrigin outputDir rules fuel s = Some (Throw e, s') ->
  localFailure e = true.
Proof.
  revert s. induction fuel as [|fuel IH]; intros s Hloop; [discriminate Hloop|].
  cbn [crawlLoop] in Hloop.
  destruct (loopCondition opts s); [|discriminate Hloop].
  pose proof (throwsLocal_crawlIteration opts rootOrigin outputDir rules s) as Hstep.
  destruct (crawlIteration opts rootOrigin outputDir rules s) as [[a|x] s1];
    cbn [fst] in Hstep.
  - now apply (IH s1).
  - injection Hloop as <- _. exact Hstep.
Qed.

(** X15: A failure of the network never ends a run.  Whatever a run throws
    is a local failure -- an address that is not a URL, an escape that
    cannot be decoded, a body that cannot be read, a refusal of the file
    system or of the limiter -- and never a rejected [fetch] or an HTTP
    status. *)
Theorem network_failures_never_end_a_run :
  forall (targetUrl : string) (opts : Options) (e : Exn) (s : CrawlState),
    cloneWebsite targetUrl opts = Some (Throw e, s) ->
    match e with
    | FetchFailed _ | HttpStatus _ => False
    | InvalidURL _ | MalformedURI _ | BodyFailed _ | FsFailed _
    | InvalidConcurrency _ => True
    end.
Proof.
  intros targetUrl opts e s H.
  assert (Hlocal : localFailure e = true).
  { unfold cloneWebsite in H.
    destruct (URL_new targetUrl None) as [root|]; [|injection H as <- _; reflexivity].
    rewrite resolve_policy in H.
    destruct (concurrency opts <? 1)%Z; [injection H as <- _; reflexivity|].
    unfold emptyDir in H.
    destruct (canEmptyDir W _); [|injection H as <- _; reflexivity].
    cbn [clearFiles] in H.
    match type of H with
    | match ?loop with _ => _ end = _ => destruct loop as [[[[]|e3] s3]|] eqn:Hloop
    end; [| |discriminate H].
    - pose proof (downloadAssets_normal opts (origin root)
                    (Path.join (cwd W) (outDir opts)) s3) as Hn.
      destruct (downloadAssets opts (origin root) _ s3) as [[[]|e4] s4];
        [discriminate H | discriminate Hn].
    - injection H as <- _. exact (throwsLocal_crawlLoop _ _ _ _ _ _ _ _ Hloop). }
  destruct e; try exact Logic.I; discriminate Hlocal.
Qed.

(* ================================================================== *)
(** ** The agent loop *)

Lemma cloneWebsite_returns (targetUrl : string) (opts : Options) :
  exists c s, cloneWebsite targetUrl opts = Some (c, s).
Proof.
  destruct (URL_new targetUrl None) as [root|] eqn:Hroot.
  - destruct (cloneWebsite_run targetUrl opts root Hroot) as (c & s & Hrun & _).
    now exists c, s.
  - unfold cloneWebsite. rewrite Hroot. eauto.
Qed.

Lemma getMirrorWebsite_returns (hostname : URL -> string) (now : string)
      (diskAfterClone : CrawlState -> CloneManager.Disk) (D : CloneManager.Disk)
      (targetUrl : string) :
  exists outcome D',
    getMirrorWebsite hostname now diskAfterClone D targetUrl = Some (outcome, D').
Proof.
  unfold getMirrorWebsite.
  destruct (URL_new targetUrl None) as [u|]; [|eauto].
  destruct (negb _); [eauto|].
  destruct (CloneManager.checkExistingClone D _ _); [eauto|].
  destruct (negb (clonerLoads W)); [eauto|].
  destruct (cloneWebsite_returns (href u) (mirrorConfig (mirrorOutDir (hostname u))))
    as (c & s & ->).
  destruct c; eauto.
Qed.

Section AgentFacts.

Variable hostname : URL -> string.
Variable now : string.
Variable diskAfterClone : CrawlState -> CloneManager.Disk.
Variable llm : list Agent.Message -> option string.
Variable JSON_parse : string -> option Agent.Parsed.
Variable exec :
  CloneManager.Disk -> Agent.Arg -> option (string + string) * CloneManager.Disk.
Variable inherited : string -> option (Agent.Arg -> string + string).

Lemma callTool_returns (D : CloneManager.Disk) (r : Agent.Reply) :
  exists called, callTool hostname now diskAfterClone exec inherited D r = Some called.
Proof.
  unfold callTool.
  destruct (String.eqb (Agent.replyToolName r) "runSystemCommand").
  { destruct (exec D _) as [[[data|message]|] D']; eauto. }
  destruct (String.eqb (Agent.replyToolName r) "getMirrorWebsite").
  { destruct (getMirrorWebsite_returns hostname now diskAfterClone D
                (Agent.argText (Agent.replyInput r))) as ([e|result] & D' & ->); eauto. }
  destruct (inherited _) as [tool|]; [|eauto].
  destruct (tool _); eauto.
Qed.

(** A tool call that changes the disk is a call of one of the two own
    tools. *)
Lemma callTool_disk (D D' : CloneManager.Disk) (r : Agent.Reply) (o : Agent.Observation) :
  callTool hostname now diskAfterClone exec inherited D r = Some (Agent.Settled o D') ->
  D' <> D ->
  Agent.replyToolName r = "runSystemCommand"
  \/ Agent.replyToolName r = "getMirrorWebsite".
Proof.
  unfold callTool.
  destruct (String.eqb (Agent.replyToolName r) "runSystemCommand") eqn:E1;
    [apply String.eqb_eq in E1; auto|].
  destruct (String.eqb (Agent.replyToolName r) "getMirrorWebsite") eqn:E2;
    [apply String.eqb_eq in E2; auto|].
  destruct (inherited _) as [tool|].
  - destruct (tool _); intros H; injection H as _ <-; congruence.
  - intros H; injection H as _ <-; congruence.
Qed.

(** A tool call never settles exactly when it runs a command that never
    exits. *)
Lemma callTool_unsettled (D D' : CloneManager.Disk) (r : Agent.Reply) :
  callTool hostname now diskAfterClone exec inherited D r = Some (Agent.Unsettled D')
  <-> Agent.replyToolName r = "runSystemCommand"
      /\ exec D (commandOf (Agent.replyInput r)) = (None, D').
Proof.
  unfold callTool.
  destruct (String.eqb (Agent.replyToolName r) "runSystemCommand") eqn:E1.
  - apply String.eqb_eq in E1.
    destruct (exec D _) as [[[data|message]|] D0]; split;
      try (intros H; discriminate H);
      try (intros [_ H]; discriminate H).
    + intros H. injection H as <-. auto.
    + intros [_ H]. injection H as <-. reflexivity.
  - apply String.eqb_neq in E1. split; [|intros [H _]; contradiction].
    destruct (String.eqb (Agent.replyToolName r) "getMirrorWebsite").
    + destruct (getMirrorWebsite _ _ _ _ _) as [[[e|result] D0]|]; discriminate.
    + destruct (inherited _) as [tool|]; [destruct (tool _)|]; discriminate.
Qed.

(** What a turn adds to the conversation. *)
Lemma agentTurn_extends (h : list Agent.Message) (D : CloneManager.Disk) :
  exists t,
    agentTurn hostname now diskAfterClone llm JSON_parse exec inherited h D = Some t
    /\ exists added,
         Agent.turnHistory t = (h ++ added)%list
         /\ Agent.exchanges added
         /\ List.length added <= 2.
Proof.
  unfold agentTurn. destruct (llm h) as [text|].
  2:{ eexists. split; [reflexivity|]. exists []. cbn. rewrite app_nil_r.
      repeat split; [constructor | lia]. }
  assert (Hone : forall j,
             exists added,
               (h ++ [Agent.mkMessage Agent.RoleAssistant (Agent.ReplyText j)])%list
               = (h ++ added)%list
               /\ Agent.exchanges added /\ List.length added <= 2).
  { intros j. eexists. split; [reflexivity|].
    split; [apply Agent.exchanges_reply, Agent.exchanges_nil | simpl; lia]. }
  destruct (parseResponse JSON_parse (JS.trim text)) as [[|r]|];
    [eexists; split; [reflexivity | apply Hone] | | eexists; split; [reflexivity | apply Hone]].
  destruct (stepIs r "START"); [eexists; split; [reflexivity | apply Hone]|].
  destruct (stepIs r "THINK"); [eexists; split; [reflexivity | apply Hone]|].
  destruct (stepIs r "TOOL").
  - destruct (callTool_returns D r) as ([o D'|D'] & ->).
    + eexists. split; [reflexivity|]. cbn [Agent.turnHistory].
      exists [Agent.mkMessage Agent.RoleAssistant
                (Agent.ReplyText (Some (Agent.replyJson r)));
              Agent.mkMessage Agent.RoleDeveloper (Agent.Observe o)].
      split; [now rewrite <- app_assoc|].
      split; [apply Agent.exchanges_observed, Agent.exchanges_nil | simpl; lia].
    + eexists. split; [reflexivity | apply Hone].
  - destruct (stepIs r "OUTPUT"); eexists; (split; [reflexivity | apply Hone]).
Qed.

Lemma exchanges_app (a b : list Agent.Message) :
  Agent.exchanges a -> Agent.exchanges b -> Agent.exchanges (a ++ b).
Proof.
  intros Ha Hb. induction Ha as [|j rest Ha IH|j o rest Ha IH]; cbn [app].
  - exact Hb.
  - now apply Agent.exchanges_reply.
  - now apply Agent.exchanges_observed.
Qed.

Lemma agentRun_extends (n : nat) (h : list Agent.Message) (D : CloneManager.Disk) :
  exists t,
    agentRun hostname now diskAfterClone llm JSON_parse exec inherited n h D = Some t
    /\ exists added,
         Agent.turnHistory t = (h ++ added)%list
         /\ Agent.exchanges added
         /\ List.length added <= 2 * n.
Proof.
  revert h D. induction n as [|n IH]; intros h D; cbn [agentRun].
  - eexists. split; [reflexivity|]. exists []. cbn. rewrite app_nil_r.
    repeat split; [constructor | lia].
  - destruct (agentTurn_extends h D) as (t & -> & added & Hh & Hex & Hlen).
    destruct t as [h' D'|h' D'|h' D'|h' D']; cbn [Agent.turnHistory] in Hh.
    + destruct (IH h' D') as (t' & Hrun & more & Hh' & Hex' & Hlen').
      exists t'. split; [exact Hrun|]. exists (added ++ more)%list.
      split; [now rewrite Hh', Hh, app_assoc|]. split; [now apply exchanges_app|].
      rewrite length_app. lia.
    + eexists. split; [reflexivity|]. exists added. cbn [Agent.turnHistory].
      split; [exact Hh|]. split; [exact Hex | lia].
    + eexists. split; [reflexivity|]. exists added. cbn [Agent.turnHistory].
      split; [exact Hh|]. split; [exact Hex | lia].
    + eexists. split; [reflexivity|]. exists added. cbn [Agent.turnHistory].
      split; [exact Hh|]. split; [exact Hex | lia].
Qed.

(** X24: The conversation keeps its shape.  After any number of turns
    the agent has produced a state, and the history is the two opening
    messages followed by replies of the assistant, each followed by at
    most one observation of the developer role; a turn adds at most two
    messages and removes none. *)
Theorem conversation_is_replies_and_observations :
  forall (n : nat) (websiteUrl : string) (D : CloneManager.Disk),
  exists t,
    agentRun hostname now diskAfterClone llm JSON_parse exec inherited n
             (Agent.initialHistory websiteUrl) D = Some t
    /\ exists body,
         Agent.turnHistory t = (Agent.initialHistory websiteUrl ++ body)%list
         /\ Agent.exchanges body
         /\ List.length body <= 2 * n.
Proof. intros n websiteUrl D. apply agentRun_extends. Qed.

Lemma stepIs_iff (r : Agent.Reply) (name : string) :
  stepIs r name = true <-> Agent.replyStep r = Some name.
Proof.
  unfold stepIs. destruct (Agent.replyStep r) as [s|]; [|split; discriminate].
  rewrite String.eqb_eq. split; congruence.
Qed.

(** X25: How a turn ends.  A turn stays pending for ever exactly when
    it is a [TOOL] step that calls [runSystemCommand] with a command
    that never exits: [exec] is given no timeout.  Every other turn
    ends, the call of the model being taken to settle; it ends with an
    uncaught exception exactly when the model gives no text or the text
    parses to nothing or to [null], and it ends the loop exactly when
    the reply's step is [OUTPUT].  In particular a tool that throws, an
    unknown tool and an unknown step neither end nor crash the agent. *)
Theorem agent_turn_outcomes :
  forall (h : list Agent.Message) (D : CloneManager.Disk),
  exists t,
    agentTurn hostname now diskAfterClone llm JSON_parse exec inherited h D = Some t
    /\ ((exists h' D', t = Agent.Pending h' D')
        <-> exists text r,
              llm h = Some text
              /\ parseResponse JSON_parse (JS.trim text) = Some (Agent.ParsedValue r)
              /\ Agent.replyStep r = Some "TOOL"
              /\ Agent.replyToolName r = "runSystemCommand"
              /\ fst (exec D (commandOf (Agent.replyInput r))) = None)
    /\ ((exists h' D', t = Agent.Crashed h' D')
        <-> (llm h = None
             \/ exists text,
                  llm h = Some text
                  /\ (parseResponse JSON_parse (JS.trim text) = None
                      \/ parseResponse JSON_parse (JS.trim text)
                         = Some Agent.ParsedNull)))
    /\ ((exists h' D', t = Agent.Done h' D')
        <-> exists text r,
              llm h = Some text
              /\ parseResponse JSON_parse (JS.trim text) = Some (Agent.ParsedValue r)
              /\ Agent.replyStep r = Some "OUTPUT").
Proof.
  intros h D. unfold agentTurn. destruct (llm h) as [text|].
  2:{ eexists. split; [reflexivity|]. split; [|split]; split.
      - intros (h' & D' & E). discriminate E.
      - intros (text & r & E & _). discriminate E.
      - now left.
      - eauto.
      - intros (h' & D' & E). discriminate E.
      - intros (text & r & E & _). discriminate E. }
  destruct (parseResponse JSON_parse (JS.trim text)) as [[|r]|] eqn:Hparse.
  - eexists. split; [reflexivity|]. split; [|split]; split.
    + intros (h' & D' & E). discriminate E.
    + intros (text' & r & E & E' & _). injection E as <-. congruence.
    + intros _. right. exists text. auto.
    + eauto.
    + intros (h' & D' & E). discriminate E.
    + intros (text' & r & E & E' & _). injection E as <-. congruence.
  - assert (Hcrash : ~ (Some text = None
                        \/ exists text', Some text = Some text'
                             /\ (parseResponse JSON_parse (JS.trim text') = None
                                 \/ parseResponse JSON_parse (JS.trim text')
                                    = Some Agent.ParsedNull))).
    { intros [E | (text' & E & [E' | E'])]; [discriminate E | |];
        injection E as <-; congruence. }
    assert (Hdone : (exists text' r',
                        Some text = Some text'
                        /\ parseResponse JSON_parse (JS.trim text')
                           = Some (Agent.ParsedValue r')
                        /\ Agent.replyStep r' = Some "OUTPUT")
                    <-> Agent.replyStep r = Some "OUTPUT").
    { split.
      - intros (text' & r' & E & E' & Hs). injection E as <-. congruence.
      - intros Hs. exists text, r. auto. }
    assert (Hpending : (exists text' r',
                          Some text = Some text'
                          /\ parseResponse JSON_parse (JS.trim text')
                             = Some (Agent.ParsedValue r')
                          /\ Agent.replyStep r' = Some "TOOL"
                          /\ Agent.replyToolName r' = "runSystemCommand"
                          /\ fst (exec D (commandOf (Agent.replyInput r'))) = None)
                       <-> (Agent.replyStep r = Some "TOOL"
                            /\ Agent.replyToolName r = "runSystemCommand"
                            /\ fst (exec D (commandOf (Agent.replyInput r))) = None)).
    { split.
      - intros (text' & r' & E & E' & Hs). injection E as <-.
        rewrite Hparse in E'. injection E' as <-. exact Hs.
      - intros Hs. exists text, r. auto. }
    assert (Hcont : forall h' D',
              ~ (Agent.replyStep r = Some "TOOL"
                 /\ Agent.replyToolName r = "runSystemCommand"
                 /\ fst (exec D (commandOf (Agent.replyInput r))) = None) ->
              Agent.replyStep r <> Some "OUTPUT" ->
              ((exists h0 D0, Agent.Continue h' D' = Agent.Pending h0 D0)
               <-> exists text' r',
                     Some text = Some text'
                     /\ parseResponse JSON_parse (JS.trim text')
                        = Some (Agent.ParsedValue r')
                     /\ Agent.replyStep r' = Some "TOOL"
                     /\ Agent.replyToolName r' = "runSystemCommand"
                     /\ fst (exec D (commandOf (Agent.replyInput r'))) = None)
              /\ ((exists h0 D0, Agent.Continue h' D' = Agent.Crashed h0 D0)
                  <-> (Some text = None
                       \/ exists text', Some text = Some text'
                            /\ (parseResponse JSON_parse (JS.trim text') = None
                                \/ parseResponse JSON_parse (JS.trim text')
                                   = Some Agent.ParsedNull)))
              /\ ((exists h0 D0, Agent.Continue h' D' = Agent.Done h0 D0)
                  <-> exists text' r',
                        Some text = Some text'
                        /\ parseResponse JSON_parse (JS.trim text')
                           = Some (Agent.ParsedValue r')
                        /\ Agent.replyStep r' = Some "OUTPUT")).
    { intros h' D' Hnp Hne. split; [|split]; split.
      - intros (h0 & D0 & E). discriminate E.
      - intros H. apply Hpending in H. contradiction.
      - intros (h0 & D0 & E). discriminate E.
      - intros H. now destruct (Hcrash H).
      - intros (h0 & D0 & E). discriminate E.
      - intros H. apply Hdone in H. contradiction. }
    destruct (stepIs r "START") eqn:E1.
    { apply stepIs_iff in E1. eexists. split; [reflexivity|].
      apply Hcont; [intros [Hs _] | ]; rewrite E1 in *; discriminate. }
    destruct (stepIs r "THINK") eqn:E2.
    { apply stepIs_iff in E2. eexists. split; [reflexivity|].
      apply Hcont; [intros [Hs _] | ]; rewrite E2 in *; discriminate. }
    destruct (stepIs r "TOOL") eqn:E3.
    { apply stepIs_iff in E3.
      destruct (callTool hostname now diskAfterClone exec inherited D r)
        as [[o D'|D']|] eqn:Hcall.
      - eexists. split; [reflexivity|]. apply Hcont; [|rewrite E3; discriminate].
        intros (_ & Hname & Hexec).
        destruct (exec D (commandOf (Agent.replyInput r))) as [out D0] eqn:Hex.
        cbn [fst] in Hexec. subst out.
        assert (Hun : callTool hostname now diskAfterClone exec inherited D r
                      = Some (Agent.Unsettled D0))
          by (apply callTool_unsettled; auto).
        rewrite Hcall in Hun. discriminate Hun.
      - apply callTool_unsettled in Hcall. destruct Hcall as [Hname Hexec].
        eexists. split; [reflexivity|]. split; [|split]; split.
        + intros _. apply Hpending. rewrite Hexec. auto.
        + eauto.
        + intros (h0 & D0 & E). discriminate E.
        + intros H. now destruct (Hcrash H).
        + intros (h0 & D0 & E). discriminate E.
        + intros H. apply Hdone in H. rewrite E3 in H. discriminate H.
      - destruct (callTool_returns D r) as (called & Hc).
        rewrite Hcall in Hc. discriminate Hc. }
    destruct (stepIs r "OUTPUT") eqn:E4.
    + apply stepIs_iff in E4. eexists. split; [reflexivity|]. split; [|split]; split.
      * intros (h0 & D0 & E). discriminate E.
      * intros H. apply Hpending in H. destruct H as [Hs _].
        rewrite E4 in Hs. discriminate Hs.
      * intros (h0 & D0 & E). discriminate E.
      * intros H. now destruct (Hcrash H).
      * intros _. now apply Hdone.
      * eauto.
    + eexists. split; [reflexivity|]. apply Hcont.
      * intros [Hs _]. apply stepIs_iff in Hs. congruence.
      * intros Hs. apply stepIs_iff in Hs. congruence.
  - eexists. split; [reflexivity|]. split; [|split]; split.
    + intros (h' & D' & E). discriminate E.
    + intros (text' & r & E & E' & _). injection E as <-. congruence.
    + intros _. right. exists text. auto.
    + eauto.
    + intros (h' & D' & E). discriminate E.
    + intros (text' & r & E & E' & _). injection E as <-. congruence.
Qed.

(** X26: Only tool steps touch the disk.  A turn that leaves the disk
    other than it found it is a [TOOL] step that names
    [runSystemCommand] or [getMirrorWebsite]; thinking, answering, and
    calling a name that is not one of the two tools change nothing. *)
Theorem only_tool_steps_touch_the_disk :
  forall (h : list Agent.Message) (D : CloneManager.Disk) (t : Agent.Turn),
    agentTurn hostname now diskAfterClone llm JSON_parse exec inherited h D = Some t ->
    Agent.turnDisk t <> D ->
    exists text r,
      llm h = Some text
      /\ parseResponse JSON_parse (JS.trim text) = Some (Agent.ParsedValue r)
      /\ Agent.replyStep r = Some "TOOL"
      /\ (Agent.replyToolName r = "runSystemCommand"
          \/ Agent.replyToolName r = "getMirrorWebsite").
Proof.
  intros h D t. unfold agentTurn. destruct (llm h) as [text|].
  2:{ intros H Hd. injection H as <-. now destruct Hd. }
  destruct (parseResponse JSON_parse (JS.trim text)) as [[|r]|] eqn:Hparse.
  - intros H Hd. injection H as <-. now destruct Hd.
  - destruct (stepIs r "START"); [intros H Hd; injection H as <-; now destruct Hd|].
    destruct (stepIs r "THINK"); [intros H Hd; injection H as <-; now destruct Hd|].
    destruct (stepIs r "TOOL") eqn:E3.
    + apply stepIs_iff in E3.
      destruct (callTool hostname now diskAfterClone exec inherited D r)
        as [[o D'|D']|] eqn:Hcall; [| |discriminate].
      * intros H Hd. injection H as <-. cbn [Agent.turnDisk] in Hd.
        exists text, r. split; [reflexivity|]. split; [exact Hparse|].
        split; [exact E3|]. exact (callTool_disk D D' r o Hcall Hd).
      * intros H Hd. injection H as <-.
        exists text, r. split; [reflexivity|]. split; [exact Hparse|].
        split; [exact E3|]. left. now apply callTool_unsettled in Hcall.
    + destruct (stepIs r "OUTPUT"); intros H Hd; injection H as <-; now destruct Hd.
  - intros H Hd. injection H as <-. now destruct Hd.
Qed.

End AgentFacts.


End Cloner.

(** A run always ends: the fuel granted to the loop is enough, whatever
    the start URL, the options and the site. *)
Lemma cloneWebsite_total :
  forall URL_new decodeURIComponent cheerio_load cheerio_html W
         (targetUrl : string) (opts : Options),
  exists c s,
    cloneWebsite URL_new decodeURIComponent cheerio_load cheerio_html W targetUrl opts
    = Some (c, s).
Proof.
  intros. destruct (URL_new targetUrl None) as [root|] eqn:Hroot.
  - destruct (cloneWebsite_run URL_new decodeURIComponent cheerio_load cheerio_html W
                targetUrl opts root Hroot) as (c & s & Hrun & _).
    now exists c, s.
  - unfold cloneWebsite. rewrite Hroot. eauto.
Qed.

(* ================================================================== *)
(** ** The model at work *)

Example split_examples :
  JS.splitChar "/" "/a//b/" = [""; "a"; ""; "b"; ""]
  /\ JS.split "url=" "/_next/image?url=%2Fa.png&w=64" = ["/_next/image?"; "%2Fa.png&w=64"]
  /\ JS.splitSpaces (JS.trim "  a.png   2x ") = ["a.png"; "2x"]
  /\ JS.trim "  Disallow: /x  " = "Disallow: /x"
  /\ nextImageCapture "/_next/image?url=%2Fa.png&w=64" = Some "%2Fa.png".
Proof. repeat split. Qed.

(** [path.extname], [path.basename] and [path.join] on the inputs of
    Node's documentation and a few corner cases. *)
Example path_examples :
  Path.extname "index.html" = ".html"
  /\ Path.extname "index.coffee.md" = ".md"
  /\ Path.extname "index." = "."
  /\ Path.extname "index" = ""
  /\ Path.extname ".index" = ""
  /\ Path.extname ".index.md" = ".md"
  /\ Path.extname "/a/.." = ""
  /\ Path.extname "/a.b/" = ".b"
  /\ Path.basename "/foo/bar/quux.html" = "quux.html"
  /\ Path.join "/foo" "bar/baz/../quux" = "/foo/bar/quux"
  /\ Path.join "/out" "../etc/passwd" = "/etc/passwd"
  /\ Path.normalize "/foo/bar//baz/asdf/quux/.." = "/foo/bar/baz/asdf".
Proof. repeat split. Qed.

(** The test vectors of RFC 1321. *)
Example md5_examples :
  MD5.hex "" = "d41d8cd98f00b204e9800998ecf8427e"
  /\ MD5.hex "a" = "0cc175b9c0f1b6a831c399e269772661"
  /\ MD5.hex "abc" = "900150983cd24fb0d6963f7d28e17f72"
  /\ MD5.hex "message digest" = "f96b697d7cb7938d525a2f31aaf161d0"
  /\ MD5.hex "abcdefghijklmnopqrstuvwxyz" = "c3fcd3d76192e4007dfb496cca67e13b"
  /\ MD5.hex "12345678901234567890123456789012345678901234567890123456789012345678901234567890"
     = "57edf4a22be3c955ac49da2e2107b67a".
Proof. vm_compute. repeat split. Qed.

Example parseInt_examples :
  parseInt "10" = Some 10%Z /\ parseInt "  7s" = Some 7%Z /\ parseInt "0x1f" = Some 31%Z
  /\ parseInt "-3" = Some (-3)%Z /\ parseInt "soon" = None /\ parseInt "" = None.
Proof. repeat split. Qed.

Example robots_example :
  parseRobotsForUserAgent
    ("User-agent: Other" ++ Demo.newline ++ "Disallow: /other" ++ Demo.newline
     ++ "User-agent: *" ++ Demo.newline ++ "Disallow: /private" ++ Demo.newline
     ++ "Disallow:" ++ Demo.newline ++ "Crawl-delay: 2" ++ Demo.newline)
    USER_AGENT_NAME
  = mkRobotsRules ["/private"] 2.
Proof. reflexivity. Qed.

Example isUrlAllowed_examples :
  isUrlAllowed Demo.URL_new "https://example.test/private/x" ["/private"] = Some false
  /\ isUrlAllowed Demo.URL_new "https://example.test/private" ["/private"] = Some false
  /\ isUrlAllowed Demo.URL_new "https://example.test/privateer" ["/private"] = Some true
  /\ isUrlAllowed Demo.URL_new "https://example.test/privateer" ["/private*"] = Some false
  /\ isUrlAllowed Demo.URL_new "https://example.test/open" ["/private"; "/tmp*"] = Some true.
Proof. repeat split. Qed.

Example mapper_examples :
  mapTargetUrlToFilePath "/work/out"
    (mkURL "https:" "https://example.test" "https://example.test" "/" "" "")
  = "/work/out/index.html"
  /\ mapTargetUrlToFilePath "/work/out"
       (mkURL "https:" "https://example.test" "https://example.test" "/about" "?x=1" "#k")
     = "/work/out/about/index.html"
  /\ mapTargetUrlToFilePath "/work/out"
       (mkURL "https:" "https://example.test" "https://example.test" "/docs/a.html" "" "")
     = "/work/out/docs/a.html"
  /\ localizeAssetPath
       (mkURL "https:" "https://cdn.test" "https://cdn.test" "/logo.png" "" "")
     = "assets/9b0279-logo.png"
  /\ localizeAssetPath
       (mkURL "https:" "https://cdn.test" "https://cdn.test" "/img/a/logo.png" "?v=2" "")
     = "assets/b3b52b-img_a_logo.png".
Proof. vm_compute. repeat split. Qed.

(** The cloner on the small platform. *)
Local Abbreviation cloneDemo :=
  (cloneWebsite Demo.URL_new Demo.decodeURIComponent Demo.cheerio_load
                Demo.cheerio_html).

Local Abbreviation exampleRoot :=
  (mkURL "https:" "https://example.test" "https://example.test" "/" "" "").

(** The scenario of the specification: a start page that links to
    [/about/] and shows an image of another origin. *)
Example scenario_two_pages_one_asset :
  exists r s,
    cloneDemo (Demo.worldOf Demo.exampleSite) "https://example.test/" defaultOptions
    = Some (Normal r, s)
    /\ statistics r = mkStatistics 2 1 false true
    /\ map fst (files s)
       = ["/work/cloned-websites/assets/9b0279-logo.png";
          "/work/cloned-websites/about/index.html";
          "/work/cloned-websites/index.html"].
Proof. vm_compute. eexists. eexists. repeat split. Qed.

(** The same site with a budget of one page. *)
Example scenario_budget_of_one :
  exists r s,
    cloneDemo (Demo.worldOf Demo.exampleSite) "https://example.test/"
              (mkOptions "cloned-websites" 1 true 10 true)
    = Some (Normal r, s)
    /\ statistics r = mkStatistics 1 1 true true
    /\ pageFetches s = ["https://example.test/"]
    /\ pageQueue s = ["https://example.test/about/"].
Proof. vm_compute. eexists. eexists. repeat split. Qed.

(* ================================================================== *)
(** ** Statistics *)

(** C10: [pagesCloned] counts the visited URLs.  Every run from a start
    URL that parses ends; its visited set is the list of the page
    fetches it attempted, and the [pagesCloned] it returns is the size
    of that set.  A dequeued URL whose fetch is rejected, or whose
    response is not HTML, is added to the visited set all the same and
    no file is written for it.  So the count can exceed the number of
    page files: on a start page with a link to a JSON document and a
    link to a page that does not answer, [pagesCloned] is 3 and one
    file is written. *)
Theorem pagesCloned_counts_visited_urls :
  (forall URL_new decodeURIComponent cheerio_load cheerio_html W
          (targetUrl : string) (opts : Options) (root : URL),
      URL_new targetUrl None = Some root ->
      exists c s,
        cloneWebsite URL_new decodeURIComponent cheerio_load cheerio_html W
                     targetUrl opts = Some (c, s)
        /\ visitedPages s = rev (pageFetches s)
        /\ (forall r, c = Normal r ->
              pagesCloned (statistics r) = List.length (visitedPages s)))
  /\ (forall URL_new decodeURIComponent cheerio_load cheerio_html W
             (opts : Options) (rootOrigin outputDir : string) (rules : RobotsRules)
             (u : string) (s : CrawlState),
         (fetch W u = Rejected
          \/ exists r, fetch W u = Responded r
                       /\ JS.includes
                            (match contentType r with Some t => t | None => "" end)
                            "text/html" = false) ->
         exists s',
           visitPage URL_new decodeURIComponent cheerio_load cheerio_html W
                     opts rootOrigin outputDir rules u s = (Normal tt, s')
           /\ visitedPages s' = setAdd u (visitedPages s)
           /\ files s' = files s)
  /\ (exists r s,
         cloneDemo (Demo.worldOf Demo.siteWithDeadLinks) "https://example.test/"
                   defaultOptions = Some (Normal r, s)
         /\ pagesCloned (statistics r) = 3
         /\ map fst (files s) = ["/work/cloned-websites/index.html"]).
Proof.
  split; [|split].
  - intros. eapply cloneWebsite_pagesCloned. eassumption.
  - intros. now apply visitPage_without_file.
  - vm_compute. eexists. eexists. repeat split.
Qed.

(* ================================================================== *)
(** ** Failures that reach the caller *)

(** C2, the code at three failing inputs.  With a start URL that parses
    and an output directory that can be prepared, the run still throws
    when the body of a page cannot be read, when a page has an image
    whose address the URL constructor rejects, and when a page file
    cannot be written. *)
Theorem page_failures_propagate :
  option_map fst
    (cloneDemo (Demo.worldOf Demo.siteUnreadable) "https://example.test/" defaultOptions)
  = Some (Throw (BodyFailed "https://example.test/"))
  /\ option_map fst
       (cloneDemo (Demo.worldOf Demo.siteBadImage) "https://example.test/" defaultOptions)
     = Some (Throw (InvalidURL "http://["))
  /\ option_map fst
       (cloneDemo (Demo.readOnlyWorld Demo.exampleSite) "https://example.test/"
                  defaultOptions)
     = Some (Throw (FsFailed "/work/cloned-websites/index.html")).
Proof. vm_compute. repeat split. Qed.

(** The failures the code does absorb: the robots resolver, the page
    fetch and the asset phase never throw. *)
Lemma guarded_failures_absorbed :
  forall URL_new W,
    (forall root s, fst (parseRobots URL_new W root s) = Normal (robotsPolicy URL_new W root))
    /\ (forall u s, exists fetched, fst (fetchPage W u s) = Normal fetched)
    /\ (forall opts rootOrigin outputDir s,
           fst (downloadAssets URL_new W opts rootOrigin outputDir s) = Normal tt).
Proof.
  intros URL_new W. split; [|split].
  - intros root s. now rewrite parseRobots_returns.
  - intros u s. unfold fetchPage, tryCatch, bind, doFetch.
    destruct (fetch W u); eexists; reflexivity.
  - intros. apply downloadAssets_normal.
Qed.

(* ================================================================== *)
(** ** Where the specification and the code part *)

(** C1 as written fails, twice.  With one discovered image whose fetch
    is answered 404, the run reports [assetsDownloaded = 1] although no
    asset was downloaded.  And with two images whose URLs share their
    base name and the first six digits of their digest, the first
    answered 404 and the second 200, a file is at the mapped local path
    of the first: the second wrote it. *)
Lemma assetsDownloaded_counts_failures :
  ~ assetsCountedAsWritten Demo.URL_new Demo.decodeURIComponent Demo.cheerio_load
      Demo.cheerio_html (Demo.worldOf Demo.siteMissingImage)
  /\ ~ failedAssetPathEmptyAsWritten Demo.URL_new Demo.decodeURIComponent
        Demo.cheerio_load Demo.cheerio_html (Demo.worldOf Demo.siteWithTwins).
Proof.
  split; intros H.
  - assert (E : exists r s,
               cloneDemo (Demo.worldOf Demo.siteMissingImage) "https://example.test/"
                         defaultOptions = Some (Normal r, s)
               /\ assetsDownloaded (statistics r) = 1
               /\ List.length
                    (filter (fun l => match l with DownloadedAsset _ => true | _ => false end)
                            (console s)) = 0
               /\ map fst (files s)
                  = ["/work/cloned-websites/about/index.html";
                     "/work/cloned-websites/index.html"]).
    { vm_compute. eexists. eexists. repeat split. }
    destruct E as (r & s & E & Ha & Hc & _).
    specialize (H _ _ r s E). rewrite Ha, Hc in H. discriminate H.
  - assert (E : exists r s,
               cloneDemo (Demo.worldOf Demo.siteWithTwins) "https://example.test/"
                         defaultOptions = Some (Normal r, s)
               /\ outputPath r = "/work/cloned-websites"
               /\ assetSet s = ["https://cdn.test/a.png?v=3450";
                                "https://cdn.test/a.png?v=3458"]
               /\ map fst (files s)
                  = ["/work/cloned-websites/assets/d8a9ad-a.png";
                     "/work/cloned-websites/index.html"]).
    { vm_compute. eexists. eexists. repeat split. }
    destruct E as (r & s & E & Ho & Ha & Hf).
    apply (H _ _ r s "https://cdn.test/a.png?v=3450"
             (mkResponse 404 (Some "text/plain") (Some "not found"))
             (mkURL "https:" "https://cdn.test" "https://cdn.test" "/a.png" "?v=3450" "")
             E).
    + rewrite Ha. now left.
    + reflexivity.
    + reflexivity.
    + reflexivity.
    + rewrite Ho, Hf. left. vm_compute. reflexivity.
Qed.

(** C6 as written fails, twice.  An anchor with an empty [href] is not
    fragment-only, [mailto:], [tel:] or [javascript:], and its target,
    the page itself, is same-origin; the rule leaves it as it is
    instead of rewriting it to the page's path.  And for a link to
    [/about] the [href] becomes [/about/] while the URL that is pushed
    on the queue is [https://example.test/about], not the URL with the
    path written to the [href]. *)
Lemma empty_href_kept_and_target_enqueued_unslashed :
  ~ anchorsRewrittenAsWritten Demo.URL_new
  /\ ~ normalizedUrlEnqueuedAsWritten Demo.URL_new.
Proof.
  split; intros H.
  - specialize (H defaultOptions "https://example.test" emptyRules
                  "https://example.test/" (Demo.el "a" [("href", "")]) ""
                  exampleRoot emptyState eq_refl).
    assert (Hprefix : forall p, In p SKIPPABLE_HREF_PREFIXES ->
                                JS.startsWith "" p = false).
    { intros p [<- | [<- | [<- | [<- | []]]]]; reflexivity. }
    specialize (H Hprefix eq_refl eq_refl (ex_intro _ exampleRoot eq_refl)).
    vm_compute in H. discriminate H.
  - assert (Hprefix : forall p, In p SKIPPABLE_HREF_PREFIXES ->
                                JS.startsWith "/about" p = false).
    { intros p [<- | [<- | [<- | [<- | []]]]]; reflexivity. }
    assert (Hne : "/about" <> "") by discriminate.
    specialize (H defaultOptions "https://example.test" emptyRules
                  "https://example.test/" (Demo.el "a" [("href", "/about")]) "/about"
                  (mkURL "https:" "https://example.test" "https://example.test"
                         "/about" "" "")
                  (initialState "https://example.test/")
                  eq_refl Hne Hprefix eq_refl eq_refl eq_refl eq_refl eq_refl).
    vm_compute in H. destruct H as [H | [H | []]]; discriminate H.
Qed.


(* ================================================================== *)
(** ** The theorems at concrete inputs *)

Lemma isUrlAllowed_disallowed_iff_witness :
  Demo.URL_new "https://example.test/private/x" None
  = Some (mkURL "https:" "https://example.test" "https://example.test"
                "/private/x" "" "")
  /\ exists allowed : bool,
       isUrlAllowed Demo.URL_new "https://example.test/private/x" ["/private"]
       = Some allowed
       /\ (allowed = false <->
           exists path, In path ["/private"] /\ coveredBy "/private/x" path).
Proof.
  split; [reflexivity|].
  apply (isUrlAllowed_disallowed_iff Demo.URL_new "https://example.test/private/x"
           (mkURL "https:" "https://example.test" "https://example.test"
                  "/private/x" "" "") ["/private"]).
  reflexivity.
Defined.


Lemma parseRobots_failure_gives_empty_policy_witness :
  (forall robotsUrl : URL,
      Demo.URL_new "/robots.txt" (Some (href exampleRoot)) = Some robotsUrl ->
      fetchFailed (fetch (Demo.worldOf Demo.exampleSite) (href robotsUrl)))
  /\ parseRobots Demo.URL_new (Demo.worldOf Demo.exampleSite) exampleRoot emptyState
     = (Normal (mkRobotsRules [] 0%Z), emptyState).
Proof.
  assert (Hfail : forall robotsUrl : URL,
             Demo.URL_new "/robots.txt" (Some (href exampleRoot)) = Some robotsUrl ->
             fetchFailed (fetch (Demo.worldOf Demo.exampleSite) (href robotsUrl))).
  { intros robotsUrl E. vm_compute in E. injection E as <-. vm_compute. exact I. }
  split; [exact Hfail|].
  apply (parseRobots_failure_gives_empty_policy Demo.URL_new
           (Demo.worldOf Demo.exampleSite) exampleRoot emptyState Hfail).
Defined.

Lemma crawl_budget_disjoint_single_entry_witness :
  Demo.URL_new "https://example.test/" None = Some exampleRoot
  /\ (0 <= maxPages defaultOptions)%Z
  /\ exists c s,
       cloneDemo (Demo.worldOf Demo.exampleSite) "https://example.test/" defaultOptions
       = Some (c, s)
       /\ (forall v q, In (v, q) (snapshots s) ->
             NoDup v
             /\ (Z.of_nat (List.length v) <= maxPages defaultOptions)%Z
             /\ (forall u, In u v -> ~ In u q))
       /\ (exists older, snapshots s = (visitedPages s, pageQueue s) :: older)
       /\ NoDup (pushes s ++ [href exampleRoot]).
Proof.
  split; [reflexivity|]. split; [simpl; lia|].
  apply (crawl_budget_disjoint_single_entry Demo.URL_new Demo.decodeURIComponent
           Demo.cheerio_load Demo.cheerio_html (Demo.worldOf Demo.exampleSite)
           "https://example.test/" defaultOptions exampleRoot);
    [reflexivity | simpl; lia].
Defined.


Lemma anchorRule_rewrites_and_enqueues_witness :
  anchorRule Demo.URL_new defaultOptions "https://example.test"
    (mkRobotsRules ["/private"] 0%Z) "https://example.test/"
    (Demo.el "a" [("href", "")]) (initialState "https://example.test/")
  = (Normal (Demo.el "a" [("href", "")]), initialState "https://example.test/")
  /\ exists allowed s',
    isUrlAllowed Demo.URL_new "https://example.test/about"
                 (disallowedPaths (mkRobotsRules ["/private"] 0%Z)) = Some allowed
    /\ anchorRule Demo.URL_new defaultOptions "https://example.test"
         (mkRobotsRules ["/private"] 0%Z) "https://example.test/"
         (Demo.el "a" [("href", "/about?x=1#k")]) (initialState "https://example.test/")
       = (Normal (setAttr "href" (directoryStyle "/about")
                          (Demo.el "a" [("href", "/about?x=1#k")])), s')
    /\ pageQueue s' = ["https://example.test/"; "https://example.test/about"].
Proof.
  split.
  { apply (anchorRule_rewrites_and_enqueues Demo.URL_new defaultOptions
             "https://example.test" (mkRobotsRules ["/private"] 0%Z)
             "https://example.test/" (Demo.el "a" [("href", "")]) ""
             (initialState "https://example.test/") eq_refl).
    left. reflexivity. }
  assert (Hprefix : forall p, In p SKIPPABLE_HREF_PREFIXES ->
                              JS.startsWith "/about?x=1#k" p = false).
  { intros p [<- | [<- | [<- | [<- | []]]]]; reflexivity. }
  assert (Hne : "/about?x=1#k" <> "") by discriminate.
  assert (Hpolicy : respectRobots defaultOptions = false ->
                    disallowedPaths (mkRobotsRules ["/private"] 0%Z) = []).
  { simpl. intros H. discriminate H. }
  destruct (anchorRule_rewrites_and_enqueues Demo.URL_new defaultOptions
              "https://example.test" (mkRobotsRules ["/private"] 0%Z)
              "https://example.test/" (Demo.el "a" [("href", "/about?x=1#k")])
              "/about?x=1#k" (initialState "https://example.test/") eq_refl)
    as [_ Hmain].
  destruct (Hmain Hne Hprefix
              (mkURL "https:" "https://example.test" "https://example.test"
                     "/about" "?x=1" "#k")
              eq_refl
              (ex_intro _ (mkURL "https:" "https://example.test"
                                 "https://example.test" "/about" "" "") eq_refl)
              Hpolicy) as [Hsame _].
  destruct (Hsame eq_refl) as (allowed & s' & Ha & Hrule & Hq & _).
  exists allowed, s'. split; [exact Ha|]. split; [exact Hrule|].
  rewrite Hq. vm_compute in Ha. injection Ha as <-. reflexivity.
Defined.

Lemma asset_failures_absorbed_witness :
  exists s',
    downloadAssets Demo.URL_new (Demo.worldOf Demo.siteMissingImage) defaultOptions
      "https://example.test" "/work/cloned-websites"
      (mkCrawlState [] [] ["https://cdn.test/logo.png"] [] [] [] [] [])
    = (Normal tt, s')
    /\ assetSet s' = ["https://cdn.test/logo.png"]
    /\ assetsDownloaded (statistics (buildResult defaultOptions "/work/cloned-websites" s'))
       = 1.
Proof.
  destruct (asset_failures_absorbed Demo.URL_new Demo.decodeURIComponent
              Demo.cheerio_load Demo.cheerio_html (Demo.worldOf Demo.siteMissingImage)
              defaultOptions "https://example.test" "/work/cloned-websites"
              (mkCrawlState [] [] ["https://cdn.test/logo.png"] [] [] [] [] []))
    as (s' & Hrun & Hassets & _ & _ & _ & _ & Hcount & _).
  exists s'. split; [exact Hrun|]. split; [exact Hassets | exact Hcount].
Defined.

Lemma pagesCloned_counts_visited_urls_witness :
  Demo.URL_new "https://example.test/" None = Some exampleRoot
  /\ exists c s,
       cloneDemo (Demo.worldOf Demo.siteWithDeadLinks) "https://example.test/"
                 defaultOptions = Some (c, s)
       /\ visitedPages s = rev (pageFetches s)
       /\ (forall r, c = Normal r ->
             pagesCloned (statistics r) = List.length (visitedPages s)).
Proof.
  split; [reflexivity|].
  apply (proj1 pagesCloned_counts_visited_urls Demo.URL_new Demo.decodeURIComponent
           Demo.cheerio_load Demo.cheerio_html (Demo.worldOf Demo.siteWithDeadLinks)
           "https://example.test/" defaultOptions exampleRoot).
  reflexivity.
Defined.

(* ================================================================== *)
(** ** The further theorems at concrete inputs *)

Local Abbreviation mirrorDemo :=
  (getMirrorWebsite Demo.URL_new Demo.decodeURIComponent Demo.cheerio_load
                    Demo.cheerio_html (Demo.worldOf Demo.exampleSite) Demo.hostname).

Lemma parseRobots_paths_are_first_fields_witness :
  In "http"
     (disallowedPaths
        (parseRobotsForUserAgent
           ("User-agent: *" ++ Demo.newline ++ "Disallow: /a:b " ++ Demo.newline
            ++ "Disallow: http://x.test/p") USER_AGENT_NAME))
  /\ "http" <> ""
  /\ allChars (fun a => negb (Ascii.eqb a ":")) "http" = true
  /\ JS.trim "http" = "http".
Proof.
  assert (Hin : In "http"
                  (disallowedPaths
                     (parseRobotsForUserAgent
                        ("User-agent: *" ++ Demo.newline ++ "Disallow: /a:b "
                         ++ Demo.newline ++ "Disallow: http://x.test/p")
                        USER_AGENT_NAME))).
  { vm_compute. right. left. reflexivity. }
  split; [exact Hin|].
  exact (parseRobots_paths_are_first_fields _ _ _ Hin).
Defined.

Lemma parseRobots_without_group_is_empty_witness :
  (forall line,
      In line (robotsLines ("user-agent: *" ++ Demo.newline ++ "Disallow: /a"
                            ++ Demo.newline ++ "User-agent: Googlebot"
                            ++ Demo.newline ++ "Disallow: /b")) ->
      opensGroupFor USER_AGENT_NAME line = false)
  /\ parseRobotsForUserAgent
       ("user-agent: *" ++ Demo.newline ++ "Disallow: /a" ++ Demo.newline
        ++ "User-agent: Googlebot" ++ Demo.newline ++ "Disallow: /b")
       USER_AGENT_NAME
     = emptyRules.
Proof.
  assert (Hno : forall line,
             In line (robotsLines ("user-agent: *" ++ Demo.newline ++ "Disallow: /a"
                                   ++ Demo.newline ++ "User-agent: Googlebot"
                                   ++ Demo.newline ++ "Disallow: /b")) ->
             opensGroupFor USER_AGENT_NAME line = false).
  { intros line Hin. vm_compute in Hin.
    destruct Hin as [<- | [<- | [<- | [<- | []]]]]; reflexivity. }
  split; [exact Hno|].
  exact (parseRobots_without_group_is_empty _ _ Hno).
Defined.

Lemma pattern_with_trailing_slash_covers_itself_only_witness :
  JS.includes "/private/x" "//" = false
  /\ patternCovers "/private/x" ("/private" ++ "/")
     = String.eqb "/private/x" ("/private" ++ "/").
Proof.
  split; [reflexivity|].
  apply (pattern_with_trailing_slash_covers_itself_only "/private/x" "/private").
  reflexivity.
Defined.

Lemma rewritten_href_maps_to_target_file_witness :
  pathname (mkURL "https:" "https://example.test" "https://example.test"
                  "/about/" "" "")
  = prettyPath (mkURL "https:" "https://example.test" "https://example.test"
                      "/about" "" "")
  /\ mapTargetUrlToFilePath "/work/out"
       (mkURL "https:" "https://example.test" "https://example.test" "/about/" "" "")
     = mapTargetUrlToFilePath "/work/out"
         (mkURL "https:" "https://example.test" "https://example.test" "/about" "" "").
Proof.
  split; [reflexivity|].
  apply (rewritten_href_maps_to_target_file "/work/out"
           (mkURL "https:" "https://example.test" "https://example.test" "/about" "" "")
           (mkURL "https:" "https://example.test" "https://example.test"
                  "/about/" "" "")).
  reflexivity.
Defined.

Lemma rewriteDocument_keeps_structure_witness :
  exists doc' s',
    rewriteDocument Demo.URL_new Demo.decodeURIComponent defaultOptions
      "https://example.test" emptyRules "https://example.test/" Demo.mixedDoc
      (initialState "https://example.test/") = (Normal doc', s')
    /\ Forall2 (fun e e' =>
                  tag e' = tag e
                  /\ (forall a, ~ In a REWRITTEN_ATTRS -> attr a e' = attr a e)
                  /\ (~ In (tag e) REWRITTEN_TAGS -> e' = e)
                  /\ (tag e = "img" -> forall a, In a LAZY_ATTRS -> attr a e' = None))
               Demo.mixedDoc doc'.
Proof.
  assert (Hrun : exists doc' s',
             rewriteDocument Demo.URL_new Demo.decodeURIComponent defaultOptions
               "https://example.test" emptyRules "https://example.test/" Demo.mixedDoc
               (initialState "https://example.test/") = (Normal doc', s')).
  { vm_compute. eexists. eexists. reflexivity. }
  destruct Hrun as (doc' & s' & Hrun). exists doc', s'. split; [exact Hrun|].
  exact (rewriteDocument_keeps_structure _ _ _ _ _ _ _ _ _ _ Hrun).
Defined.

Lemma lazy_image_source_wins_witness :
  exists e' s',
    imgRule Demo.URL_new Demo.decodeURIComponent "https://example.test/"
            Demo.lazyImage emptyState = (Normal e', s')
    /\ attr "src" e'
       = Some (localizeAssetPath
                 (mkURL "https:" "https://example.test" "https://example.test"
                        "/img/photo.png" "" ""))
    /\ attr "data-src" e' = None
    /\ In "https://example.test/img/photo.png" (assetSet s').
Proof.
  assert (Hrun : exists e' s',
             imgRule Demo.URL_new Demo.decodeURIComponent "https://example.test/"
                     Demo.lazyImage emptyState = (Normal e', s')).
  { vm_compute. eexists. eexists. reflexivity. }
  destruct Hrun as (e' & s' & Hrun). exists e', s'. split; [exact Hrun|].
  apply (lazy_image_source_wins Demo.URL_new Demo.decodeURIComponent
           "https://example.test/" Demo.lazyImage e' "/img/photo.png"
           (mkURL "https:" "https://example.test" "https://example.test"
                  "/img/photo.png" "" "") emptyState s');
    [reflexivity | reflexivity | reflexivity | reflexivity | reflexivity | exact Hrun].
Defined.

Lemma statistics_tell_budget_and_completion_witness :
  exists r s,
    cloneDemo (Demo.worldOf Demo.exampleSite) "https://example.test/" defaultOptions
    = Some (Normal r, s)
    /\ success r = true
    /\ outputPath r = Path.join "/work" "cloned-websites"
    /\ robotsRespected (statistics r) = true
    /\ (Z.of_nat (pagesCloned (statistics r)) <= 10)%Z
    /\ (maxPagesReached (statistics r) = true
        <-> Z.of_nat (pagesCloned (statistics r)) = 10%Z)
    /\ (maxPagesReached (statistics r) = false -> pageQueue s = []).
Proof.
  assert (Hrun : exists r s,
             cloneDemo (Demo.worldOf Demo.exampleSite) "https://example.test/"
                       defaultOptions = Some (Normal r, s)).
  { vm_compute. eexists. eexists. reflexivity. }
  destruct Hrun as (r & s & Hrun). exists r, s. split; [exact Hrun|].
  apply (statistics_tell_budget_and_completion Demo.URL_new Demo.decodeURIComponent
           Demo.cheerio_load Demo.cheerio_html (Demo.worldOf Demo.exampleSite)
           "https://example.test/" defaultOptions exampleRoot r s);
    [reflexivity | simpl; lia | exact Hrun].
Defined.

Lemma zero_budget_empties_directory_and_succeeds_witness :
  priorFiles (Demo.usedWorld Demo.exampleSite) "/work/out"
  = [("/work/out/old/index.html", "<p>old</p>")]
  /\ exists r s,
    cloneDemo (Demo.usedWorld Demo.exampleSite) "https://example.test/"
              (mkOptions "out" 0 true 10 true) = Some (Normal r, s)
    /\ success r = true
    /\ pagesCloned (statistics r) = 0
    /\ assetsDownloaded (statistics r) = 0
    /\ maxPagesReached (statistics r) = true
    /\ pageFetches s = []
    /\ files s = []
    /\ pageQueue s = [href exampleRoot].
Proof.
  split; [reflexivity|].
  apply (zero_budget_empties_directory_and_succeeds Demo.URL_new
           Demo.decodeURIComponent Demo.cheerio_load Demo.cheerio_html
           (Demo.usedWorld Demo.exampleSite) "https://example.test/"
           (mkOptions "out" 0 true 10 true) exampleRoot);
    [reflexivity | simpl; lia | simpl; lia | reflexivity].
Defined.

Lemma excluded_start_url_gives_empty_clone_witness :
  exists r s,
    cloneDemo (Demo.worldOf Demo.siteWithRobots) "https://example.test/private/x"
              defaultOptions = Some (Normal r, s)
    /\ success r = true
    /\ pagesCloned (statistics r) = 0
    /\ maxPagesReached (statistics r) = false
    /\ pageFetches s = []
    /\ files s = []
    /\ console s = [SkippedDisallowed "https://example.test/private/x"].
Proof.
  apply (excluded_start_url_gives_empty_clone Demo.URL_new Demo.decodeURIComponent
           Demo.cheerio_load Demo.cheerio_html (Demo.worldOf Demo.siteWithRobots)
           "https://example.test/private/x" defaultOptions
           (mkURL "https:" "https://example.test" "https://example.test"
                  "/private/x" "" ""));
    [reflexivity | reflexivity | vm_compute; reflexivity | simpl; lia | simpl; lia
     | reflexivity].
Defined.

Lemma pages_visited_in_discovery_order_witness :
  Demo.URL_new "https://example.test/" None = Some exampleRoot
  /\ exists c s,
       cloneDemo (Demo.worldOf Demo.siteWithRobots) "https://example.test/"
                 defaultOptions = Some (c, s)
       /\ exists done : list string,
            (href exampleRoot :: rev (pushes s) = done ++ pageQueue s)%list
            /\ subseq (visitedPages s) done.
Proof.
  split; [reflexivity|].
  apply (pages_visited_in_discovery_order Demo.URL_new Demo.decodeURIComponent
           Demo.cheerio_load Demo.cheerio_html (Demo.worldOf Demo.siteWithRobots)
           "https://example.test/" defaultOptions exampleRoot).
  reflexivity.
Defined.


Lemma output_tree_holds_pages_and_assets_only_witness :
  Demo.URL_new "https://example.test/" None = Some exampleRoot
  /\ (1 <= concurrency defaultOptions)%Z
  /\ canEmptyDir (Demo.usedWorld Demo.exampleSite)
                 (Path.join "/work" (outDir defaultOptions)) = true
  /\ exists c s,
       cloneDemo (Demo.usedWorld Demo.exampleSite) "https://example.test/"
                 defaultOptions = Some (c, s)
       /\ forall p, In p (map fst (files s)) ->
            (exists (u : string) (pu : URL),
               In u (visitedPages s)
               /\ Demo.URL_new u None = Some pu
               /\ p = mapTargetUrlToFilePath
                        (Path.join "/work" (outDir defaultOptions)) pu)
            \/ (exists (a : string) (ua : URL),
                  In a (assetSet s)
                  /\ Demo.URL_new a None = Some ua
                  /\ (protocol ua = "http:" \/ protocol ua = "https:")
                  /\ (origin ua = origin exampleRoot
                      \/ mirrorExternalAssets defaultOptions = true)
                  /\ p = Path.join (Path.join "/work" (outDir defaultOptions))
                                   (localizeAssetPath ua)).
Proof.
  split; [reflexivity|]. split; [simpl; lia|]. split; [reflexivity|].
  destruct (output_tree_holds_pages_and_assets_only Demo.URL_new
              Demo.decodeURIComponent Demo.cheerio_load Demo.cheerio_html
              (Demo.usedWorld Demo.exampleSite) "https://example.test/"
              defaultOptions exampleRoot eq_refl) as (c & s & Hrun & _ & Htree).
  exists c, s. split; [exact Hrun|].
  apply Htree; [simpl; lia | reflexivity].
Defined.

Lemma visited_html_pages_are_saved_witness :
  exists r s,
    cloneDemo (Demo.worldOf Demo.exampleSite) "https://example.test/" defaultOptions
    = Some (Normal r, s)
    /\ In "https://example.test/about/" (visitedPages s)
    /\ exists pu : URL,
         Demo.URL_new "https://example.test/about/" None = Some pu
         /\ In (mapTargetUrlToFilePath (Path.join "/work" (outDir defaultOptions)) pu)
               (map fst (files s)).
Proof.
  assert (Hrun : exists r s,
             cloneDemo (Demo.worldOf Demo.exampleSite) "https://example.test/"
                       defaultOptions = Some (Normal r, s)
             /\ In "https://example.test/about/" (visitedPages s)).
  { vm_compute. eexists. eexists. split; [reflexivity|]. right. left. reflexivity. }
  destruct Hrun as (r & s & Hrun & Hin). exists r, s.
  split; [exact Hrun|]. split; [exact Hin|].
  apply (visited_html_pages_are_saved Demo.URL_new Demo.decodeURIComponent
           Demo.cheerio_load Demo.cheerio_html (Demo.worldOf Demo.exampleSite)
           "https://example.test/" defaultOptions exampleRoot r s eq_refl Hrun
           "https://example.test/about/"
           (mkResponse 200 (Some "text/html; charset=utf-8") (Some Demo.aboutHtml)));
    [exact Hin | reflexivity | reflexivity].
Defined.

Lemma network_failures_never_end_a_run_witness :
  exists e s,
    cloneDemo (Demo.worldOf Demo.siteBadImage) "https://example.test/" defaultOptions
    = Some (Throw e, s)
    /\ match e with
       | FetchFailed _ | HttpStatus _ => False
       | InvalidURL _ | MalformedURI _ | BodyFailed _ | FsFailed _
       | InvalidConcurrency _ => True
       end.
Proof.
  assert (Hrun : exists e s,
             cloneDemo (Demo.worldOf Demo.siteBadImage) "https://example.test/"
                       defaultOptions = Some (Throw e, s)).
  { vm_compute. eexists. eexists. reflexivity. }
  destruct Hrun as (e & s & Hrun). exists e, s. split; [exact Hrun|].
  exact (network_failures_never_end_a_run _ _ _ _ _ _ _ _ _ Hrun).
Defined.

Lemma existing_clone_answers_for_witness :
  CloneManager.checkExistingClone Demo.legacyDisk "./cloned-websites/example.test"
                                  "https://example.test/"
  = Some (CloneManager.mkExistingClone
            "./cloned-websites/example.test" (Some "Unknown (legacy clone)")
            "https://example.test/" None true)
  /\ CloneManager.checkExistingClone Demo.legacyDisk "./cloned-websites/example.test"
                                     "https://example.test/deep/page"
     = Some (CloneManager.mkExistingClone
               "./cloned-websites/example.test" (Some "Unknown (legacy clone)")
               "https://example.test/deep/page" None true).
Proof.
  split; [reflexivity|].
  apply (existing_clone_answers_for Demo.legacyDisk "./cloned-websites/example.test"
           "https://example.test/" "https://example.test/deep/page"
           (CloneManager.mkExistingClone
              "./cloned-websites/example.test" (Some "Unknown (legacy clone)")
              "https://example.test/" None true)).
  reflexivity.
Defined.

Lemma saved_clone_is_found_witness :
  CloneManager.checkExistingClone
    (CloneManager.saveCloneMetadata Demo.emptyDisk "./cloned-websites/example.test"
       (CloneManager.mkMirrorResult true "done" "/work/cloned-websites/example.test"
          (Some "https://example.test/") (Some "2026-01-01T00:00:00.000Z") false
          (Some "example.test") (Some (mkStatistics 2 1 false true))))
    "./cloned-websites/example.test" "https://example.test/"
  = Some (CloneManager.mkExistingClone
            "./cloned-websites/example.test" (Some "2026-01-01T00:00:00.000Z")
            "https://example.test/" (Some (mkStatistics 2 1 false true)) false).
Proof.
  apply (saved_clone_is_found Demo.emptyDisk "./cloned-websites/example.test"
           "https://example.test/"
           (CloneManager.mkMirrorResult true "done" "/work/cloned-websites/example.test"
              (Some "https://example.test/") (Some "2026-01-01T00:00:00.000Z") false
              (Some "example.test") (Some (mkStatistics 2 1 false true))));
    reflexivity.
Defined.

Lemma listAllClones_lists_readable_clones_witness :
  map CloneManager.ceDirectory
      (CloneManager.listAllClones Demo.clonesDisk "./cloned-websites")
  = ["a.test"; "c.test"]
  /\ CloneManager.listAllClones Demo.brokenDisk "./cloned-websites" = [].
Proof.
  destruct (listAllClones_lists_readable_clones Demo.clonesDisk "./cloned-websites"
              ["a.test"; "b.test"; "notes.txt"; "c.test"; "d.test"] eq_refl eq_refl)
    as [Hall _].
  destruct (listAllClones_lists_readable_clones Demo.brokenDisk "./cloned-websites"
              ["a.test"; "b.test"; "notes.txt"; "c.test"; "d.test"] eq_refl eq_refl)
    as [_ Hnone].
  split.
  - rewrite Hall; [reflexivity|].
    intros dir [<- | [<- | [<- | [<- | [<- | []]]]]]; discriminate.
  - apply Hnone. exists "notes.txt". split; [simpl; auto | reflexivity].
Defined.

Lemma mirror_directory_is_child_of_cloned_websites_witness :
  ordinaryName (CloneManager.sanitizeDomain (mirrorDomain "example.test")) = true
  /\ Path.join "/work" (mirrorOutDir "example.test")
     = "/work/cloned-websites/example.test"
  /\ mirrorOutDir ("www." ++ "example.test") = mirrorOutDir "example.test".
Proof.
  destruct (mirror_directory_is_child_of_cloned_websites "/work" "example.test" eq_refl)
    as [Hjoin Hwww].
  split; [reflexivity|]. split; [rewrite Hjoin; reflexivity | now apply Hwww].
Defined.

Lemma existing_clone_is_not_cloned_again_witness :
  mirrorDemo "2026-01-01T00:00:00.000Z" (fun _ => Demo.emptyDisk) Demo.legacyDisk
             "https://example.test/deep/page"
  = Some (inr (CloneManager.mkMirrorResult
                 true "✅ Website already exists locally"
                 "./cloned-websites/example.test"
                 (Some "https://example.test/deep/page")
                 (Some "Unknown (legacy clone)") true None None), Demo.legacyDisk).
Proof.
  apply (existing_clone_is_not_cloned_again Demo.URL_new Demo.decodeURIComponent
           Demo.cheerio_load Demo.cheerio_html (Demo.worldOf Demo.exampleSite)
           Demo.hostname "2026-01-01T00:00:00.000Z" (fun _ => Demo.emptyDisk)
           Demo.legacyDisk "https://example.test/deep/page"
           (mkURL "https:" "https://example.test" "https://example.test"
                  "/deep/page" "" "")
           (CloneManager.mkExistingClone
              "./cloned-websites/example.test" (Some "Unknown (legacy clone)")
              "https://example.test/deep/page" None true));
    [reflexivity | right; reflexivity | reflexivity].
Defined.

Lemma fresh_mirror_is_found_next_time_witness :
  exists result D',
    mirrorDemo "2026-01-01T00:00:00.000Z" (fun _ => Demo.emptyDisk) Demo.emptyDisk
               "https://example.test/" = Some (inr result, D')
    /\ CloneManager.mrIsExisting result = false
    /\ CloneManager.mrOutputPath result = "/work/cloned-websites/example.test"
    /\ mirrorDemo "2026-03-03T00:00:00.000Z" (fun _ => Demo.emptyDisk) D'
                  "https://example.test/"
       = Some (inr (CloneManager.mkMirrorResult
                      true "✅ Website already exists locally"
                      "./cloned-websites/example.test" (Some "https://example.test/")
                      (Some "2026-01-01T00:00:00.000Z") true None None), D').
Proof.
  assert (Hrun : exists result D',
             mirrorDemo "2026-01-01T00:00:00.000Z" (fun _ => Demo.emptyDisk)
                        Demo.emptyDisk "https://example.test/"
             = Some (inr result, D')
             /\ CloneManager.mrIsExisting result = false).
  { vm_compute. eexists. eexists. split; reflexivity. }
  destruct Hrun as (result & D' & Hrun & Hfresh). exists result, D'.
  split; [exact Hrun|]. split; [exact Hfresh|].
  destruct (fresh_mirror_is_found_next_time Demo.URL_new Demo.decodeURIComponent
              Demo.cheerio_load Demo.cheerio_html (Demo.worldOf Demo.exampleSite)
              Demo.hostname "2026-01-01T00:00:00.000Z" (fun _ => Demo.emptyDisk)
              Demo.emptyDisk D' "https://example.test/" exampleRoot result
              eq_refl Hrun Hfresh (fun _ => conj eq_refl eq_refl))
    as [Hpath Hagain].
  split; [rewrite Hpath; reflexivity|].
  apply (Hagain "2026-03-03T00:00:00.000Z" (fun _ => Demo.emptyDisk)).
Defined.

Lemma fresh_mirror_result_witness :
  exists outcome D',
    mirrorDemo "2026-01-01T00:00:00.000Z" (fun _ => Demo.emptyDisk) Demo.emptyDisk
               "https://example.test/" = Some (outcome, D')
    /\ match outcome with
       | inl e =>
           (clonerLoads (Demo.worldOf Demo.exampleSite) = false
            /\ e = ModuleLoadFailed /\ D' = Demo.emptyDisk)
           \/ (clonerLoads (Demo.worldOf Demo.exampleSite) = true
               /\ exists cloneError (s : CrawlState),
                    cloneDemo (Demo.worldOf Demo.exampleSite) (href exampleRoot)
                              (mirrorConfig (mirrorOutDir (Demo.hostname exampleRoot)))
                    = Some (Throw cloneError, s)
                    /\ e = CloningFailed cloneError)
       | inr result =>
           clonerLoads (Demo.worldOf Demo.exampleSite) = true
           /\ CloneManager.mrSuccess result = true
           /\ CloneManager.mrIsExisting result = false
           /\ CloneManager.mrClonedAt result = Some "2026-01-01T00:00:00.000Z"
           /\ CloneManager.mrSourceUrl result = Some (href exampleRoot)
           /\ CloneManager.mrDomain result
              = Some (mirrorDomain (Demo.hostname exampleRoot))
           /\ CloneManager.mrOutputPath result
              = Path.join "/work" (mirrorOutDir (Demo.hostname exampleRoot))
           /\ exists stats,
                CloneManager.mrStatistics result = Some stats
                /\ pagesCloned stats <= 10
                /\ robotsRespected stats = true
       end.
Proof.
  apply (fresh_mirror_result Demo.URL_new Demo.decodeURIComponent
           Demo.cheerio_load Demo.cheerio_html (Demo.worldOf Demo.exampleSite)
           Demo.hostname "2026-01-01T00:00:00.000Z" (fun _ => Demo.emptyDisk)
           Demo.emptyDisk "https://example.test/" exampleRoot);
    [reflexivity | right; reflexivity | reflexivity].
Defined.


(** A command that never exits keeps the turn pending. *)
Example endless_command_keeps_turn_pending :
  agentTurn Demo.URL_new Demo.decodeURIComponent Demo.cheerio_load Demo.cheerio_html
    (Demo.worldOf Demo.exampleSite) Demo.hostname "2026-01-01T00:00:00.000Z"
    (fun _ => Demo.emptyDisk) (fun _ => Some "{'step':'TOOL'}")
    (fun _ => Some (Agent.ParsedValue
                      (Agent.mkReply (Some "TOOL") "runSystemCommand"
                                     (Agent.ArgString "tail -f /dev/null")
                                     "{'step':'TOOL'}")))
    Demo.execForever Demo.inherited
    (Agent.initialHistory "https://example.test/") Demo.emptyDisk
  = Some (Agent.Pending
            (Agent.initialHistory "https://example.test/"
             ++ [Agent.mkMessage Agent.RoleAssistant
                   (Agent.ReplyText (Some "{'step':'TOOL'}"))])
            Demo.emptyDisk).
Proof. reflexivity. Qed.

Lemma only_tool_steps_touch_the_disk_witness :
  exists t,
    agentTurn Demo.URL_new Demo.decodeURIComponent Demo.cheerio_load Demo.cheerio_html
      (Demo.worldOf Demo.exampleSite) Demo.hostname "2026-01-01T00:00:00.000Z"
      (fun _ => Demo.emptyDisk) Demo.llm Demo.JSON_parse Demo.exec Demo.inherited
      (Agent.initialHistory "https://example.test/"
       ++ [Agent.mkMessage Agent.RoleAssistant (Agent.ReplyText (Some "{'step':'START'}"));
           Agent.mkMessage Agent.RoleAssistant (Agent.ReplyText (Some "{'step':'THINK'}"))])
      Demo.emptyDisk = Some t
    /\ Agent.turnDisk t <> Demo.emptyDisk
    /\ exists text r,
         Demo.llm
           (Agent.initialHistory "https://example.test/"
            ++ [Agent.mkMessage Agent.RoleAssistant
                  (Agent.ReplyText (Some "{'step':'START'}"));
                Agent.mkMessage Agent.RoleAssistant
                  (Agent.ReplyText (Some "{'step':'THINK'}"))])
         = Some text
         /\ parseResponse Demo.JSON_parse (JS.trim text) = Some (Agent.ParsedValue r)
         /\ Agent.replyStep r = Some "TOOL"
         /\ (Agent.replyToolName r = "runSystemCommand"
             \/ Agent.replyToolName r = "getMirrorWebsite").
Proof.
  assert (Hrun : exists t,
             agentTurn Demo.URL_new Demo.decodeURIComponent Demo.cheerio_load
               Demo.cheerio_html (Demo.worldOf Demo.exampleSite) Demo.hostname
               "2026-01-01T00:00:00.000Z" (fun _ => Demo.emptyDisk) Demo.llm
               Demo.JSON_parse Demo.exec Demo.inherited
               (Agent.initialHistory "https://example.test/"
                ++ [Agent.mkMessage Agent.RoleAssistant
                      (Agent.ReplyText (Some "{'step':'START'}"));
                    Agent.mkMessage Agent.RoleAssistant
                      (Agent.ReplyText (Some "{'step':'THINK'}"))])
               Demo.emptyDisk = Some t
             /\ CloneManager.pathExists (Agent.turnDisk t)
                  "./cloned-websites/example.test" = true).
  { vm_compute. eexists. split; reflexivity. }
  destruct Hrun as (t & Hrun & Hpath).
  assert (Hd : Agent.turnDisk t <> Demo.emptyDisk).
  { intros E. rewrite E in Hpath. discriminate Hpath. }
  exists t. split; [exact Hrun|]. split; [exact Hd|].
  exact (only_tool_steps_touch_the_disk _ _ _ _ _ _ _ _ _ _ _ _ _ _ _ Hrun Hd).
Defined.
